(** * uni_search: crawl, index and search pipeline

    A shallow embedding of the Python sources

    - [crawler.py]          ([WebCrawler]: URL normaliser, BFS frontier and
                             the CSV it saves),
    - [indexer.py]          ([WebIndexerBot]: extractor, analyzer fallback,
                             resumable batch coordinator, statistics),
    - [indexer_crawler.py]  ([AIWebsiteIndexer]: the sequential indexer, from
                             the CSV to the output file),
    - [ai_searcher.py], [app.py] ([SearchBot]: search, filter, statistics,
                             [search_and_answer] and the [/search] route),

    together with the properties the specification states about them, and
    further properties read off the code.

    Python sets are [gset], dicts used as records are Rocq records, the
    [deque] and the Python lists are [list]s, text is [string] (or
    [list ascii] inside the URL parser).  Calls that leave the program
    (HTTP, BeautifulSoup parsing, markdownify, the Groq client, fuzzywuzzy)
    are Section variables: the theorems hold for every behaviour of the
    outside world. *)

From Stdlib Require Import Ascii String QArith Qminmax.
From stdpp Require Import gmap strings list sorting.

Local Open Scope string_scope.
Local Open Scope list_scope.
Local Open Scope nat_scope.

(** ** Characters and character lists *)

Module Chars.

Definition code (c : ascii) : nat := nat_of_ascii c.

(** [c.isascii() and c.isalpha()] *)
Definition is_alpha (c : ascii) : bool :=
  let n := code c in
  ((65 <=? n) && (n <=? 90)) || ((97 <=? n) && (n <=? 122)).

Definition is_digit (c : ascii) : bool :=
  let n := code c in (48 <=? n) && (n <=? 57).

(** [str.lower] on one character (ASCII letters only). *)
Definition lower_char (c : ascii) : ascii :=
  let n := code c in
  if (65 <=? n) && (n <=? 90) then ascii_of_nat (n + 32) else c.

Definition lower (l : list ascii) : list ascii := map lower_char l.

Definition eqc (a b : ascii) : bool := Ascii.eqb a b.

(** [c in l] *)
Definition mem (c : ascii) (l : list ascii) : bool := existsb (eqc c) l.

(** [l.find(c)]: index of the first occurrence, [None] for Python's -1. *)
Fixpoint find (c : ascii) (l : list ascii) : option nat :=
  match l with
  | [] => None
  | x :: l' => if eqc x c then Some 0 else S <$> find c l'
  end.

(** [l.find(c, start)] *)
Definition find_from (c : ascii) (start : nat) (l : list ascii) : option nat :=
  (fun i => start + i) <$> find c (drop start l).

(** [l.rfind(c)]: index of the last occurrence. *)
Fixpoint rfind (c : ascii) (l : list ascii) : option nat :=
  match l with
  | [] => None
  | x :: l' =>
      match rfind c l' with
      | Some i => Some (S i)
      | None => if eqc x c then Some 0 else None
      end
  end.

(** [l.lstrip(chars)] for a character class given as a predicate. *)
Fixpoint lstrip (p : ascii -> bool) (l : list ascii) : list ascii :=
  match l with
  | [] => []
  | x :: l' => if p x then lstrip p l' else l
  end.

(** [l.rstrip(chars)] *)
Definition rstrip (p : ascii -> bool) (l : list ascii) : list ascii :=
  rev (lstrip p (rev l)).

(** Python's whitespace for [str.strip()] restricted to ASCII:
    space, \t \n \v \f \r and the separators 0x1c-0x1f. *)
Definition is_space (c : ascii) : bool :=
  let n := code c in
  (n =? 32) || ((9 <=? n) && (n <=? 13)) || ((28 <=? n) && (n <=? 31)).

End Chars.

(** [str.strip()] *)
Definition strip (s : string) : string :=
  string_of_list_ascii
    (Chars.rstrip Chars.is_space
       (Chars.lstrip Chars.is_space (list_ascii_of_string s))).

(** ** urllib.parse.urlparse

    [crawler.py] and [indexer.py] import [urlparse] from CPython's
    [urllib.parse].  The model follows [urlsplit], [_splitnetloc],
    [_splitparams] and [urlparse] of CPython 3.11 statement by statement on
    character lists.  Two checks of [urlsplit] that can only raise
    [ValueError] (bracketed IPv6 hosts, NFKC-unsafe hosts) are not part of
    the model: it describes the calls that return. *)

Module UrlParse.
Import Chars.

Record ParseResult := mkParse {
  scheme : list ascii;
  netloc : list ascii;
  path : list ascii;
  params : list ascii;
  query : list ascii;
  fragment : list ascii
}.

(** [scheme_chars]: letters, digits and "+-." *)
Definition scheme_char (c : ascii) : bool :=
  is_alpha c || is_digit c || mem c ["+"; "-"; "."]%char.

(** [_WHATWG_C0_CONTROL_OR_SPACE]: code points 0x00-0x20. *)
Definition c0_or_space (c : ascii) : bool := code c <=? 32.

(** [_UNSAFE_URL_BYTES_TO_REMOVE = ['\t', '\r', '\n']] *)
Definition unsafe_byte (c : ascii) : bool :=
  let n := code c in (n =? 9) || (n =? 13) || (n =? 10).

Definition remove_unsafe (l : list ascii) : list ascii :=
  List.filter (fun c => negb (unsafe_byte c)) l.

(** [uses_params] *)
Definition uses_params : list string :=
  [""; "ftp"; "hdl"; "prospero"; "http"; "imap"; "https"; "shttp"; "rtsp";
   "rtspu"; "sip"; "sips"; "mms"; "sftp"; "tel"].

Definition in_uses_params (s : list ascii) : bool :=
  bool_decide (string_of_list_ascii s ∈ uses_params).

(** The scheme test of [urlsplit]: [i = url.find(':')], [i > 0], the first
    character a letter, every character of [url[:i]] a scheme character. *)
Definition split_scheme (url : list ascii) : list ascii * list ascii :=
  match find ":"%char url with
  | Some (S i') =>
      let i := S i' in
      if match url with c :: _ => is_alpha c | [] => false end
         && forallb scheme_char (take i url)
      then (lower (take i url), drop (S i) url)
      else ([], url)
  | _ => ([], url)
  end.

(** [_splitnetloc(url, start)] *)
Definition splitnetloc (url : list ascii) (start : nat)
  : list ascii * list ascii :=
  let delim :=
    fold_left
      (fun delim c =>
         match find_from c start url with
         | Some wdelim => Nat.min delim wdelim
         | None => delim
         end)
      ["/"; "?"; "#"]%char (length url) in
  (drop start (take delim url), drop delim url).

(** [url.split(c, 1)] guarded by [c in url]. *)
Definition split_once (c : ascii) (url : list ascii)
  : list ascii * list ascii :=
  match find c url with
  | Some i => (take i url, drop (S i) url)
  | None => (url, [])
  end.

Definition urlsplit (url0 : list ascii) : ParseResult :=
  let url := remove_unsafe (lstrip c0_or_space url0) in
  let '(scheme, url) := split_scheme url in
  let '(netloc, url) :=
    match url with
    | "/"%char :: "/"%char :: _ => splitnetloc url 2
    | _ => ([], url)
    end in
  let '(url, fragment) := split_once "#"%char url in
  let '(url, query) := split_once "?"%char url in
  mkParse scheme netloc url [] query fragment.

(** [_splitparams(url)], called when [';' in url]. *)
Definition splitparams (url : list ascii) : list ascii * list ascii :=
  let i :=
    if mem "/"%char url then
      match rfind "/"%char url with
      | Some r => find_from ";"%char r url
      | None => None
      end
    else find ";"%char url in
  match i with
  | Some i => (take i url, drop (S i) url)
  | None => (url, [])
  end.

Definition urlparse_chars (url : list ascii) : ParseResult :=
  let r := urlsplit url in
  if in_uses_params (scheme r) && mem ";"%char (path r) then
    let '(url, params) := splitparams (path r) in
    mkParse (scheme r) (netloc r) url params (query r) (fragment r)
  else r.

(** [scheme://netloc path] of a parsed URL, on character lists. *)
Definition normalize_chars (url : list ascii) : list ascii :=
  let r := urlparse_chars url in
  scheme r ++ [":"; "/"; "/"]%char ++ netloc r ++ path r.

(** Structural descriptions of the index computations above, used to
    reason about them: the longest prefix free of a character class with
    the rest of the list, and the path left by [_splitparams]. *)
Fixpoint span_until (p : ascii -> bool) (l : list ascii)
  : list ascii * list ascii :=
  match l with
  | [] => ([], [])
  | c :: l' =>
      if p c then ([], l)
      else let '(a, b) := span_until p l' in (c :: a, b)
  end.

Definition is_char (c x : ascii) : bool := eqc x c.

Definition is_delim (x : ascii) : bool :=
  is_char "/" x || is_char "?" x || is_char "#" x.

Definition good_scheme (a : list ascii) : bool :=
  match a with c :: _ => is_alpha c | [] => false end
  && forallb scheme_char a.

Definition scheme_split (url : list ascii) : list ascii * list ascii :=
  match snd (span_until (is_char ":") url) with
  | [] => ([], url)
  | _ :: b =>
      if good_scheme (fst (span_until (is_char ":") url))
      then (lower (fst (span_until (is_char ":") url)), b)
      else ([], url)
  end.

Definition authority_split (rest : list ascii) : list ascii * list ascii :=
  match rest with
  | "/"%char :: "/"%char :: r => span_until is_delim r
  | _ => ([], rest)
  end.

Definition path_of (rest : list ascii) : list ascii :=
  fst (span_until (is_char "?") (fst (span_until (is_char "#") rest))).

Fixpoint strip_params (l : list ascii) : list ascii :=
  match l with
  | [] => []
  | c :: l' =>
      if mem "/"%char l then c :: strip_params l'
      else fst (span_until (is_char ";") l)
  end.

(** Scheme, netloc and path of [urlparse_chars], structurally. *)
Definition parts (url0 : list ascii)
  : list ascii * list ascii * list ascii :=
  let url := remove_unsafe (lstrip c0_or_space url0) in
  let '(sch, rest) := scheme_split url in
  let '(net, rest) := authority_split rest in
  (sch, net,
   if in_uses_params sch then strip_params (path_of rest) else path_of rest).

(** The shape of the three parts of a parsed URL that has a scheme. *)
Definition canonical (s n p : list ascii) : Prop :=
  good_scheme s = true /\ lower s = s /\
  Forall (fun c => is_delim c = false) n /\
  Forall (fun c => is_char "?" c = false) p /\
  Forall (fun c => is_char "#" c = false) p /\
  Forall (fun c => unsafe_byte c = false) (n ++ p) /\
  (in_uses_params s = true -> strip_params p = p).

End UrlParse.

(** The fields of [urlparse(url)] the crawler reads. *)
Record parsed_url := {
  p_scheme : string;
  p_netloc : string;
  p_path : string
}.

(** [urlparse(url)] on strings. *)
Definition py_urlparse (url : string) : parsed_url :=
  let r := UrlParse.urlparse_chars (list_ascii_of_string url) in
  {| p_scheme := string_of_list_ascii (UrlParse.scheme r);
     p_netloc := string_of_list_ascii (UrlParse.netloc r);
     p_path := string_of_list_ascii (UrlParse.path r) |}.

(** ** crawler.py: WebCrawler *)

Module Crawler.

(** The crawler's mutable fields, the local counter [pages_crawled] of
    [crawl], and the log of [session.get] calls made so far (URL and whether
    the call produced a non-empty page). *)
Record crawler := mkCrawler {
  visited_urls : gset string;
  all_links : gset string;
  to_visit : list string;
  failed_urls : list string;
  pages_crawled : nat;
  requests : list (string * bool)
}.

Section World.

(** [urllib.parse.urlparse]; [py_urlparse] is the library's function. *)
Variable urlparse : string -> parsed_url.

(** [session.get(url, timeout=10)] followed by [raise_for_status()] and
    [.text], for the [n]-th request of the run: [None] when a
    [RequestException] is raised. *)
Variable http_get : nat -> string -> option string.

(** The [href] values of [soup.find_all('a', href=True)] for a page, in
    document order. *)
Variable anchors : string -> list string.

(** [urljoin(base_url, href)] *)
Variable urljoin : string -> string -> string.

(** Python iterates a [set] in an order fixed by hashing and insertion
    history.  [set_rank s] ranks the members of [s]; iteration follows the
    rank, so every order can be chosen. *)
Variable set_rank : gset string -> string -> nat.

Variable base_url : string.
Variable max_pages : nat.

(** [self.domain = urlparse(base_url).netloc] *)
Definition domain : string := p_netloc (urlparse base_url).

(** [normalize_url]:
    [f"{parsed.scheme}://{parsed.netloc}{parsed.path}"] *)
Definition normalize_url (url : string) : string :=
  let parsed := urlparse url in
  p_scheme parsed +:+ "://" +:+ p_netloc parsed +:+ p_path parsed.

(** [__init__] *)
Definition init : crawler :=
  mkCrawler ∅ ∅ [base_url] [] 0 [].

(** [is_valid_url] *)
Definition is_valid_url (url : string) : bool :=
  bool_decide (p_netloc (urlparse url) = domain).

(** [for x in s] over a Python set. *)
Definition rank_le (s : gset string) (x y : string) : Prop :=
  set_rank s x <= set_rank s y.

#[local] Instance rank_le_dec s x y : Decision (rank_le s x y).
Proof. unfold rank_le. apply _. Defined.

Definition set_iter (s : gset string) : list string :=
  merge_sort (rank_le s) (elements s).

(** [extract_links] *)
Definition extract_links (html_content base : string) : gset string :=
  fold_left
    (fun links href =>
       let full_url := urljoin base href in
       let normalized_url := normalize_url full_url in
       if is_valid_url normalized_url then {[normalized_url]} ∪ links
       else links)
    (anchors html_content) ∅.

(** [get_page_content]: the page, and whether the URL is appended to
    [failed_urls]. *)
Definition get_page_content (st : crawler) (url : string)
  : option string * crawler :=
  let r := http_get (length (requests st)) url in
  let ok := match r with Some (String _ _) => true | _ => false end in
  (r,
   mkCrawler (visited_urls st) (all_links st) (to_visit st)
     (match r with
      | None => failed_urls st ++ [url]
      | Some _ => failed_urls st
      end)
     (pages_crawled st)
     (requests st ++ [(url, ok)])).

(** The links one page appends to the queue:
    [for link in page_links: if link not in self.visited_urls: append]. *)
Definition enqueue_links (visited : gset string) (page_links : gset string)
    (queue : list string) : list string :=
  fold_left
    (fun q link => if decide (link ∈ visited) then q else q ++ [link])
    (set_iter page_links) queue.

(** One iteration of the [while] loop of [crawl]. *)
Definition crawl_body (st : crawler) : crawler :=
  match to_visit st with
  | [] => st
  | current_url :: rest =>
      let st := mkCrawler (visited_urls st) (all_links st) rest
                  (failed_urls st) (pages_crawled st) (requests st) in
      if decide (current_url ∈ visited_urls st) then st
      else
        let '(html_content, st) := get_page_content st current_url in
        match html_content with
        | None | Some EmptyString => st
        | Some html =>
            let visited := {[current_url]} ∪ visited_urls st in
            let page_links := extract_links html current_url in
            mkCrawler visited
              (all_links st ∪ page_links)
              (enqueue_links visited page_links (to_visit st))
              (failed_urls st)
              (S (pages_crawled st))
              (requests st)
        end
  end.

(** [while self.to_visit and pages_crawled < self.max_pages] *)
Definition loop_cond (st : crawler) : bool :=
  match to_visit st with [] => false | _ :: _ => true end
  && (pages_crawled st <? max_pages).

(** The [while] loop, with a bound on the number of iterations: [None] when
    the bound is reached before the loop condition fails. *)
Fixpoint crawl_loop (fuel : nat) (st : crawler) : option crawler :=
  if loop_cond st then
    match fuel with
    | 0 => None
    | S fuel' => crawl_loop fuel' (crawl_body st)
    end
  else Some st.

(** [crawl] *)
Definition crawl (fuel : nat) : option crawler := crawl_loop fuel init.

(** The states the loop passes through. *)
Inductive reachable : crawler -> Prop :=
  | reach_init : reachable init
  | reach_step st :
      reachable st -> loop_cond st = true -> reachable (crawl_body st).

(** The state after [k] iterations. *)
Definition after (k : nat) : crawler := Nat.iter k crawl_body init.

(** The cases of one loop iteration. *)
Inductive body_case (st : crawler) : crawler -> Prop :=
  | case_idle :
      to_visit st = [] -> body_case st st
  | case_skip u rest :
      to_visit st = u :: rest -> u ∈ visited_urls st ->
      body_case st
        (mkCrawler (visited_urls st) (all_links st) rest (failed_urls st)
           (pages_crawled st) (requests st))
  | case_error u rest :
      to_visit st = u :: rest -> u ∉ visited_urls st ->
      http_get (length (requests st)) u = None ->
      body_case st
        (mkCrawler (visited_urls st) (all_links st) rest
           (failed_urls st ++ [u]) (pages_crawled st)
           (requests st ++ [(u, false)]))
  | case_empty u rest :
      to_visit st = u :: rest -> u ∉ visited_urls st ->
      http_get (length (requests st)) u = Some "" ->
      body_case st
        (mkCrawler (visited_urls st) (all_links st) rest
           (failed_urls st) (pages_crawled st)
           (requests st ++ [(u, false)]))
  | case_page u rest html :
      to_visit st = u :: rest -> u ∉ visited_urls st ->
      http_get (length (requests st)) u = Some html -> html <> "" ->
      body_case st
        (mkCrawler ({[u]} ∪ visited_urls st)
           (all_links st ∪ extract_links html u)
           (enqueue_links ({[u]} ∪ visited_urls st)
              (extract_links html u) rest)
           (failed_urls st) (S (pages_crawled st))
           (requests st ++ [(u, true)])).

(** URLs of the requests that returned a page. *)
Definition fetched_ok (st : crawler) : list string :=
  (List.filter snd (requests st)).*1.

(** URLs of all requests. *)
Definition fetched (st : crawler) : list string := (requests st).*1.

(** Every URL in the queue, in [all_links] and in the request log belongs
    to the target domain. *)
Definition in_domain (st : crawler) : Prop :=
  (forall u, u ∈ to_visit st -> is_valid_url u = true) /\
  (forall u, u ∈ all_links st -> is_valid_url u = true) /\
  (forall u, u ∈ fetched st -> is_valid_url u = true).

(** [visited_urls] is exactly the set of URLs whose request returned a
    page, each of them requested successfully once, and [pages_crawled]
    counts them. *)
Definition visit_log (st : crawler) : Prop :=
  visited_urls st = list_to_set (fetched_ok st) /\
  NoDup (fetched_ok st) /\
  pages_crawled st = length (fetched_ok st).

End World.

(** A three-page site used in the examples: [/] links to [/b] and [/c],
    [/b] links to [/c] and [/c] links to [/b]; one page also carries a link
    to another host.  The page text stands for the HTML; [site_anchors]
    lists the [href] of its anchors.  All [href]s are absolute, for which
    [urljoin] returns the [href]. *)
Definition url_root : string := "https://example.org/".
Definition url_b : string := "https://example.org/b".
Definition url_c : string := "https://example.org/c".
Definition url_ext : string := "https://external.com/x".

Definition site : list (string * (string * list string)) :=
  [ (url_root, ("<root>", [url_b; url_c; url_ext]));
    (url_b, ("<b>", [url_c +:+ "?from=b#top"]));
    (url_c, ("<c>", [url_b])) ].

Definition site_get (dead : list string) (n : nat) (url : string)
  : option string :=
  if bool_decide (url ∈ dead) then None
  else fst <$> (list_to_map site : gmap string (string * list string)) !! url.

Definition site_anchors (html : string) : list string :=
  match List.find (fun p => String.eqb (fst (snd p)) html) site with
  | Some p => snd (snd p)
  | None => []
  end.

Definition urljoin_absolute (base href : string) : string := href.

Definition no_rank (s : gset string) (x : string) : nat := 0.

(** The crawl of the site with every page alive, and with [/c] dead. *)
Definition site_after (dead : list string) (k : nat) : crawler :=
  after py_urlparse (site_get dead) site_anchors urljoin_absolute no_rank url_root k.

End Crawler.

(** ** ai_searcher.py, app.py: SearchBot.search_by_keywords

    The two files hold the same method.  An indexed item is a JSON object
    read with [item.get(key, default)]: a missing key is [None].
    [fuzz.ratio], [fuzz.partial_ratio] (integers) and [str.lower] are the
    library's.  The score is a Python number built from [similarity * 2],
    [similarity], [similarity * 1.5] and [similarity * 1.2]; it is modelled
    by its exact rational value. *)

Module Search.

Record item := mkItem {
  url : option string;
  title : option string;
  description : option string;
  keywords : option (list string);
  main_topics : option (list string)
}.

(** [item_copy] with its two added keys. *)
Record result := mkResult {
  res_item : item;
  search_score : Q;
  matches : list string
}.

(** [item.get(key, default)] *)
Definition get {A} (field : option A) (dflt : A) : A :=
  match field with Some v => v | None => dflt end.

Section Fuzzy.

Variable ratio : string -> string -> Z.
Variable partial_ratio : string -> string -> Z.
Variable lower : string -> string.

(** The four blocks of the loop body, each on the running
    [(score, matches)]. *)
Definition scan_keywords (query_lower : string) (threshold : Z) (it : item)
    (acc : Q * list string) : Q * list string :=
  fold_left
    (fun '(score, matches) keyword =>
       let similarity := ratio query_lower (lower keyword) in
       if (similarity >? threshold)%Z
       then ((score + inject_Z similarity * 2)%Q,
             matches ++ ["keyword: " +:+ keyword])
       else (score, matches))
    (get (keywords it) []) acc.

Definition scan_description (query_lower : string) (threshold : Z) (it : item)
    (acc : Q * list string) : Q * list string :=
  let '(score, matches) := acc in
  let description := get (description it) "" in
  match description with
  | EmptyString => (score, matches)
  | _ =>
      let similarity := partial_ratio query_lower (lower description) in
      if (similarity >? threshold)%Z
      then ((score + inject_Z similarity)%Q,
            matches ++ ["description: " +:+ String.substring 0 100 description
                          +:+ "..."])
      else (score, matches)
  end.

Definition scan_title (query_lower : string) (threshold : Z) (it : item)
    (acc : Q * list string) : Q * list string :=
  let '(score, matches) := acc in
  let title := get (title it) "" in
  match title with
  | EmptyString => (score, matches)
  | _ =>
      let similarity := partial_ratio query_lower (lower title) in
      if (similarity >? threshold)%Z
      then ((score + inject_Z similarity * (3 # 2))%Q,
            matches ++ ["title: " +:+ title])
      else (score, matches)
  end.

Definition scan_topics (query_lower : string) (threshold : Z) (it : item)
    (acc : Q * list string) : Q * list string :=
  fold_left
    (fun '(score, matches) topic =>
       let similarity := ratio query_lower (lower topic) in
       if (similarity >? threshold)%Z
       then ((score + inject_Z similarity * (6 # 5))%Q,
             matches ++ ["topic: " +:+ topic])
       else (score, matches))
    (get (main_topics it) []) acc.

(** The body of [for item in self.indexed_data] up to [if score > 0]. *)
Definition score_item (query_lower : string) (threshold : Z) (it : item)
  : Q * list string :=
  scan_topics query_lower threshold it
    (scan_title query_lower threshold it
       (scan_description query_lower threshold it
          (scan_keywords query_lower threshold it (0%Q, [])))).

(** The loop: [results.append(item_copy)] when [score > 0]. *)
Definition collect (query_lower : string) (threshold : Z) (data : list item)
  : list result :=
  fold_left
    (fun results it =>
       let '(score, matches) := score_item query_lower threshold it in
       if Qlt_le_dec 0 score then results ++ [mkResult it score matches]
       else results)
    data [].

(** [results.sort(key=lambda x: x['search_score'], reverse=True)]: Python's
    sort is stable, also with [reverse=True]; the result is the one of this
    insertion sort, which keeps equal scores in their original order. *)
Fixpoint insert_desc (x : result) (l : list result) : list result :=
  match l with
  | [] => [x]
  | y :: l' =>
      if Qlt_le_dec (search_score x) (search_score y)
      then y :: insert_desc x l'
      else x :: y :: l'
  end.

Definition sort_desc (l : list result) : list result :=
  foldr insert_desc [] l.

Definition search_by_keywords (data : list item) (query : string)
    (threshold : Z) : list result :=
  let query_lower := lower query in
  sort_desc (collect query_lower threshold data).

(** The scoring rule in the specification's words: a field contributes its
    similarity times its weight when the similarity exceeds the threshold;
    keywords weigh 2, the description 1, the title 1.5, topics 1.2. *)
Definition contribution (weight : Q) (threshold similarity : Z) : Q :=
  if (similarity >? threshold)%Z then (weight * inject_Z similarity)%Q
  else 0%Q.

Definition sumQ (l : list Q) : Q := foldr Qplus 0%Q l.

Definition text_contribution (weight : Q) (query_lower : string)
    (threshold : Z) (text : string) : Q :=
  match text with
  | EmptyString => 0%Q
  | _ => contribution weight threshold (partial_ratio query_lower (lower text))
  end.

Definition weighted_score (query : string) (threshold : Z) (it : item) : Q :=
  let q := lower query in
  (sumQ (map (fun k => contribution 2 threshold (ratio q (lower k)))
           (get (keywords it) []))
   + text_contribution 1 q threshold (get (description it) "")
   + text_contribution (3 # 2) q threshold (get (title it) "")
   + sumQ (map (fun t => contribution (6 # 5) threshold (ratio q (lower t)))
             (get (main_topics it) [])))%Q.

(** Descending order of the score. *)
Definition score_ge (a b : result) : Prop :=
  (search_score b <= search_score a)%Q.

End Fuzzy.

(** A small index and stand-ins for the fuzzy matcher, for the examples:
    similarity 100 for equal strings, 0 otherwise. *)
Definition exact_ratio (a b : string) : Z :=
  if String.eqb a b then 100%Z else 0%Z.

Definition demo_index : list item :=
  [ mkItem (Some "https://example.org/a") (Some "rocq") None
      (Some ["proofs"]) None;
    mkItem (Some "https://example.org/b") None (Some "rocq")
      (Some ["rocq"; "types"]) (Some ["rocq"]);
    mkItem (Some "https://example.org/c") (Some "lean") None None None ].

End Search.

(** ** Strings *)

Module Str.

(** [bool(s)] for a string. *)
Definition nonempty (s : string) : bool :=
  match s with EmptyString => false | String _ _ => true end.

(** [s.startswith(p)] *)
Definition starts_with (p s : string) : bool := String.prefix p s.

(** [needle in hay] *)
Fixpoint contains (needle hay : string) : bool :=
  String.prefix needle hay
  || match hay with
     | EmptyString => false
     | String _ hay' => contains needle hay'
     end.

(** [s[:n]] *)
Definition first_chars (n : nat) (s : string) : string := String.substring 0 n s.

(** [sep.join(l)] *)
Fixpoint join (sep : string) (l : list string) : string :=
  match l with
  | [] => ""
  | [x] => x
  | x :: l' => x +:+ sep +:+ join sep l'
  end.

(** [s.split()]: the maximal runs of non-whitespace characters. *)
Fixpoint split_chars (cur : list ascii) (l : list ascii) : list string :=
  match l with
  | [] =>
      match cur with [] => [] | _ => [string_of_list_ascii (rev cur)] end
  | c :: l' =>
      if Chars.is_space c then
        match cur with
        | [] => split_chars [] l'
        | _ => string_of_list_ascii (rev cur) :: split_chars [] l'
        end
      else split_chars (c :: cur) l'
  end.

Definition split (s : string) : list string :=
  split_chars [] (list_ascii_of_string s).

(** [s.replace(old, new)] for a non-empty [old]: [skip] characters of a
    match are still to be dropped. *)
Fixpoint replace_from (old new : string) (skip : nat) (s : string) : string :=
  match s with
  | EmptyString => EmptyString
  | String c s' =>
      match skip with
      | S k => replace_from old new k s'
      | 0 =>
          if String.prefix old s
          then new +:+ replace_from old new (String.length old - 1) s'
          else String c (replace_from old new 0 s')
      end
  end.

Definition replace (old new s : string) : string := replace_from old new 0 s.

End Str.

(** ** Parsed HTML

    [BeautifulSoup(html, 'html.parser')] is the library's; the model starts
    from the tree it returns: text nodes and elements with a tag name, their
    attributes and their children.  The soup itself is the list of top-level
    nodes. *)

Module Html.

Inductive node :=
  | Text (s : string)
  | Elem (tag : string) (attrs : list (string * string)) (children : list node).

(** Induction on a node with the property for all its children. *)
Fixpoint node_children_ind (P : node -> Prop)
    (HT : forall s, P (Text s))
    (HE : forall t a cs, Forall P cs -> P (Elem t a cs))
    (n : node) : P n :=
  match n with
  | Text s => HT s
  | Elem t a cs =>
      HE t a cs
        ((fix all (l : list node) : Forall P l :=
            match l with
            | [] => List.Forall_nil P
            | c :: l' =>
                List.Forall_cons P c l' (node_children_ind P HT HE c) (all l')
            end) cs)
  end.

Definition tag_of (n : node) : option string :=
  match n with Text _ => None | Elem t _ _ => Some t end.

(** [tag.get(key)] *)
Definition get_attr (key : string) (n : node) : option string :=
  match n with
  | Text _ => None
  | Elem _ attrs _ => snd <$> List.find (fun kv => String.eqb (fst kv) key) attrs
  end.

(** An element followed by the elements below it, in document order. *)
Fixpoint elems (n : node) : list node :=
  match n with
  | Text _ => []
  | Elem _ _ cs => n :: flat_map elems cs
  end.

(** The elements strictly below a node, and all elements of a soup. *)
Definition descendants (n : node) : list node :=
  match n with
  | Text _ => []
  | Elem _ _ cs => flat_map elems cs
  end.

Definition all_elems (soup : list node) : list node := flat_map elems soup.

(** [for t in soup(names): t.decompose()]: every element whose tag is one
    of [names] is removed with all it contains. *)
Fixpoint prune (names : list string) (n : node) : list node :=
  match n with
  | Text s => [Text s]
  | Elem t a cs =>
      if bool_decide (t ∈ names) then []
      else [Elem t a (flat_map (prune names) cs)]
  end.

Definition decompose_all (names : list string) (soup : list node)
  : list node :=
  flat_map (prune names) soup.

(** The text nodes below a node, in document order. *)
Fixpoint strings (n : node) : list string :=
  match n with
  | Text s => [s]
  | Elem _ _ cs => flat_map strings cs
  end.

(** [tag.get_text()] *)
Definition get_text (n : node) : string := Str.join "" (strings n).

(** [tag.get_text(separator=' ', strip=True)] *)
Definition get_text_stripped (n : node) : string :=
  Str.join " " (List.filter Str.nonempty (map strip (strings n))).

(** The CSS selectors the extractors use. *)
Inductive selector :=
  | ByTag (t : string)
  | ByClass (c : string)
  | ById (i : string)
  | ByAttr (k v : string).

Definition matches (sel : selector) (n : node) : bool :=
  match n with
  | Text _ => false
  | Elem t _ _ =>
      match sel with
      | ByTag x => String.eqb t x
      | ByClass c =>
          match get_attr "class" n with
          | Some v => bool_decide (c ∈ Str.split v)
          | None => false
          end
      | ById i => bool_decide (get_attr "id" n = Some i)
      | ByAttr k v => bool_decide (get_attr k n = Some v)
      end
  end.

(** [soup.select_one(selector)] *)
Definition select_one (sel : selector) (soup : list node) : option node :=
  List.find (matches sel) (all_elems soup).

(** [soup.find(name)] *)
Definition find_tag (name : string) (soup : list node) : option node :=
  select_one (ByTag name) soup.

(** [for selector in selectors: e = soup.select_one(selector); if e: break] *)
Fixpoint first_selected (sels : list selector) (soup : list node)
  : option node :=
  match sels with
  | [] => None
  | sel :: rest =>
      match select_one sel soup with
      | Some e => Some e
      | None => first_selected rest soup
      end
  end.

(** [tag.find_all('a', href=True)] *)
Definition is_anchor (n : node) : bool :=
  match tag_of n, get_attr "href" n with
  | Some t, Some _ => String.eqb t "a"
  | _, _ => false
  end.

Definition find_all_anchors (n : node) : list node :=
  List.filter is_anchor (descendants n).

End Html.

(** ** indexer.py: WebIndexerBot.extract_clean_content *)

Module Extractor.
Import Html.

(** The dict the extractor returns. *)
Record content_data := mkContent {
  c_url : string;
  c_title : string;
  markdown_content : string;
  internal_links : list (string * string);
  extraction_time : string;
  success : bool
}.

Definition removed_tags : list string :=
  ["script"; "style"; "nav"; "header"; "footer"; "aside"; "noscript"].

Definition content_selectors : list selector :=
  [ByTag "main"; ByTag "article"; ByClass "content"; ById "content";
   ByClass "main-content"; ByClass "post-content"].

Section World.

(** [aiohttp]'s [session.get]: status and body, [None] when it raises. *)
Variable http : string -> option (nat * string).
(** [BeautifulSoup(html_content, 'html.parser')] *)
Variable parse_html : string -> list node.
(** [md(str(main_content))] of markdownify. *)
Variable md : node -> string.
(** [re.sub(r'\n\s*\n', '\n\n', s)] and [re.sub(r'\s+', ' ', s)]. *)
Variable squeeze_blank_lines : string -> string.
Variable squeeze_spaces : string -> string.
Variable urlparse : string -> parsed_url.
Variable urljoin : string -> string -> string.
(** [datetime.now().isoformat()] *)
Variable now : string.

(** The main-content region: the first selector that matches, else the
    body. *)
Definition main_region (soup : list node) : option node :=
  match first_selected content_selectors soup with
  | Some e => Some e
  | None => find_tag "body" soup
  end.

(** The body of the loop over the anchors of the region. *)
Definition anchor_link (url base_domain : string) (link : node)
  : option (string * string) :=
  match get_attr "href" link with
  | None => None
  | Some href =>
      let text := strip (get_text link) in
      if Str.nonempty href && Str.nonempty text then
        let href :=
          if Str.starts_with "/" href then urljoin url href else href in
        if Str.contains base_domain href || Str.starts_with "/" href
        then Some (href, text)
        else None
      else None
  end.

(** From the parsed page to the returned dict; [None] when there is no
    content region. *)
Definition extract_from_soup (url : string) (soup0 : list node)
  : option content_data :=
  let soup := decompose_all removed_tags soup0 in
  let title_text :=
    match find_tag "title" soup with
    | Some title => strip (get_text title)
    | None => ""
    end in
  match main_region soup with
  | None => None
  | Some main_content =>
      let markdown := squeeze_spaces (squeeze_blank_lines (md main_content)) in
      let base_domain := p_netloc (urlparse url) in
      let links :=
        omap (anchor_link url base_domain) (find_all_anchors main_content) in
      Some (mkContent url title_text
              (if Str.nonempty markdown then Str.first_chars 8000 markdown
               else "")
              (take 20 links) now true)
  end.

Definition extract_clean_content (url : string) : option content_data :=
  match http url with
  | Some (200, html_content) => extract_from_soup url (parse_html html_content)
  | _ => None
  end.

End World.

End Extractor.

(** ** indexer_crawler.py: AIWebsiteIndexer.extract_webpage_content *)

Module SeqExtractor.
Import Html.

Record page_content := mkPage {
  pc_title : string;
  pc_description : string;
  main_content : string;
  links : list (string * string)
}.

(** The names passed to [soup([...])]; they are matched as tag names. *)
Definition removed_tags : list string :=
  ["script"; "style"; "nav"; "footer"; "header"; "aside"; ".navigation";
   ".nav"; ".menu"; ".sidebar"; ".breadcrumb"].

Definition content_selectors : list selector :=
  [ByTag "main"; ByTag "article"; ByAttr "role" "main"; ByClass "content";
   ById "content"; ByClass "main-content"].

Section World.

(** [session.get] with [raise_for_status]: the body, [None] when it
    raises. *)
Variable session_get : string -> option string.
Variable parse_html : string -> list node.
(** [re.sub(r'\s+', ' ', s)] *)
Variable squeeze_spaces : string -> string.
Variable urljoin : string -> string -> string.

Definition main_region (soup : list node) : option node :=
  first_selected content_selectors soup.

Definition anchor_link (url : string) (link : node)
  : option (string * string) :=
  match get_attr "href" link with
  | None => None
  | Some href =>
      if Str.nonempty href then
        let absolute_url := urljoin url href in
        let link_text := strip (get_text link) in
        if Str.nonempty link_text then Some (absolute_url, link_text)
        else None
      else None
  end.

(** The anchors are searched in the whole soup. *)
Definition soup_anchors (soup : list node) : list node :=
  List.filter is_anchor (all_elems soup).

Definition extract_from_soup (url : string) (soup0 : list node)
  : page_content :=
  let soup := decompose_all removed_tags soup0 in
  let title_text :=
    match find_tag "title" soup with
    | Some title => strip (get_text title)
    | None => ""
    end in
  let description :=
    match List.find
            (fun e => matches (ByTag "meta") e
                      && bool_decide (get_attr "name" e = Some "description"))
            (all_elems soup) with
    | Some meta_desc =>
        strip (match get_attr "content" meta_desc with
               | Some c => c
               | None => ""
               end)
    | None => ""
    end in
  let main_content :=
    match main_region soup with
    | Some content_element => get_text_stripped content_element
    | None => ""
    end in
  let main_content :=
    if Str.nonempty main_content then main_content
    else match find_tag "body" soup with
         | Some body => get_text_stripped body
         | None => main_content
         end in
  let main_content := strip (squeeze_spaces main_content) in
  let main_content := Str.first_chars 4000 main_content in
  let links := omap (anchor_link url) (soup_anchors soup) in
  mkPage title_text description main_content (take 20 links).

(** The dict returned when anything raises. *)
Definition empty_page : page_content := mkPage "" "" "" [].

Definition extract_webpage_content (url : string) : page_content :=
  match session_get url with
  | Some content => extract_from_soup url (parse_html content)
  | None => empty_page
  end.

End World.

(** A page whose only link stands outside its [main] element. *)
Definition page_with_outside_link : list node :=
  [Elem "html" []
     [Elem "body" []
        [Elem "main" [] [Text "The main text of the page."];
         Elem "div" [("class", "related")]
           [Elem "a" [("href", "https://example.org/other")]
              [Text "Other page"]]]]].

End SeqExtractor.

(** ** indexer.py: the analyzer call and the coordinator *)

Module Indexer.
Import Html.

(** JSON values; a JSON object read by the program is a dict, modelled as
    a finite map from keys to values. *)
Inductive json :=
  | JNull
  | JBool (b : bool)
  | JNum (q : Q)
  | JStr (s : string)
  | JArr (l : list json)
  | JObj (fields : list (string * json)).

(** A JSON file on disk: a list of objects, or something [json.load]
    rejects. *)
Inductive file :=
  | JsonList (l : list (gmap string json))
  | Unreadable.

(** A cell of the URL column after [dropna().tolist()]. *)
Inductive cell :=
  | CStr (s : string)
  | COther.

(** What awaiting [process_url] gives: [None], a raised [KeyError], or the
    result dict. *)
Inductive outcome :=
  | Skipped
  | Raised (key : string)
  | Indexed (result : gmap string json).

(** Lookups that raise [KeyError]. *)
Inductive keyed (A : Type) :=
  | Found (a : A)
  | KeyError (key : string).
Arguments Found {A} a.
Arguments KeyError {A} key.

Definition bind {A B} (m : keyed A) (f : A -> keyed B) : keyed B :=
  match m with
  | Found a => f a
  | KeyError k => KeyError k
  end.

Notation "'let*' x ':=' m 'in' f" := (bind m (fun x => f))
  (at level 10, x name, m at level 100, f at level 200).

(** [d[key]] *)
Definition item (d : gmap string json) (key : string) : keyed json :=
  match d !! key with
  | Some v => Found v
  | None => KeyError key
  end.

(** The two dicts [analyze_with_groq] returns when it has no analysis. *)
Definition no_json_analysis : gmap string json :=
  list_to_map
    [ ("keywords", JArr []);
      ("description", JStr "Contenuto non analizzabile");
      ("relevance_score", JNum (1 # 10));
      ("content_type", JStr "other");
      ("main_topics", JArr []);
      ("language", JStr "unknown");
      ("sentiment", JStr "neutral");
      ("target_audience", JStr "general");
      ("content_quality", JStr "low") ].

Definition error_analysis : gmap string json :=
  list_to_map
    [ ("keywords", JArr []);
      ("description", JStr "Errore nell'analisi");
      ("relevance_score", JNum 0);
      ("content_type", JStr "other");
      ("main_topics", JArr []);
      ("language", JStr "unknown");
      ("sentiment", JStr "neutral");
      ("target_audience", JStr "general");
      ("content_quality", JStr "low") ].

(** [re.search(r'\{.*\}', text, re.DOTALL)]: from the first opening brace
    to the last closing brace, when the latter comes after the former. *)
Definition json_match (text : string) : option string :=
  let l := list_ascii_of_string text in
  match Chars.find "{" l, Chars.rfind "}" l with
  | Some i, Some j =>
      if i <? j then Some (string_of_list_ascii (drop i (take (S j) l)))
      else None
  | _, _ => None
  end.

(** The bot's fields the coordinator uses. *)
Record bot := mkBot {
  max_links : nat;
  results : list (gmap string json);
  indexed_urls : gset string
}.

(** The local state of the batch loop of [process_csv_file], with the
    file system. *)
Record progress := mkProgress {
  new_results : list (gmap string json);
  all_results : list (gmap string json);
  indexed : gset string;
  disk : gmap string file
}.

(** What a call of [process_csv_file] leaves: the returned list, the bot,
    the files, and its locals [remaining_urls] (the URLs only) and
    [new_results]. *)
Record run := mkRun {
  returned : list (gmap string json);
  bot_after : bot;
  disk_after : gmap string file;
  scheduled : list string;
  created : list (gmap string json)
}.

Section World.

(** [extract_clean_content], as in [Extractor]. *)
Variable extract_clean_content : string -> option Extractor.content_data.
(** [groq_client.chat.completions.create(...)] for the prompt built from
    URL, title and text: the message content, [None] when the call raises. *)
Variable chat : string -> string -> string -> option string.
(** [json.loads]: [None] for a [JSONDecodeError]. *)
Variable json_loads : string -> option (gmap string json).
(** [datetime.now().isoformat()] *)
Variable now : string.

(** [analyze_with_groq] *)
Definition analyze_with_groq (content : Extractor.content_data)
  : gmap string json :=
  match chat (Extractor.c_url content) (Extractor.c_title content)
          (Extractor.markdown_content content) with
  | None => error_analysis
  | Some response =>
      let response_text := strip response in
      match json_match response_text with
      | Some json_str =>
          match json_loads json_str with
          | Some analysis => analysis
          | None => error_analysis
          end
      | None => no_json_analysis
      end
  end.

(** The analyzer has no analysis: the call raised, the reply holds no
    [{...}], or [json.loads] rejected it. *)
Definition analyzer_failed (content : Extractor.content_data) : Prop :=
  match chat (Extractor.c_url content) (Extractor.c_title content)
          (Extractor.markdown_content content) with
  | None => True
  | Some response =>
      match json_match (strip response) with
      | None => True
      | Some json_str => json_loads json_str = None
      end
  end.

Definition link_json (l : string * string) : json :=
  JObj [("url", JStr (fst l)); ("text", JStr (snd l))].

(** The dict built by [process_url]; reading a key the analysis lacks
    raises. *)
Definition build_result (url : string) (content : Extractor.content_data)
    (analysis : gmap string json) : keyed (gmap string json) :=
  let* keywords := item analysis "keywords" in
  let* description := item analysis "description" in
  let* relevance_score := item analysis "relevance_score" in
  let* content_type := item analysis "content_type" in
  let* main_topics := item analysis "main_topics" in
  let* language := item analysis "language" in
  let* sentiment := item analysis "sentiment" in
  let* target_audience := item analysis "target_audience" in
  let* content_quality := item analysis "content_quality" in
  Found (list_to_map
    [ ("url", JStr url);
      ("title", JStr (Extractor.c_title content));
      ("keywords", keywords);
      ("description", description);
      ("relevance_score", relevance_score);
      ("content_type", content_type);
      ("main_topics", main_topics);
      ("language", language);
      ("sentiment", sentiment);
      ("target_audience", target_audience);
      ("content_quality", content_quality);
      ("internal_links", JArr (map link_json (Extractor.internal_links content)));
      ("indexed_at", JStr now);
      ("word_count",
       JNum (inject_Z (Z.of_nat
          (length (Str.split (Extractor.markdown_content content)))))) ]).

(** [process_url] *)
Definition process_url (url : string) : outcome :=
  match extract_clean_content url with
  | None => Skipped
  | Some content_data =>
      match build_result url content_data (analyze_with_groq content_data) with
      | Found result => Indexed result
      | KeyError key => Raised key
      end
  end.

(** The loop of [load_existing_results] over the loaded list: [false] when
    [result['url'].strip()] raises; the URLs added before stay. *)
Fixpoint add_indexed (existing : list (gmap string json))
    (urls : gset string) : gset string * bool :=
  match existing with
  | [] => (urls, true)
  | result :: rest =>
      match result !! "url" with
      | None => add_indexed rest urls
      | Some (JStr u) => add_indexed rest ({[strip u]} ∪ urls)
      | Some _ => (urls, false)
      end
  end.

(** [load_existing_results]: the returned list and the new
    [indexed_urls]. *)
Definition load_existing_results (fs : gmap string file)
    (output_file : string) (urls : gset string)
  : list (gmap string json) * gset string :=
  match fs !! output_file with
  | Some (JsonList existing_results) =>
      match add_indexed existing_results urls with
      | (urls', true) => (existing_results, urls')
      | (urls', false) => ([], urls')
      end
  | _ => ([], urls)
  end.

(** [find_last_indexed_position]: the loop over [enumerate(urls)]. *)
Definition find_last_indexed_position (csv : option (list cell))
    (urls : gset string) : Z :=
  match csv with
  | None => (-1)%Z
  | Some cells =>
      fst (fold_left
             (fun '(last_index, i) c =>
                match c with
                | CStr u =>
                    if decide (strip u ∈ urls) then (Z.of_nat i, S i)
                    else (last_index, S i)
                | COther => (last_index, S i)
                end)
             cells ((-1)%Z, 0))
  end.

(** [remaining_urls]: the cells from [start_index] on that are non-empty
    strings not yet indexed, with their position. *)
Fixpoint remaining_from (i : nat) (cells : list cell) (urls : gset string)
  : list (nat * string) :=
  match cells with
  | [] => []
  | c :: rest =>
      match c with
      | CStr u =>
          if Str.nonempty u && bool_decide (strip u ∉ urls)
          then (i, strip u) :: remaining_from (S i) rest urls
          else remaining_from (S i) rest urls
      | COther => remaining_from (S i) rest urls
      end
  end.

(** [start_index = last_index + 1] *)
Definition start_index (cells : list cell) (urls : gset string) : nat :=
  Z.to_nat (find_last_indexed_position (Some cells) urls + 1).

Definition remaining_urls (cells : list cell) (urls : gset string)
    (limit : nat) : list (nat * string) :=
  let remaining :=
    remaining_from (start_index cells urls)
      (drop (start_index cells urls) cells) urls in
  if limit <? length remaining then take limit remaining else remaining.

(** [output_file.replace('.json', '_checkpoint.json')] *)
Definition checkpoint_file (output_file : string) : string :=
  Str.replace ".json" "_checkpoint.json" output_file.

(** The handling of one gathered result. *)
Definition absorb (st : progress) (result : outcome) : progress :=
  match result with
  | Indexed d =>
      mkProgress (new_results st ++ [d]) (all_results st ++ [d])
        (match d !! "url" with
         | Some (JStr u) => {[u]} ∪ indexed st
         | _ => indexed st
         end)
        (disk st)
  | Raised _ | Skipped => st
  end.

(** [save_progress_checkpoint], called when [new_results] is not empty. *)
Definition save_progress_checkpoint (output_file : string) (st : progress)
  : progress :=
  match new_results st with
  | [] => st
  | _ :: _ =>
      mkProgress (new_results st) (all_results st) (indexed st)
        (<[checkpoint_file output_file := JsonList (all_results st)]> (disk st))
  end.

(** One batch: gather the tasks, absorb their results, checkpoint. *)
Definition run_batch (output_file : string) (st : progress)
    (batch : list string) : progress :=
  save_progress_checkpoint output_file
    (fold_left absorb (map process_url batch) st).

(** [tasks[i:i + batch_size] for i in range(0, len(tasks), batch_size)] *)
Fixpoint batches_of (fuel batch_size : nat) (tasks : list string)
  : list (list string) :=
  match fuel, tasks with
  | S fuel', _ :: _ =>
      take batch_size tasks :: batches_of fuel' batch_size (drop batch_size tasks)
  | _, _ => []
  end.

Definition batches (tasks : list string) : list (list string) :=
  batches_of (length tasks) (Nat.min 10 (length tasks)) tasks.

(** [process_csv_file], stopped after at most [upto] batches when [upto]
    is given (the process is killed during the next batch). *)
Definition process_csv_file_upto (upto : option nat) (b : bot)
    (fs : gmap string file) (csv : option (list cell)) (output_file : string)
  : run :=
  let '(existing_results, urls) :=
    load_existing_results fs output_file (indexed_urls b) in
  let b1 := mkBot (max_links b) (results b) urls in
  match csv with
  | None => mkRun existing_results b1 fs [] []
  | Some cells =>
      match remaining_urls cells urls (max_links b) with
      | [] => mkRun existing_results b1 fs [] []
      | remaining =>
          let tasks := remaining.*2 in
          let todo :=
            match upto with
            | Some k => take k (batches tasks)
            | None => batches tasks
            end in
          let st :=
            fold_left (run_batch output_file) todo
              (mkProgress [] existing_results urls fs) in
          mkRun (all_results st)
            (mkBot (max_links b) (all_results st) (indexed st))
            (disk st) tasks (new_results st)
      end
  end.

Definition process_csv_file := process_csv_file_upto None.

(** [save_to_json] *)
Definition save_to_json (b : bot) (fs : gmap string file)
    (output_file : string) : gmap string file :=
  let fs := <[output_file := JsonList (results b)]> fs in
  match fs !! checkpoint_file output_file with
  | Some _ => delete (checkpoint_file output_file) fs
  | None => fs
  end.

(** One invocation of the program, as [main] does it: a fresh bot,
    [process_csv_file], then [save_to_json]. *)
Definition session (limit : nat) (fs : gmap string file)
    (csv : option (list cell)) (output_file : string) : run :=
  let r := process_csv_file (mkBot limit [] ∅) fs csv output_file in
  mkRun (returned r) (bot_after r)
    (save_to_json (bot_after r) (disk_after r) output_file)
    (scheduled r) (created r).

(** The same invocation killed while its batch number [k + 1] runs: the
    files are those left by the first [k] batches. *)
Definition killed_session (k limit : nat) (fs : gmap string file)
    (csv : option (list cell)) (output_file : string) : gmap string file :=
  disk_after
    (process_csv_file_upto (Some k) (mkBot limit [] ∅) fs csv output_file).

(** The URLs of a list of records. *)
Definition record_urls (l : list (gmap string json)) : list string :=
  omap (fun d => match d !! "url" with Some (JStr u) => Some u | _ => None end) l.

(** The stripped string cells of the URL column. *)
Definition csv_urls (cells : list cell) : list string :=
  omap (fun c => match c with CStr u => Some (strip u) | COther => None end) cells.

Definition column_urls (csv : option (list cell)) : list string :=
  match csv with Some cells => csv_urls cells | None => [] end.

(** The records [process_url] returns for a list of URLs. *)
Definition created_of (urls : list string) : list (gmap string json) :=
  omap (fun u => match process_url u with Indexed d => Some d | _ => None end)
    urls.

(** Every record has no [url] or a string there: the loop of
    [load_existing_results] does not raise. *)
Definition urls_readable (l : list (gmap string json)) : Prop :=
  Forall (fun d => match d !! "url" with
                   | Some (JStr _) | None => True
                   | Some _ => False
                   end) l.

(** The URLs a fresh bot holds after [load_existing_results]. *)
Definition loaded_urls (fs : gmap string file) (output_file : string)
  : gset string :=
  snd (load_existing_results fs output_file ∅).

End World.

(** Worlds for the examples.  Every page is a body with one paragraph;
    pages listed in [dead] cannot be fetched.  The analyzer either raises,
    or answers with the given text. *)
Definition demo_extract (dead : list string) (url : string)
  : option Extractor.content_data :=
  Extractor.extract_clean_content
    (fun u => if bool_decide (u ∈ dead) then None else Some (200, "<html>"))
    (fun _ => [Elem "html" [] [Elem "body" [] [Elem "p" [] [Text "Some text."]]]])
    get_text (fun s => s) (fun s => s) py_urlparse
    Crawler.urljoin_absolute "2025-01-01T00:00:00" url.

(** [json.loads] on the texts the examples use: the empty object. *)
Definition demo_json_loads (s : string) : option (gmap string json) :=
  if String.eqb s "{}" then Some ∅ else None.

Definition demo_csv : list cell :=
  map (fun i => CStr ("https://example.org/p" +:+ i))
    ["00"; "01"; "02"; "03"; "04"; "05"; "06"; "07"; "08"; "09"; "10"].

End Indexer.

(** ** crawler.py: WebCrawler.save_results

    [csv.writer] is the library's: the model gives the rows handed to
    [writer.writerow], in order. *)

Module CrawlerOutput.
Import Crawler.

(** [a <= b] on Python strings: the order of the code points, the shorter
    string first when it is a prefix. *)
Definition str_le (a b : string) : Prop := String.leb a b = true.

#[global] Instance str_le_dec a b : Decision (str_le a b).
Proof. unfold str_le. apply _. Defined.

(** [sorted(s)] for a set of strings. *)
Definition sorted (s : gset string) : list string :=
  merge_sort str_le (elements s).

(** [save_results] *)
Definition save_results (st : crawler) : list (list string) :=
  ["URL"; "Status"]
  :: map (fun url =>
            let status :=
              if bool_decide (url ∈ visited_urls st) then "Visited"
              else "Discovered" in
            [url; status])
       (sorted (all_links st)).

(** The first column of the data rows. *)
Definition row_urls (rows : list (list string)) : list string :=
  omap head (tail rows).

(** Every URL in the queue, in the request log and in [visited_urls] is the
    seed or a member of [all_links]; visited and failed URLs have been
    requested. *)
Definition discovered (base_url : string) (st : crawler) : Prop :=
  (forall u, u ∈ to_visit st -> u = base_url \/ u ∈ all_links st) /\
  (forall u, u ∈ fetched st -> u = base_url \/ u ∈ all_links st) /\
  (forall u, u ∈ visited_urls st -> u ∈ fetched st) /\
  (forall u, u ∈ failed_urls st -> u ∈ fetched st).

End CrawlerOutput.

(** ** indexer_crawler.py: AIWebsiteIndexer, from the CSV to the output file

    The CSV file is the list of rows [csv.reader] yields from it (none when
    the file cannot be opened: the method logs the error and goes on with
    what it has).  A result is a Python dict, a finite map from keys to JSON
    values. *)

Module SeqIndexer.
Import Indexer SeqExtractor.

Definition skip_patterns : list string :=
  ["/cdn-cgi/"; "/email-protection"; "javascript:"; "mailto:"; "tel:"; "#";
   "void(0)"].

(** [url.lower()].  Only ASCII letters are mapped: the patterns searched
    in the result are ASCII, and no other letter lowers to one of their
    characters in a place where it could complete a match. *)
Definition lower (s : string) : string :=
  string_of_list_ascii (Chars.lower (list_ascii_of_string s)).

(** [is_valid_url] *)
Definition is_valid_url (url : string) : bool :=
  if existsb (fun pattern => Str.contains pattern (lower url)) skip_patterns
  then false
  else Str.starts_with "http://" url || Str.starts_with "https://" url.

(** [load_urls_from_csv]: the loop over the rows. *)
Definition load_urls_from_csv (rows : list (list string)) : list string :=
  fold_left
    (fun urls row =>
       match row with
       | cell :: _ =>
           if Str.nonempty (strip cell) then
             let url := strip cell in
             if is_valid_url url then urls ++ [url] else urls
           else urls
       | [] => urls
       end)
    rows [].

(** What [json.loads] gives for the reply: a [JSONDecodeError], a value
    that is not a dict (assigning [result["indexed_at"]] then raises a
    [TypeError], whose text is kept), or a dict. *)
Inductive loaded :=
  | NotJson
  | NotDict (type_error : string)
  | Dict (d : gmap string json).

Definition common_words : list string :=
  ["the"; "and"; "or"; "but"; "in"; "on"; "at"; "to"; "for"; "of"; "with";
   "by"].

(** [s[i:-3]] for [i <= len(s)] *)
Definition slice_to_last3 (i : nat) (s : string) : string :=
  String.substring i (String.length s - 3 - i) s.

Definition json_nat (n : nat) : json := JNum (inject_Z (Z.of_nat n)).

Section World.

(** [extract_webpage_content], as in [SeqExtractor]. *)
Variable extract_webpage_content : string -> page_content.
(** [groq_client.chat.completions.create(...)] for the prompt built from
    the URL, the title, the description and the text, followed by
    [.choices[0].message.content]: the message, or the text of the
    exception raised. *)
Variable chat : string -> string -> string -> string -> string + string.
Variable json_loads : string -> loaded.
(** [str.lower] and [re.findall(r'\b\w+\b', text)] *)
Variable py_lower : string -> string.
Variable find_words : string -> list string.
(** [datetime.now().isoformat()] *)
Variable now : string.
(** Whether [open(output_file, 'w')] and the dump succeed. *)
Variable writable : string -> bool.

(** The keywords of [_create_fallback_result]. *)
Definition fallback_keywords (content : page_content) : list string :=
  let text := py_lower (pc_title content +:+ " " +:+ pc_description content) in
  let words := find_words text in
  take 5
    (List.filter
       (fun word => (3 <? String.length word)
                    && negb (bool_decide (word ∈ common_words)))
       words).

(** [_create_fallback_result] *)
Definition create_fallback_result (url : string) (content : page_content)
    (error_msg : string) : gmap string json :=
  let keywords := fallback_keywords content in
  list_to_map
    [ ("url", JStr url);
      ("title", JStr (pc_title content));
      ("description", JStr (pc_description content));
      ("keywords", JArr (JStr <$> keywords));
      ("valuable_content", JArr [JStr ("Basic extraction - " +:+ error_msg)]);
      ("content_type", JStr "unknown");
      ("main_topics", JArr (JStr <$> take 3 keywords));
      ("target_audience", JStr "unknown");
      ("indexed_at", JStr now);
      ("content_length", json_nat (String.length (main_content content)));
      ("has_meta_description", JBool (Str.nonempty (pc_description content)));
      ("internal_links_count", json_nat (length (links content)));
      ("error", JStr error_msg) ].

(** The removal of a Markdown fence around the reply. *)
Definition clean_response (response_text : string) : string :=
  if Str.starts_with "```json" response_text
  then slice_to_last3 7 response_text
  else if Str.starts_with "```" response_text
  then slice_to_last3 3 response_text
  else response_text.

(** The four keys added to the parsed reply. *)
Definition add_metadata (content : page_content) (result : gmap string json)
  : gmap string json :=
  <["internal_links_count" := json_nat (length (links content))]>
    (<["has_meta_description" := JBool (Str.nonempty (pc_description content))]>
       (<["content_length" := json_nat (String.length (main_content content))]>
          (<["indexed_at" := JStr now]> result))).

(** [analyze_with_groq] *)
Definition analyze_with_groq (url : string) (content : page_content)
  : gmap string json :=
  if String.length (main_content content) <? 50 then
    create_fallback_result url content "Insufficient content"
  else
    match chat url (pc_title content) (pc_description content)
            (main_content content) with
    | inl e => create_fallback_result url content ("Analysis error: " +:+ e)
    | inr message =>
        let response_text := clean_response (strip message) in
        match json_loads response_text with
        | NotJson => create_fallback_result url content "JSON parsing failed"
        | NotDict e =>
            create_fallback_result url content ("Analysis error: " +:+ e)
        | Dict result => add_metadata content result
        end
    end.

(** The loop of [process_urls]. *)
Definition process_loop (urls : list string) : list (gmap string json) :=
  fold_left
    (fun results url =>
       let content := extract_webpage_content url in
       if Str.nonempty (main_content content)
       then results ++ [analyze_with_groq url content]
       else results)
    urls [].

(** [process_urls]: the returned list and the files. *)
Definition process_urls (urls : list string) (output_file : string)
    (fs : gmap string file) : list (gmap string json) * gmap string file :=
  let results := process_loop urls in
  (results,
   if writable output_file then <[output_file := JsonList results]> fs
   else fs).

(** [run_indexer] up to the call of [process_urls] (the summary printed
    after it changes no state): [None] when it returns before. *)
Definition run_indexer (rows : list (list string)) (output_file : string)
    (max_urls : nat) (fs : gmap string file)
  : option (list (gmap string json)) * gmap string file :=
  let urls := load_urls_from_csv rows in
  match urls with
  | [] => (None, fs)
  | _ =>
      let urls := if max_urls <? length urls then take max_urls urls else urls in
      let '(results, fs) := process_urls urls output_file fs in
      (Some results, fs)
  end.

(** The keys every result holds. *)
Definition metadata_keys : list string :=
  ["indexed_at"; "content_length"; "has_meta_description";
   "internal_links_count"].

End World.

End SeqIndexer.

(** ** indexer.py: WebIndexerBot.get_statistics

    The counters are Python dicts keyed by whatever value a result holds
    under [content_type], [language] and [content_quality]; a dict keeps
    its keys in insertion order, so a counter is an association list.
    Arithmetic on the relevance scores is Python's ([+], [/] and [round] on
    ints and floats): it is left to the interpreter. *)

Module Stats.
Import Indexer.

(** [hash(v)] is defined: lists and dicts are not hashable. *)
Definition hashable (v : json) : bool :=
  match v with JArr _ | JObj _ => false | _ => true end.

(** The number a value counts as, if any ([True] is 1, [False] is 0). *)
Definition as_number (v : json) : option Q :=
  match v with
  | JNum q => Some q
  | JBool b => Some (if b then 1%Q else 0%Q)
  | _ => None
  end.

(** Two hashable values are the same dict key: [a == b]. *)
Definition same_key (a b : json) : bool :=
  match a, b with
  | JNull, JNull => true
  | JStr x, JStr y => String.eqb x y
  | _, _ =>
      match as_number a, as_number b with
      | Some x, Some y => Qeq_bool x y
      | _, _ => false
      end
  end.

Definition counter := list (json * nat).

(** [d.get(key, 0)] *)
Definition count_of (key : json) (d : counter) : nat :=
  match List.find (fun kv => same_key (fst kv) key) d with
  | Some kv => snd kv
  | None => 0
  end.

(** [d[key] = n] *)
Fixpoint set_count (key : json) (n : nat) (d : counter) : counter :=
  match d with
  | [] => [(key, n)]
  | (k, m) :: d' =>
      if same_key k key then (k, n) :: d' else (k, m) :: set_count key n d'
  end.

(** [d[key] = d.get(key, 0) + 1]; [None] for the [TypeError] of an
    unhashable key. *)
Definition bump (key : json) (d : counter) : option counter :=
  if hashable key then Some (set_count key (count_of key d + 1) d) else None.

(** [result.get(key, default)] *)
Definition get (result : gmap string json) (key : string) (default : json)
  : json :=
  match result !! key with Some v => v | None => default end.

Record statistics := mkStatistics {
  total_pages : nat;
  content_types : counter;
  languages : counter;
  average_relevance_score : Q;
  quality_distribution : counter;
  generated_at : string;
  total_indexed_urls : nat;
  first_link_debug : option (gmap string json)
}.

(** What the call gives: the empty dict, an exception, or the
    statistics. *)
Inductive report :=
  | NoStatistics
  | StatisticsError
  | Statistics (s : statistics).

(** The locals of the loop. *)
Record tally := mkTally {
  t_content_types : counter;
  t_languages : counter;
  t_avg_relevance : Q;
  t_quality : counter
}.

Section Arithmetic.

(** [a + b], [a / n] and [round(a, 2)] on Python numbers. *)
Variable num_add : Q -> Q -> Q.
Variable num_div : Q -> nat -> Q.
Variable round2 : Q -> Q.
(** [datetime.now().isoformat()] *)
Variable now : string.

(** The body of [for result in self.results]. *)
Definition tally_result (t : tally) (result : gmap string json)
  : option tally :=
  content_types ← bump (get result "content_type" (JStr "unknown"))
                     (t_content_types t);
  languages ← bump (get result "language" (JStr "unknown")) (t_languages t);
  relevance ← as_number (get result "relevance_score" (JNum 0));
  quality ← bump (get result "content_quality" (JStr "unknown")) (t_quality t);
  Some (mkTally content_types languages
          (num_add (t_avg_relevance t) relevance) quality).

Fixpoint tally_all (t : tally) (results : list (gmap string json))
  : option tally :=
  match results with
  | [] => Some t
  | result :: rest =>
      match tally_result t result with
      | Some t' => tally_all t' rest
      | None => None
      end
  end.

(** [get_statistics]; [debug] is the attribute [first_link_debug_content]
    when an analysis has set it. *)
Definition get_statistics (b : bot) (debug : option (gmap string json))
  : report :=
  match results b with
  | [] => NoStatistics
  | _ :: _ =>
      let total_pages := length (results b) in
      match tally_all (mkTally [] [] 0%Q []) (results b) with
      | None => StatisticsError
      | Some t =>
          let avg_relevance := num_div (t_avg_relevance t) total_pages in
          Statistics
            (mkStatistics total_pages (t_content_types t) (t_languages t)
               (round2 avg_relevance) (t_quality t) now
               (size (indexed_urls b)) debug)
      end
  end.

End Arithmetic.

(** The sum of the counts of a counter. *)
Definition total (d : counter) : nat := foldr (fun kv n => snd kv + n) 0 d.

(** The results that count under [key] for a field. *)
Definition counted (field : string) (key : json)
    (results : list (gmap string json)) : list (gmap string json) :=
  List.filter (fun r => same_key (get r field (JStr "unknown")) key) results.

(** The values a result needs for the loop body not to raise. *)
Definition tallies (result : gmap string json) : bool :=
  hashable (get result "content_type" (JStr "unknown"))
  && hashable (get result "language" (JStr "unknown"))
  && bool_decide (is_Some (as_number (get result "relevance_score" (JNum 0))))
  && hashable (get result "content_quality" (JStr "unknown")).

End Stats.

(** ** indexer.py: the keys of a result of [process_url] *)

Module Record.

(** The keys [process_url] reads from the analysis, in the order of the
    dict display, and the keys of the dict it builds. *)
Definition analysis_keys : list string :=
  ["keywords"; "description"; "relevance_score"; "content_type";
   "main_topics"; "language"; "sentiment"; "target_audience";
   "content_quality"].

Definition result_keys : list string :=
  ["url"; "title"] ++ analysis_keys
  ++ ["internal_links"; "indexed_at"; "word_count"].

End Record.

(** ** ai_searcher.py, app.py: the rest of SearchBot

    An indexed item is read as in [Search]: the fields [search_by_keywords]
    uses, and the classification fields the indexer writes, each [None] when
    the key is missing.  The classification values are strings and the
    relevance score is a number, as the indexer's prompt asks for them. *)

Module Searcher.
Import Search.

Record entry := mkEntry {
  e_item : item;
  content_type : option string;
  language : option string;
  content_quality : option string;
  sentiment : option string;
  target_audience : option string;
  relevance_score : option Q
}.

(** The criteria of [filter_by_criteria]: a dict whose values are strings,
    and a number for [min_relevance_score]; [None] for a missing key. *)
Record criteria := mkCriteria {
  c_content_type : option string;
  c_language : option string;
  c_content_quality : option string;
  c_target_audience : option string;
  c_sentiment : option string;
  c_min_relevance_score : option Q
}.

(** [criteria.get(key) and item.get(key) != criteria[key]] *)
Definition differs (wanted : option string) (actual : option string) : bool :=
  match wanted with
  | Some (String c w) => negb (bool_decide (actual = Some (String c w)))
  | _ => false
  end.

(** [if criteria.get('min_relevance_score'):
       if item.get('relevance_score', 0) < criteria['min_relevance_score']] *)
Definition below_minimum (wanted : option Q) (actual : option Q) : bool :=
  match wanted with
  | Some m =>
      if Qeq_bool m 0 then false
      else if Qlt_le_dec (get actual 0%Q) m then true else false
  | None => false
  end.

(** The body of the loop of [filter_by_criteria]: the final value of
    [match]. *)
Definition matches_criteria (c : criteria) (e : entry) : bool :=
  let match_ := true in
  let match_ := if differs (c_content_type c) (content_type e) then false
                else match_ in
  let match_ := if differs (c_language c) (language e) then false
                else match_ in
  let match_ := if differs (c_content_quality c) (content_quality e) then false
                else match_ in
  let match_ := if differs (c_target_audience c) (target_audience e) then false
                else match_ in
  let match_ := if differs (c_sentiment c) (sentiment e) then false
                else match_ in
  let match_ := if below_minimum (c_min_relevance_score c) (relevance_score e)
                then false else match_ in
  match_.

(** [filter_by_criteria] *)
Definition filter_by_criteria (indexed_data : list entry) (c : criteria)
  : list entry :=
  fold_left
    (fun filtered e => if matches_criteria c e then filtered ++ [e]
                       else filtered)
    indexed_data [].

(** *** Statistics *)

(** A [defaultdict(int)] with string keys, in insertion order. *)
Definition str_counter := list (string * nat).

(** [d[key] += 1] *)
Fixpoint count_up (key : string) (d : str_counter) : str_counter :=
  match d with
  | [] => [(key, 1)]
  | (k, n) :: d' =>
      if String.eqb k key then (k, S n) :: d' else (k, n) :: count_up key d'
  end.

(** [sorted(d.items(), key=lambda x: x[1], reverse=True)]: a stable sort,
    equal counts stay in insertion order. *)
Fixpoint insert_by_count (x : string * nat) (l : str_counter) : str_counter :=
  match l with
  | [] => [x]
  | y :: l' =>
      if snd x <? snd y then y :: insert_by_count x l' else x :: y :: l'
  end.

Definition sort_by_count (d : str_counter) : str_counter :=
  foldr insert_by_count [] d.

(** [dict(sorted(...)[:10])] *)
Definition top10 (d : str_counter) : str_counter := take 10 (sort_by_count d).

(** The dict [get_statistics_summary] of [ai_searcher.py] returns. *)
Record summary := mkSummary {
  total_pages : nat;
  content_types : str_counter;
  languages : str_counter;
  quality_distribution : str_counter;
  sentiment_distribution : str_counter;
  target_audiences : str_counter;
  avg_relevance_score : Q;
  top_keywords : str_counter;
  top_topics : str_counter
}.

(** The one of [app.py]. *)
Record short_summary := mkShortSummary {
  s_total_pages : nat;
  s_content_types : str_counter;
  s_languages : str_counter;
  s_top_keywords : str_counter;
  s_top_topics : str_counter
}.

Section World.

Variable ratio : string -> string -> Z.
Variable partial_ratio : string -> string -> Z.
(** [str.lower] *)
Variable lower : string -> string.
(** [a + b] and [a / n] on Python numbers. *)
Variable num_add : Q -> Q -> Q.
Variable num_div : Q -> nat -> Q.
(** [analyze_query_with_ai]: the whole body is one [try] whose handler
    returns the error text, so the call returns a string. *)
Variable analyze_query_with_ai : string -> list result -> string.
(** [datetime.now().isoformat()] *)
Variable now : string.

(** [for word in words: d[word.lower()] += 1] *)
Definition count_words (words : list string) (d : str_counter) : str_counter :=
  fold_left (fun d word => count_up (lower word) d) words d.

(** The loop body of [get_statistics_summary] in [ai_searcher.py], on the
    dict under construction and [total_relevance]. *)
Definition summarize_entry (acc : summary * Q) (e : entry) : summary * Q :=
  let '(stats, total_relevance) := acc in
  (mkSummary (total_pages stats)
     (count_up (get (content_type e) "unknown") (content_types stats))
     (count_up (get (language e) "unknown") (languages stats))
     (count_up (get (content_quality e) "unknown") (quality_distribution stats))
     (count_up (get (sentiment e) "unknown") (sentiment_distribution stats))
     (count_up (get (target_audience e) "unknown") (target_audiences stats))
     (avg_relevance_score stats)
     (count_words (get (keywords (e_item e)) []) (top_keywords stats))
     (count_words (get (main_topics (e_item e)) []) (top_topics stats)),
   num_add total_relevance (get (relevance_score e) 0%Q)).

(** [get_statistics_summary] of [ai_searcher.py]: [None] for the empty
    dict. *)
Definition get_statistics_summary (indexed_data : list entry)
  : option summary :=
  match indexed_data with
  | [] => None
  | _ :: _ =>
      let stats :=
        mkSummary (length indexed_data) [] [] [] [] [] 0%Q [] [] in
      let '(stats, total_relevance) :=
        fold_left summarize_entry indexed_data (stats, 0%Q) in
      Some (mkSummary (total_pages stats) (content_types stats)
              (languages stats) (quality_distribution stats)
              (sentiment_distribution stats) (target_audiences stats)
              (num_div total_relevance (length indexed_data))
              (top10 (top_keywords stats)) (top10 (top_topics stats)))
  end.

(** The loop body and the method in [app.py]. *)
Definition summarize_entry_short (stats : short_summary) (e : entry)
  : short_summary :=
  mkShortSummary (s_total_pages stats)
    (count_up (get (content_type e) "unknown") (s_content_types stats))
    (count_up (get (language e) "unknown") (s_languages stats))
    (count_words (get (keywords (e_item e)) []) (s_top_keywords stats))
    (count_words (get (main_topics (e_item e)) []) (s_top_topics stats)).

Definition get_statistics_summary_short (indexed_data : list entry)
  : option short_summary :=
  match indexed_data with
  | [] => None
  | _ :: _ =>
      let stats :=
        fold_left summarize_entry_short indexed_data
          (mkShortSummary (length indexed_data) [] [] [] []) in
      Some (mkShortSummary (s_total_pages stats) (s_content_types stats)
              (s_languages stats) (top10 (s_top_keywords stats))
              (top10 (s_top_topics stats)))
  end.

(** *** search_and_answer *)

Record answer := mkAnswer {
  a_query : string;
  results_count : nat;
  search_results : list result;
  ai_response : string;
  timestamp : string
}.

(** [search_and_answer]; [search_by_keywords] runs with its default
    threshold 70. *)
Definition search_and_answer (indexed_data : list item) (user_query : string)
    (max_results : nat) : answer :=
  let search_results :=
    take max_results
      (search_by_keywords ratio partial_ratio lower indexed_data user_query 70) in
  let ai_response := analyze_query_with_ai user_query search_results in
  mkAnswer user_query (length search_results) search_results ai_response now.

(** *** The [/search] route of app.py *)

(** What [request.get_json()] gives: nothing usable (the call raises or
    returns [None]), a JSON value that is no object, or an object. *)
Inductive body :=
  | NoJson
  | NotObject
  | Object (data : gmap string Indexer.json).

(** The response: the JSON payload and the status. *)
Inductive response :=
  | Ok200 (result : answer)
  | BadRequest400 (error : string)
  | ServerError500.

(** [search] *)
Definition search (indexed_data : list item) (request : body) : response :=
  match request with
  | Object data =>
      match data !! "query" with
      | Some (Indexer.JStr q) =>
          let query := strip q in
          if Str.nonempty query
          then Ok200 (search_and_answer indexed_data query 20)
          else BadRequest400 "No query provided"
      | Some _ => ServerError500
      | None => BadRequest400 "No query provided"
      end
  | _ => ServerError500
  end.

End World.

(** The count a counter holds for a key, and the sum of its counts. *)
Definition count_in (key : string) (d : str_counter) : nat :=
  match List.find (fun kv => String.eqb (fst kv) key) d with
  | Some kv => snd kv
  | None => 0
  end.

Definition total_count (d : str_counter) : nat :=
  foldr (fun kv n => snd kv + n) 0 d.

(** The number of occurrences of a string in a list. *)
Definition occurrences (key : string) (l : list string) : nat :=
  length (List.filter (String.eqb key) l).

(** [d] counts the items by the value of [field]: every item once. *)
Definition distribution_of (field : entry -> option string)
    (data : list entry) (d : str_counter) : Prop :=
  total_count d = length data /\
  NoDup d.*1 /\
  forall key,
    count_in key d
    = length (List.filter (fun e => String.eqb (get (field e) "unknown") key)
                data).

(** [top] holds the most frequent of [words], at most ten, with their
    numbers of occurrences, the most frequent first. *)
Definition top_of (words : list string) (top : str_counter) : Prop :=
  length top <= 10 /\
  StronglySorted (fun a b => snd b <= snd a) top /\
  NoDup top.*1 /\
  (forall k n, (k, n) ∈ top -> n = occurrences k words /\ 0 < n) /\
  (forall key k n, (k, n) ∈ top -> key ∉ top.*1 -> occurrences key words <= n) /\
  (forall key, 0 < occurrences key words -> key ∈ top.*1 \/ length top = 10).

(** The lowered keywords, and topics, of the whole index. *)
Definition all_words (lower : string -> string)
    (field : item -> option (list string)) (data : list entry) : list string :=
  flat_map (fun e => lower <$> get (field (e_item e)) []) data.

End Searcher.

(** * Properties *)

Example norm1 : Crawler.normalize_url py_urlparse "https://example.org/a/b?x=1#top" = "https://example.org/a/b".
Proof. vm_compute. reflexivity. Qed.
Example norm2 : Crawler.normalize_url py_urlparse "foo/bar" = "://foo/bar".
Proof. vm_compute. reflexivity. Qed.
Example norm3 : Crawler.normalize_url py_urlparse "://foo/bar" = "://://foo/bar".
Proof. vm_compute. reflexivity. Qed.
Example norm4 : Crawler.normalize_url py_urlparse "HTTP://a/b;p/c;q?x" = "http://a/b;p/c".
Proof. vm_compute. reflexivity. Qed.
Example norm5 : Crawler.normalize_url py_urlparse "mailto:x@y" = "mailto://x@y".
Proof. vm_compute. reflexivity. Qed.
Example norm6 : Crawler.normalize_url py_urlparse " http:foo;x" = "http://foo".
Proof. vm_compute. reflexivity. Qed.
Example norm7 : Crawler.normalize_url py_urlparse "1http://a" = "://1http://a".
Proof. vm_compute. reflexivity. Qed.
Example norm8 : Crawler.normalize_url py_urlparse "a+b.c-d:rest" = "a+b.c-d://rest".
Proof. vm_compute. reflexivity. Qed.
Example norm9 : Crawler.normalize_url py_urlparse "http:////b" = "http:////b".
Proof. vm_compute. reflexivity. Qed.

(** ** The URL normaliser *)

Module UrlFacts.
Import Chars UrlParse.

Lemma eqc_true a b : eqc a b = true <-> a = b.
Proof. apply Ascii.eqb_eq. Qed.

Lemma eqc_false a b : eqc a b = false <-> a <> b.
Proof. apply Ascii.eqb_neq. Qed.

Lemma mem_false c l : mem c l = false <-> c ∉ l.
Proof.
  unfold mem. induction l as [|x l IH]; cbn.
  - split; [intros _ H; now apply elem_of_nil in H | reflexivity].
  - rewrite orb_false_iff, IH, not_elem_of_cons, eqc_false. tauto.
Qed.

Lemma mem_true c l : mem c l = true <-> c ∈ l.
Proof.
  destruct (mem c l) eqn:E.
  - split; [intros _|reflexivity].
    destruct (decide (c ∈ l)) as [H|H]; [exact H|].
    apply mem_false in H. congruence.
  - apply mem_false in E. split; [discriminate | contradiction].
Qed.

(** *** [span_until] *)

Section Span.
Variable p : ascii -> bool.

Lemma span_app_eq l : fst (span_until p l) ++ snd (span_until p l) = l.
Proof.
  induction l as [|c l IH]; cbn; [reflexivity|].
  destruct (p c); [reflexivity|].
  destruct (span_until p l) as [a b]. cbn in *. now rewrite IH.
Qed.

Lemma span_fst_free l : Forall (fun c => p c = false) (fst (span_until p l)).
Proof.
  induction l as [|c l IH]; cbn; [constructor|].
  destruct (p c) eqn:E; [constructor|].
  destruct (span_until p l) as [a b]. cbn in *. now constructor.
Qed.

Lemma span_snd_head l c r : snd (span_until p l) = c :: r -> p c = true.
Proof.
  induction l as [|x l IH]; cbn; [discriminate|].
  destruct (p x) eqn:E; [intros [= -> _]; exact E|].
  destruct (span_until p l) as [a b]. cbn in *. exact IH.
Qed.

(** A decomposition with a free prefix and a rest that is empty or starts
    with a character of the class is the one [span_until] computes. *)
Lemma span_unique a b :
  Forall (fun c => p c = false) a ->
  match b with [] => True | c :: _ => p c = true end ->
  span_until p (a ++ b) = (a, b).
Proof.
  intros Ha Hb. induction Ha as [|x a Hx Ha IH]; cbn.
  - destruct b as [|c b]; cbn; [reflexivity | now rewrite Hb].
  - now rewrite Hx, IH.
Qed.

Lemma span_free l : Forall (fun c => p c = false) l -> span_until p l = (l, []).
Proof.
  intros H. rewrite <- (app_nil_r l) at 1. now apply span_unique.
Qed.

Lemma span_app_hit l c r :
  p c = true ->
  span_until p (l ++ c :: r) =
    (fst (span_until p l), snd (span_until p l) ++ c :: r).
Proof.
  intros Hc. rewrite <- (span_app_eq l) at 1. rewrite <- app_assoc.
  apply span_unique; [apply span_fst_free|].
  destruct (snd (span_until p l)) as [|x b] eqn:E; cbn; [exact Hc|].
  now apply span_snd_head in E.
Qed.

Lemma span_app_free a l :
  Forall (fun c => p c = false) a ->
  span_until p (a ++ l) = (a ++ fst (span_until p l), snd (span_until p l)).
Proof.
  intros Ha. rewrite <- (span_app_eq l) at 1. rewrite app_assoc.
  apply span_unique.
  - apply Forall_app. split; [exact Ha | apply span_fst_free].
  - destruct (snd (span_until p l)) as [|x b] eqn:E; [exact I|].
    now apply span_snd_head in E.
Qed.

Lemma span_fst_length l : length (fst (span_until p l)) <= length l.
Proof.
  rewrite <- (span_app_eq l) at 2. rewrite length_app. lia.
Qed.

Lemma span_take l : take (length (fst (span_until p l))) l = fst (span_until p l).
Proof.
  rewrite <- (span_app_eq l) at 2. now rewrite take_app_length.
Qed.

Lemma span_drop l : drop (length (fst (span_until p l))) l = snd (span_until p l).
Proof.
  rewrite <- (span_app_eq l) at 2. now rewrite drop_app_length.
Qed.

End Span.

Lemma span_ext p q l :
  Forall (fun c => p c = q c) l -> span_until p l = span_until q l.
Proof.
  induction 1 as [|c l Hc _ IH]; cbn; [reflexivity|].
  now rewrite Hc, IH.
Qed.

(** *** [find] through [span_until] *)

Lemma find_span c l :
  find c l =
    match snd (span_until (is_char c) l) with
    | [] => None
    | _ :: _ => Some (length (fst (span_until (is_char c) l)))
    end.
Proof.
  induction l as [|x l IH]; cbn; [reflexivity|].
  unfold is_char at 1 3. destruct (eqc x c); [reflexivity|].
  rewrite IH. destruct (span_until (is_char c) l) as [a [|y b]]; reflexivity.
Qed.

Lemma drop_S_tail {A} n (l : list A) : drop (S n) l = tail (drop n l).
Proof.
  revert l. induction n as [|n IH]; intros [|x l]; cbn; auto.
Qed.

Lemma split_once_span c l :
  split_once c l =
    (fst (span_until (is_char c) l), tail (snd (span_until (is_char c) l))).
Proof.
  unfold split_once. rewrite find_span.
  destruct (snd (span_until (is_char c) l)) as [|y b] eqn:E.
  - cbn. f_equal. rewrite <- (span_app_eq (is_char c) l) at 1.
    now rewrite E, app_nil_r.
  - rewrite span_take, drop_S_tail, span_drop, E. reflexivity.
Qed.

(** *** The index computations agree with their structural descriptions *)

Lemma split_scheme_span url : split_scheme url = scheme_split url.
Proof.
  unfold split_scheme, scheme_split. rewrite find_span.
  pose proof (span_app_eq (is_char ":") url) as Happ.
  pose proof (span_take (is_char ":") url) as Htake.
  pose proof (span_drop (is_char ":") url) as Hdrop.
  destruct (span_until (is_char ":") url) as [a b]. cbn in *.
  destruct b as [|y b]; [reflexivity|].
  destruct a as [|x a]; cbn [length]; [reflexivity|].
  cbn [length] in Htake, Hdrop. rewrite Htake, drop_S_tail, Hdrop.
  unfold good_scheme. rewrite <- Happ. reflexivity.
Qed.

Lemma find_or_length c l :
  match find c l with Some i => i | None => length l end
  = length (fst (span_until (is_char c) l)).
Proof.
  rewrite find_span.
  pose proof (span_app_eq (is_char c) l) as Happ.
  destruct (span_until (is_char c) l) as [a [|y b]]; cbn in *; [|reflexivity].
  rewrite app_nil_r in Happ. now subst.
Qed.

Lemma span_or_length p q l :
  length (fst (span_until (fun x => p x || q x) l))
  = Nat.min (length (fst (span_until p l))) (length (fst (span_until q l))).
Proof.
  induction l as [|c l IH]; cbn; [reflexivity|].
  destruct (span_until (fun x => p x || q x) l), (span_until p l),
    (span_until q l).
  destruct (p c), (q c); cbn in *; lia.
Qed.

Lemma splitnetloc_span r :
  splitnetloc ("/"%char :: "/"%char :: r) 2 = span_until is_delim r.
Proof.
  unfold splitnetloc.
  assert (Hff : forall c, find_from c 2 ("/"%char :: "/"%char :: r)
                          = (fun i => 2 + i) <$> find c r).
  { intros c. unfold find_from. cbn [drop]. now rewrite drop_0. }
  cbn [fold_left]. rewrite !Hff.
  pose proof (find_or_length "/" r) as H1.
  pose proof (find_or_length "?" r) as H2.
  pose proof (find_or_length "#" r) as H3.
  pose proof (span_fst_length (is_char "/") r) as L1.
  pose proof (span_fst_length (is_char "?") r) as L2.
  pose proof (span_fst_length (is_char "#") r) as L3.
  assert (Hm : length (fst (span_until is_delim r)) =
               Nat.min (Nat.min (length (fst (span_until (is_char "/") r)))
                                (length (fst (span_until (is_char "?") r))))
                       (length (fst (span_until (is_char "#") r)))).
  { unfold is_delim. now rewrite !span_or_length. }
  set (m := length (fst (span_until is_delim r))) in *.
  match goal with
  | |- (drop 2 (take ?d _), drop ?d _) = _ =>
      assert (Hd : d = S (S m))
  end.
  { destruct (find "/" r), (find "?" r), (find "#" r);
      cbn [fmap option_fmap option_map length]; lia. }
  rewrite Hd. cbn [take drop]. rewrite drop_0. unfold m.
  rewrite span_take, span_drop.
  now destruct (span_until is_delim r).
Qed.

Lemma rfind_spec c l :
  (rfind c l = None /\ (c ∉ l)) \/
  (exists pre seg, l = pre ++ c :: seg /\ (c ∉ seg) /\
                   rfind c l = Some (length pre)).
Proof.
  induction l as [|x l [[Hn Hc]|(pre & seg & -> & Hseg & Hr)]]; cbn.
  - left. split; [reflexivity|]. apply not_elem_of_nil.
  - rewrite Hn. destruct (eqc x c) eqn:E.
    + apply eqc_true in E as ->. right. exists [], l. auto.
    + apply eqc_false in E. left. split; [reflexivity|].
      apply not_elem_of_cons. auto.
  - rewrite Hr. right. exists (x :: pre), seg. auto.
Qed.

Lemma strip_params_noslash l :
  mem "/" l = false -> strip_params l = fst (span_until (is_char ";") l).
Proof. destruct l as [|c l]; cbn [strip_params]; [reflexivity|]. now intros ->. Qed.

Lemma strip_params_last pre seg :
  "/"%char ∉ seg ->
  strip_params (pre ++ "/"%char :: seg)
  = pre ++ "/"%char :: fst (span_until (is_char ";") seg).
Proof.
  intros Hseg. apply mem_false in Hseg.
  assert (Hmem : forall l, mem "/" (l ++ "/"%char :: seg) = true).
  { intros l. apply mem_true. apply elem_of_app. right. apply list_elem_of_here. }
  induction pre as [|x pre IH].
  - pose proof (Hmem []) as H0. cbn [app] in *. cbn [strip_params].
    rewrite H0. f_equal. now apply strip_params_noslash.
  - pose proof (Hmem (x :: pre)) as H0. cbn [app] in *. cbn [strip_params].
    rewrite H0. f_equal. exact IH.
Qed.

Lemma splitparams_strip l : fst (splitparams l) = strip_params l.
Proof.
  unfold splitparams. destruct (mem "/" l) eqn:Hm.
  - destruct (rfind_spec "/" l) as [[_ Hno]|(pre & seg & -> & Hseg & ->)].
    { apply mem_false in Hno. congruence. }
    rewrite (strip_params_last pre seg Hseg).
    unfold find_from. rewrite drop_app_length. cbn [find].
    replace (eqc "/" ";") with false by reflexivity.
    pose proof (find_or_length ";" seg) as Hlen.
    pose proof (span_take (is_char ";") seg) as Htake.
    destruct (find ";" seg) as [i|]; cbn.
    + rewrite take_app_add'; [|reflexivity]. cbn. now rewrite Hlen, Htake.
    + rewrite <- Hlen, take_ge in Htake by lia. now rewrite <- Htake.
  - rewrite (strip_params_noslash l Hm).
    pose proof (find_or_length ";" l) as Hlen.
    pose proof (span_take (is_char ";") l) as Htake.
    destruct (find ";" l) as [i|]; cbn.
    + now rewrite Hlen.
    + rewrite <- Hlen, take_ge in Htake by lia. now rewrite <- Htake.
Qed.

Lemma strip_params_free l : mem ";" l = false -> strip_params l = l.
Proof.
  intros H. apply mem_false in H.
  assert (Hs : forall l', ";"%char ∉ l' ->
                 fst (span_until (is_char ";") l') = l').
  { intros l' Hl'. rewrite span_free; [reflexivity|].
    apply Forall_forall. intros x Hx. apply eqc_false. intros ->. contradiction. }
  induction l as [|c l IH]; [reflexivity|].
  cbn [strip_params]. destruct (mem "/" (c :: l)).
  - f_equal. apply IH. apply not_elem_of_cons in H. tauto.
  - now apply Hs.
Qed.

Lemma urlparse_parts url0 :
  (scheme (urlparse_chars url0), netloc (urlparse_chars url0),
   path (urlparse_chars url0)) = parts url0.
Proof.
  unfold urlparse_chars, urlsplit, parts.
  rewrite split_scheme_span.
  destruct (scheme_split (remove_unsafe (lstrip c0_or_space url0)))
    as [sch rest].
  assert (Hnet : match rest with
                 | "/"%char :: "/"%char :: _ => splitnetloc rest 2
                 | _ => ([], rest)
                 end = authority_split rest).
  { unfold authority_split.
    destruct rest as [|c1 [|c2 r]]; try reflexivity.
    destruct (ascii_dec c1 "/") as [->|N1];
      [destruct (ascii_dec c2 "/") as [->|N2]|].
    - apply splitnetloc_span.
    - destruct c2 as [[] [] [] [] [] [] [] []]; try reflexivity. congruence.
    - destruct c1 as [[] [] [] [] [] [] [] []]; try reflexivity. congruence. }
  rewrite Hnet. destruct (authority_split rest) as [net rest'].
  rewrite !split_once_span. cbn [fst snd]. fold (path_of rest').
  cbn [scheme netloc path].
  destruct (in_uses_params sch) eqn:Hu; cbn [andb].
  - destruct (mem ";" (path_of rest')) eqn:Hsemi.
    + pose proof (splitparams_strip (path_of rest')) as Hs.
      destruct (splitparams (path_of rest')) as [u prm]. cbn in *.
      now rewrite Hs.
    + cbn. now rewrite strip_params_free.
  - reflexivity.
Qed.

(** *** Character classes *)

Lemma scheme_char_facts c :
  scheme_char c = true ->
  scheme_char (lower_char c) = true /\
  lower_char (lower_char c) = lower_char c /\
  is_char ":" (lower_char c) = false /\
  unsafe_byte (lower_char c) = false.
Proof.
  destruct c as [[] [] [] [] [] [] [] []]; vm_compute;
    first [discriminate | intros _; repeat split; reflexivity].
Qed.

Lemma is_alpha_facts c :
  is_alpha c = true ->
  is_alpha (lower_char c) = true /\ c0_or_space (lower_char c) = false.
Proof.
  destruct c as [[] [] [] [] [] [] [] []]; vm_compute;
    first [discriminate | intros _; repeat split; reflexivity].
Qed.

Lemma good_scheme_lower a :
  good_scheme a = true ->
  good_scheme (lower a) = true /\ lower (lower a) = lower a.
Proof.
  unfold good_scheme. intros H. apply andb_true_iff in H as [Hh Hall].
  rewrite forallb_forall in Hall.
  split; [apply andb_true_iff; split|].
  - destruct a as [|c a]; [discriminate|]. cbn. now apply is_alpha_facts.
  - apply forallb_forall. intros x Hx. unfold lower in Hx.
    apply in_map_iff in Hx as (y & <- & Hy). now apply scheme_char_facts, Hall.
  - unfold lower. rewrite map_map. apply map_ext_in. intros x Hx.
    now apply scheme_char_facts, Hall.
Qed.

Lemma good_scheme_chars s :
  good_scheme s = true -> lower s = s ->
  Forall (fun c => is_char ":" c = false) s /\
  Forall (fun c => unsafe_byte c = false) s /\
  exists x s', s = x :: s' /\ c0_or_space x = false.
Proof.
  unfold good_scheme. intros H Hl. apply andb_true_iff in H as [Hh Hall].
  rewrite forallb_forall in Hall.
  assert (Hc : forall x, In x s ->
                 is_char ":" x = false /\ unsafe_byte x = false).
  { intros x Hx. rewrite <- Hl in Hx. unfold lower in Hx.
    apply in_map_iff in Hx as (y & <- & Hy).
    destruct (scheme_char_facts y (Hall y Hy)) as (_ & _ & ? & ?). auto. }
  split; [|split].
  - apply List.Forall_forall. intros x Hx. now apply Hc.
  - apply List.Forall_forall. intros x Hx. now apply Hc.
  - destruct s as [|x s']; [discriminate|]. exists x, s'. split; [reflexivity|].
    injection Hl as Hx _. rewrite <- Hx. now apply is_alpha_facts.
Qed.

(** *** Cleaning *)

Lemma remove_unsafe_safe l : Forall (fun c => unsafe_byte c = false) (remove_unsafe l).
Proof.
  apply List.Forall_forall. intros x Hx. unfold remove_unsafe in Hx.
  apply filter_In in Hx as [_ Hx]. now apply negb_true_iff in Hx.
Qed.

Lemma remove_unsafe_id l :
  Forall (fun c => unsafe_byte c = false) l -> remove_unsafe l = l.
Proof.
  unfold remove_unsafe.
  induction 1 as [|c l Hc _ IH]; cbn; [reflexivity|].
  rewrite Hc. cbn. now rewrite IH.
Qed.

Lemma remove_unsafe_app a b :
  remove_unsafe (a ++ b) = remove_unsafe a ++ remove_unsafe b.
Proof. apply List.filter_app. Qed.

Lemma lstrip_app_stop p a c r :
  p c = false -> lstrip p (a ++ c :: r) = lstrip p a ++ c :: r.
Proof.
  intros Hc. induction a as [|x a IH]; cbn; [now rewrite Hc|].
  destruct (p x); [exact IH | reflexivity].
Qed.

Lemma lstrip_suffix p l : exists t, l = t ++ lstrip p l.
Proof.
  induction l as [|x l [t IH]]; cbn; [now exists []|].
  destruct (p x); [|now exists []].
  exists (x :: t). cbn. now rewrite <- IH.
Qed.

(** *** Pieces inherit character properties *)

Section Pieces.
Variable Q : ascii -> Prop.

Lemma span_Forall p l :
  Forall Q l ->
  Forall Q (fst (span_until p l)) /\ Forall Q (snd (span_until p l)).
Proof.
  intros H. rewrite <- (span_app_eq p l) in H. now apply Forall_app in H.
Qed.

Lemma strip_params_prefix l : exists t, l = strip_params l ++ t.
Proof.
  induction l as [|c l [t IH]]; [now exists []|].
  cbn [strip_params]. destruct (mem "/" (c :: l)).
  - exists t. cbn. now rewrite <- IH.
  - exists (snd (span_until (is_char ";") (c :: l))).
    now rewrite span_app_eq.
Qed.

Lemma strip_params_Forall l : Forall Q l -> Forall Q (strip_params l).
Proof.
  intros H. destruct (strip_params_prefix l) as [t Ht].
  rewrite Ht in H. now apply Forall_app in H.
Qed.

Lemma scheme_split_rest url s rest :
  scheme_split url = (s, rest) -> Forall Q url -> Forall Q rest.
Proof.
  unfold scheme_split. intros H Hu.
  pose proof (span_Forall (is_char ":") url Hu) as [_ Hb].
  destruct (span_until (is_char ":") url) as [a [|y b]]; cbn in *;
    [now injection H as _ <-|].
  apply Forall_cons in Hb as [_ Hb].
  destruct (good_scheme a); now injection H as _ <-.
Qed.

End Pieces.

(** *** [strip_params] *)

Lemma mem_slash_strip l : mem "/" (strip_params l) = mem "/" l.
Proof.
  induction l as [|c l IH]; [reflexivity|].
  cbn [strip_params]. destruct (mem "/" (c :: l)) eqn:Hm.
  - unfold mem in *. cbn [existsb] in *. now rewrite IH.
  - apply mem_false. apply mem_false in Hm.
    pose proof (span_Forall (fun x => x <> "/"%char) (is_char ";") (c :: l)) as [H _].
    { apply List.Forall_forall. intros x Hx ->. apply Hm.
      now apply list_elem_of_In. }
    rewrite List.Forall_forall in H. intros Hin.
    apply list_elem_of_In in Hin. now apply H in Hin.
Qed.

Lemma strip_params_idem l : strip_params (strip_params l) = strip_params l.
Proof.
  induction l as [|c l IH]; [reflexivity|].
  pose proof (mem_slash_strip (c :: l)) as Hs.
  cbn [strip_params] in *. destruct (mem "/" (c :: l)) eqn:Hm.
  - cbn [strip_params]. rewrite Hs. now rewrite IH.
  - rewrite strip_params_noslash by exact Hs.
    rewrite span_free; [reflexivity | apply span_fst_free].
Qed.

Lemma strip_params_tail a b :
  strip_params (a ++ b) = a ++ b ->
  match b with [] => True | c :: _ => c = "/"%char end ->
  strip_params b = b.
Proof.
  intros H Hb. destruct b as [|c b]; [reflexivity|]. subst c.
  induction a as [|x a IH]; [exact H|].
  apply IH. cbn [app strip_params] in H.
  replace (mem "/" (x :: a ++ "/"%char :: b)) with true in H.
  - now injection H.
  - symmetry. apply mem_true. apply elem_of_cons. right.
    apply elem_of_app. right. apply list_elem_of_here.
Qed.

(** *** The parts of a URL with a scheme are canonical *)

Lemma authority_split_Forall (Q : ascii -> Prop) rest n rest' :
  authority_split rest = (n, rest') -> Forall Q rest ->
  Forall Q n /\ Forall Q rest' /\ Forall (fun c => is_delim c = false) n.
Proof.
  unfold authority_split. intros H Hr.
  assert (Hplain : ([], rest) = (n, rest') ->
            Forall Q n /\ Forall Q rest' /\
            Forall (fun c => is_delim c = false) n).
  { intros [= <- <-]. repeat split; auto. }
  destruct rest as [|c1 rest1]; [auto|].
  destruct (ascii_dec c1 "/") as [->|N1].
  2:{ apply Hplain. rewrite <- H.
      destruct c1 as [[] [] [] [] [] [] [] []]; try reflexivity. congruence. }
  destruct rest1 as [|c2 r]; [auto|].
  destruct (ascii_dec c2 "/") as [->|N2].
  2:{ apply Hplain. rewrite <- H.
      destruct c2 as [[] [] [] [] [] [] [] []]; try reflexivity. congruence. }
  apply Forall_cons in Hr as [_ Hr]. apply Forall_cons in Hr as [_ Hr].
  destruct (span_Forall Q is_delim r Hr) as [H1 H2].
  pose proof (span_fst_free is_delim r) as H3.
  rewrite H in H1, H2, H3. auto.
Qed.

Lemma path_of_free rest :
  Forall (fun c => is_char "?" c = false) (path_of rest) /\
  Forall (fun c => is_char "#" c = false) (path_of rest).
Proof.
  unfold path_of. split; [apply span_fst_free|].
  apply span_Forall. apply span_fst_free.
Qed.

Lemma path_of_Forall (Q : ascii -> Prop) rest :
  Forall Q rest -> Forall Q (path_of rest).
Proof.
  intros H. unfold path_of. apply span_Forall. now apply span_Forall.
Qed.

Lemma parts_canonical url0 s n p :
  parts url0 = (s, n, p) -> s <> [] -> canonical s n p.
Proof.
  unfold parts. intros H Hs.
  pose proof (remove_unsafe_safe (lstrip c0_or_space url0)) as Hsafe.
  set (url := remove_unsafe (lstrip c0_or_space url0)) in *.
  destruct (scheme_split url) as [s0 rest] eqn:Hsplit.
  pose proof (scheme_split_rest _ url s0 rest Hsplit Hsafe) as Hrest.
  destruct (authority_split rest) as [n0 rest'] eqn:Hauth.
  destruct (authority_split_Forall _ rest n0 rest' Hauth Hrest)
    as (Hn & Hrest' & Hnd).
  injection H as <- <- <-.
  assert (Hgood : good_scheme s0 = true /\ lower s0 = s0).
  { unfold scheme_split in Hsplit.
    destruct (snd (span_until (is_char ":") url));
      [injection Hsplit as <- _; congruence|].
    destruct (good_scheme (fst (span_until (is_char ":") url))) eqn:Hg;
      injection Hsplit as <- _; [|congruence].
    now apply good_scheme_lower. }
  destruct Hgood as [Hg Hl].
  destruct (path_of_free rest') as [Hq Hf].
  pose proof (path_of_Forall _ rest' Hrest') as Hps.
  unfold canonical. destruct (in_uses_params s0).
  - repeat split; auto using strip_params_Forall, strip_params_idem.
    apply Forall_app. auto using strip_params_Forall.
  - repeat split; auto; try discriminate. apply Forall_app. auto.
Qed.

Lemma canonical_parts s n p :
  canonical s n p ->
  parts (s ++ [":"; "/"; "/"]%char ++ n ++ p)
  = (s, n ++ fst (span_until (is_char "/") p),
        snd (span_until (is_char "/") p)).
Proof.
  intros (Hg & Hl & Hn & Hq & Hf & Hsafe & Hpar).
  destruct (good_scheme_chars s Hg Hl) as (Hcolon & Hss & x & s' & -> & Hx).
  unfold parts.
  assert (Hclean :
    remove_unsafe (lstrip c0_or_space
       ((x :: s') ++ [":"; "/"; "/"]%char ++ n ++ p))
    = (x :: s') ++ ":"%char :: "/"%char :: "/"%char :: n ++ p).
  { cbn [app lstrip]. rewrite Hx. apply remove_unsafe_id.
    change (Forall (fun c => unsafe_byte c = false)
              ((x :: s') ++ [":"; "/"; "/"]%char ++ n ++ p)).
    apply Forall_app. split; [exact Hss|].
    apply Forall_app. split; [repeat constructor | exact Hsafe]. }
  rewrite Hclean.
  assert (Hsch : scheme_split
             ((x :: s') ++ ":"%char :: "/"%char :: "/"%char :: n ++ p)
           = (x :: s', "/"%char :: "/"%char :: n ++ p)).
  { unfold scheme_split. rewrite span_unique by (auto; reflexivity).
    cbn [fst snd]. now rewrite Hg, Hl. }
  rewrite Hsch. cbn [authority_split].
  assert (Hdel : span_until is_delim p = span_until (is_char "/") p).
  { apply span_ext. apply Forall_forall. intros c Hc.
    rewrite Forall_forall in Hq, Hf. unfold is_delim.
    rewrite (Hq c Hc), (Hf c Hc). now rewrite !orb_false_r. }
  rewrite span_app_free by exact Hn. rewrite Hdel.
  destruct (span_Forall _ (is_char "/") p Hq) as [_ Hq'].
  destruct (span_Forall _ (is_char "/") p Hf) as [_ Hf'].
  assert (Hpath : path_of (snd (span_until (is_char "/") p))
                  = snd (span_until (is_char "/") p)).
  { unfold path_of. rewrite (span_free _ _ Hf'). cbn [fst].
    now rewrite (span_free _ _ Hq'). }
  rewrite Hpath. f_equal.
  destruct (in_uses_params (x :: s')); [|reflexivity].
  apply strip_params_tail with (fst (span_until (is_char "/") p)).
  - rewrite span_app_eq. now apply Hpar.
  - destruct (snd (span_until (is_char "/") p)) as [|c r] eqn:E; [exact I|].
    apply span_snd_head in E. now apply eqc_true in E.
Qed.

Lemma normalize_chars_parts url0 :
  normalize_chars url0 =
    let '(s, n, p) := parts url0 in s ++ [":"; "/"; "/"]%char ++ n ++ p.
Proof.
  unfold normalize_chars. now rewrite <- urlparse_parts.
Qed.

Lemma normalize_chars_idempotent url0 :
  scheme (urlparse_chars url0) <> [] ->
  normalize_chars (normalize_chars url0) = normalize_chars url0.
Proof.
  intros Hs. pose proof (urlparse_parts url0) as Hp.
  rewrite (normalize_chars_parts url0).
  destruct (parts url0) as [[s n] p] eqn:E.
  injection Hp as Hs' _ _. rewrite Hs' in Hs.
  rewrite normalize_chars_parts.
  rewrite (canonical_parts s n p (parts_canonical url0 s n p E Hs)).
  rewrite <- (app_assoc n). now rewrite span_app_eq.
Qed.

(** *** Query and fragment do not reach the normalised URL *)

Lemma span_app_nonempty p l x y b :
  snd (span_until p l) = y :: b ->
  span_until p (l ++ x) = (fst (span_until p l), snd (span_until p l) ++ x).
Proof.
  intros E. rewrite <- (span_app_eq p l) at 1. rewrite <- app_assoc.
  apply span_unique; [apply span_fst_free|].
  rewrite E. cbn. now apply span_snd_head in E.
Qed.

Lemma good_scheme_bad_char a c t :
  scheme_char c = false -> good_scheme (a ++ c :: t) = false.
Proof.
  intros Hc. unfold good_scheme. apply andb_false_iff. right.
  rewrite forallb_app. cbn. rewrite Hc. now rewrite andb_false_r.
Qed.

Lemma scheme_split_suffix url c r :
  scheme_char c = false -> is_char ":" c = false ->
  scheme_split (url ++ c :: r)
  = (fst (scheme_split url), snd (scheme_split url) ++ c :: r).
Proof.
  intros Hsc Hcolon. unfold scheme_split.
  destruct (snd (span_until (is_char ":") url)) as [|y b] eqn:E.
  - assert (Hfree : Forall (fun x => is_char ":" x = false) url).
    { pose proof (span_fst_free (is_char ":") url) as H.
      pose proof (span_app_eq (is_char ":") url) as Happ.
      rewrite E, app_nil_r in Happ. now rewrite Happ in H. }
    rewrite (span_app_free _ _ (c :: r) Hfree). cbn [span_until].
    rewrite Hcolon. destruct (span_until (is_char ":") r) as [a2 b2].
    cbn [fst snd]. destruct b2; [reflexivity|].
    now rewrite good_scheme_bad_char.
  - rewrite (span_app_nonempty _ _ (c :: r) y b E). rewrite E. cbn [fst snd app].
    destruct (good_scheme (fst (span_until (is_char ":") url))); reflexivity.
Qed.

Lemma authority_split_suffix rest c r :
  c = "?"%char \/ c = "#"%char ->
  authority_split (rest ++ c :: r)
  = (fst (authority_split rest), snd (authority_split rest) ++ c :: r).
Proof.
  intros Hc.
  assert (Hd : is_delim c = true) by (destruct Hc as [-> | ->]; reflexivity).
  destruct rest as [|c1 rest1].
  { destruct Hc as [-> | ->]; reflexivity. }
  destruct (ascii_dec c1 "/") as [->|N1].
  2:{ unfold authority_split. cbn [app].
      destruct c1 as [[] [] [] [] [] [] [] []]; try reflexivity. congruence. }
  destruct rest1 as [|c2 q].
  { destruct Hc as [-> | ->]; reflexivity. }
  destruct (ascii_dec c2 "/") as [->|N2].
  2:{ unfold authority_split. cbn [app].
      destruct c2 as [[] [] [] [] [] [] [] []]; try reflexivity. congruence. }
  cbn [app authority_split]. now apply span_app_hit.
Qed.

Lemma path_of_suffix rest c r :
  c = "?"%char \/ c = "#"%char ->
  Forall (fun x => is_char "?" x = false) rest ->
  Forall (fun x => is_char "#" x = false) rest ->
  path_of (rest ++ c :: r) = rest /\ path_of rest = rest.
Proof.
  intros Hc Hq Hf. unfold path_of. split.
  - destruct Hc as [-> | ->].
    + rewrite (span_app_free _ _ _ Hf). cbn [span_until].
      replace (is_char "#" "?") with false by reflexivity.
      destruct (span_until (is_char "#") r) as [a3 b3]. cbn [fst].
      now rewrite span_unique.
    + rewrite span_unique by (auto; reflexivity). cbn [fst].
      now rewrite span_free.
  - rewrite (span_free _ _ Hf). cbn [fst]. now rewrite span_free.
Qed.

Lemma remove_unsafe_Forall (Q : ascii -> Prop) l :
  Forall Q l -> Forall Q (remove_unsafe l).
Proof.
  rewrite !List.Forall_forall. intros H x Hx. apply H.
  unfold remove_unsafe in Hx. now apply filter_In in Hx.
Qed.

Lemma lstrip_Forall (Q : ascii -> Prop) p l :
  Forall Q l -> Forall Q (lstrip p l).
Proof.
  intros H. destruct (lstrip_suffix p l) as [t Ht].
  rewrite Ht in H. now apply Forall_app in H.
Qed.

Lemma parts_drop_suffix base c r :
  c = "?"%char \/ c = "#"%char ->
  Forall (fun x => is_char "?" x = false) base ->
  Forall (fun x => is_char "#" x = false) base ->
  parts (base ++ c :: r) = parts base.
Proof.
  intros Hc Hq Hf. unfold parts.
  assert (Hclean : remove_unsafe (lstrip c0_or_space (base ++ c :: r))
                   = remove_unsafe (lstrip c0_or_space base)
                     ++ c :: remove_unsafe r).
  { rewrite lstrip_app_stop by (destruct Hc as [-> | ->]; reflexivity).
    rewrite remove_unsafe_app. f_equal.
    destruct Hc as [-> | ->]; reflexivity. }
  rewrite Hclean.
  pose proof (remove_unsafe_Forall _ _ (lstrip_Forall _ c0_or_space _ Hq)) as Hq1.
  pose proof (remove_unsafe_Forall _ _ (lstrip_Forall _ c0_or_space _ Hf)) as Hf1.
  set (url := remove_unsafe (lstrip c0_or_space base)) in *.
  rewrite scheme_split_suffix by (destruct Hc as [-> | ->]; reflexivity).
  destruct (scheme_split url) as [s rest] eqn:Hs. cbn [fst snd].
  pose proof (scheme_split_rest _ url s rest Hs Hq1) as Hq2.
  pose proof (scheme_split_rest _ url s rest Hs Hf1) as Hf2.
  rewrite (authority_split_suffix rest c _ Hc).
  destruct (authority_split rest) as [n rest'] eqn:Ha. cbn [fst snd].
  destruct (authority_split_Forall _ rest n rest' Ha Hq2) as (_ & Hq3 & _).
  destruct (authority_split_Forall _ rest n rest' Ha Hf2) as (_ & Hf3 & _).
  destruct (path_of_suffix rest' c (remove_unsafe r) Hc Hq3 Hf3) as [-> ->].
  reflexivity.
Qed.

Lemma normalize_chars_drop_suffix base c r :
  c = "?"%char \/ c = "#"%char ->
  Forall (fun x => x <> "?"%char /\ x <> "#"%char) base ->
  normalize_chars (base ++ c :: r) = normalize_chars base.
Proof.
  intros Hc Hb. rewrite !normalize_chars_parts.
  rewrite parts_drop_suffix; auto.
  - eapply Forall_impl; [exact Hb|]. intros x [H _]. now apply eqc_false.
  - eapply Forall_impl; [exact Hb|]. intros x [_ H]. now apply eqc_false.
Qed.

(** *** From character lists to strings *)

Lemma string_of_list_ascii_app a b :
  string_of_list_ascii (a ++ b)
  = string_of_list_ascii a +:+ string_of_list_ascii b.
Proof. induction a as [|x a IH]; cbn; [reflexivity | now rewrite IH]. Qed.

Lemma list_ascii_of_string_app a b :
  list_ascii_of_string (a +:+ b)
  = list_ascii_of_string a ++ list_ascii_of_string b.
Proof.
  induction a as [|x a IH]; [reflexivity|].
  change (String x a +:+ b) with (String x (a +:+ b)).
  cbn. f_equal. exact IH.
Qed.

Lemma normalize_url_chars u :
  Crawler.normalize_url py_urlparse u
  = string_of_list_ascii (normalize_chars (list_ascii_of_string u)).
Proof.
  unfold Crawler.normalize_url, py_urlparse, normalize_chars.
  cbn [p_scheme p_netloc p_path].
  now rewrite !string_of_list_ascii_app.
Qed.

End UrlFacts.




(** ** The crawl loop *)

Section CrawlerFacts.
Import Crawler.

Variable urlparse : string -> parsed_url.
Variable http_get : nat -> string -> option string.
Variable anchors : string -> list string.
Variable urljoin : string -> string -> string.
Variable set_rank : gset string -> string -> nat.
Variable base_url : string.
Variable max_pages : nat.

#[local] Abbreviation body :=
  (crawl_body urlparse http_get anchors urljoin set_rank base_url).
#[local] Abbreviation cond := (loop_cond max_pages).
#[local] Abbreviation start := (init base_url).
#[local] Abbreviation valid := (is_valid_url urlparse base_url).
#[local] Abbreviation normalize := (normalize_url urlparse).
#[local] Abbreviation links_of := (extract_links urlparse anchors urljoin base_url).
#[local] Abbreviation reach :=
  (reachable urlparse http_get anchors urljoin set_rank base_url max_pages).
#[local] Abbreviation step_case :=
  (body_case urlparse http_get anchors urljoin set_rank base_url).

Lemma elem_of_set_iter (s : gset string) u : u ∈ set_iter set_rank s ↔ u ∈ s.
Proof.
  unfold set_iter. rewrite merge_sort_Permutation. apply elem_of_elements.
Qed.

Lemma NoDup_set_iter (s : gset string) : NoDup (set_iter set_rank s).
Proof.
  unfold set_iter. rewrite merge_sort_Permutation. apply NoDup_elements.
Qed.

Lemma extract_links_valid html b u :
  u ∈ links_of html b -> valid u = true.
Proof.
  unfold extract_links. revert u.
  cut (forall v, v ∈ (∅ : gset string) -> valid v = true);
    [|intros v Hv; now apply not_elem_of_empty in Hv].
  generalize (∅ : gset string) as acc. generalize (anchors html) as l.
  induction l as [|h l IH]; intros acc Hacc; cbn [fold_left]; [exact Hacc|].
  apply IH. intros w. cbv zeta.
  destruct (valid (normalize (urljoin b h))) eqn:E; [|apply Hacc].
  rewrite elem_of_union, elem_of_singleton.
  intros [->|Hw]; [exact E | now apply Hacc].
Qed.

(** What the enqueue loop does to the queue: it appends, in iteration
    order, the page links that are not in [visited]. *)
Lemma enqueue_links_spec visited (page_links : gset string) queue :
  enqueue_links set_rank visited page_links queue =
  queue ++ filter (fun l => l ∉ visited) (set_iter set_rank page_links).
Proof.
  unfold enqueue_links. generalize (set_iter set_rank page_links) as ls.
  intros ls. revert queue.
  induction ls as [|l ls IH]; intros queue; cbn [fold_left].
  - now rewrite app_nil_r.
  - rewrite IH. destruct (decide (l ∈ visited)) as [Hin|Hin].
    + rewrite filter_cons_False by (intros H; now apply H). reflexivity.
    + rewrite filter_cons_True by exact Hin.
      now rewrite <- app_assoc.
Qed.

Lemma elem_of_enqueue_links visited (page_links : gset string) queue u :
  u ∈ enqueue_links set_rank visited page_links queue ↔
  u ∈ queue ∨ (u ∈ page_links ∧ u ∉ visited).
Proof.
  rewrite enqueue_links_spec, elem_of_app, list_elem_of_filter.
  rewrite elem_of_set_iter. tauto.
Qed.

Lemma body_cases st : step_case st (body st).
Proof.
  unfold crawl_body. destruct (to_visit st) as [|u rest] eqn:Hq.
  - now apply case_idle.
  - simpl. destruct (decide (u ∈ visited_urls st)) as [Hin|Hin].
    + now apply case_skip with u.
    + unfold get_page_content; simpl.
      destruct (http_get (length (requests st)) u) as [[|c html]|] eqn:Hget.
      * now apply case_empty.
      * now apply case_page.
      * now apply case_error.
Qed.


(** *** Invariants of the loop *)

Lemma valid_base_url : valid base_url = true.
Proof. unfold is_valid_url, domain. now apply bool_decide_eq_true_2. Qed.

Lemma fetched_app st u ok :
  fetched (mkCrawler (visited_urls st) (all_links st) (to_visit st)
             (failed_urls st) (pages_crawled st) (requests st ++ [(u, ok)]))
  = fetched st ++ [u].
Proof. unfold fetched; cbn. now rewrite fmap_app. Qed.

Lemma fetched_ok_snoc (rs : list (string * bool)) u ok :
  (List.filter snd (rs ++ [(u, ok)])).*1 =
  (List.filter snd rs).*1 ++ (if ok then [u] else []).
Proof.
  rewrite List.filter_app, fmap_app. cbn. now destruct ok.
Qed.

#[local] Abbreviation in_domain := (Crawler.in_domain urlparse base_url).
#[local] Abbreviation visit_log := Crawler.visit_log.

Lemma in_domain_init : in_domain start.
Proof.
  unfold Crawler.in_domain.
  split; [|split]; cbn; intros u Hu.
  - apply list_elem_of_singleton in Hu as ->. apply valid_base_url.
  - now apply not_elem_of_empty in Hu.
  - now apply elem_of_nil in Hu.
Qed.

Lemma in_domain_body st : in_domain st -> in_domain (body st).
Proof.
  intros (Hq & Hl & Hr).
  assert (Hlog : forall u rest ok v,
            to_visit st = u :: rest ->
            v ∈ (requests st ++ [(u, ok)]).*1 -> valid v = true).
  { intros u rest ok v Hst. rewrite fmap_app, elem_of_app. cbn.
    rewrite list_elem_of_singleton. intros [Hv| ->]; [now apply Hr|].
    apply Hq. rewrite Hst. apply list_elem_of_here. }
  destruct (body_cases st) as [Hst|u rest Hst Hin|u rest Hst Hin Hget
                              |u rest Hst Hin Hget|u rest html Hst Hin Hget Hne];
    unfold Crawler.in_domain;
    (split; [|split]); unfold fetched; cbn; intros v Hv; eauto.
  - apply Hq. rewrite Hst. now apply list_elem_of_further.
  - apply Hq. rewrite Hst. now apply list_elem_of_further.
  - apply Hq. rewrite Hst. now apply list_elem_of_further.
  - apply elem_of_enqueue_links in Hv as [Hv|[Hv _]].
    + apply Hq. rewrite Hst. now apply list_elem_of_further.
    + now apply extract_links_valid in Hv.
  - apply elem_of_union in Hv as [Hv|Hv]; [now apply Hl|].
    now apply extract_links_valid in Hv.
Qed.

Lemma reachable_in_domain st : reach st -> in_domain st.
Proof.
  induction 1 as [|st _ IH _]; [apply in_domain_init | now apply in_domain_body].
Qed.

Lemma visit_log_init : visit_log start.
Proof. split; [|split]; cbn; [reflexivity|constructor|reflexivity]. Qed.

Lemma visit_log_body st : visit_log st -> visit_log (body st).
Proof.
  intros (Hv & Hn & Hp).
  destruct (body_cases st) as [Hst|u rest Hst Hin|u rest Hst Hin Hget
                              |u rest Hst Hin Hget|u rest html Hst Hin Hget Hne];
    unfold Crawler.visit_log, fetched_ok in *; cbn;
    rewrite ?fetched_ok_snoc, ?app_nil_r; auto.
  split; [|split].
  - rewrite list_to_set_app_L, Hv. cbn. set_solver.
  - apply NoDup_app. split; [exact Hn|]. split; [|apply NoDup_singleton].
    intros v Hv1 Hv2. apply list_elem_of_singleton in Hv2 as ->.
    apply Hin. rewrite Hv. now apply elem_of_list_to_set.
  - rewrite length_app, Hp. cbn. lia.
Qed.

Lemma reachable_visit_log st : reach st -> visit_log st.
Proof.
  induction 1 as [|st _ IH _]; [apply visit_log_init | now apply visit_log_body].
Qed.

Lemma visit_log_size st : visit_log st -> size (visited_urls st) = pages_crawled st.
Proof.
  intros (Hv & Hn & Hp). rewrite Hv, Hp. now apply size_list_to_set.
Qed.

Lemma pages_crawled_body st :
  pages_crawled st <= pages_crawled (body st) <= S (pages_crawled st).
Proof. destruct (body_cases st); cbn; lia. Qed.

Lemma cond_true st :
  cond st = true <-> to_visit st <> [] /\ pages_crawled st < max_pages.
Proof.
  unfold loop_cond. rewrite andb_true_iff, Nat.ltb_lt.
  destruct (to_visit st); split; intros [H1 H2]; split; auto; congruence.
Qed.

Lemma cond_false st :
  cond st = false <-> to_visit st = [] \/ max_pages <= pages_crawled st.
Proof.
  unfold loop_cond. rewrite andb_false_iff, Nat.ltb_ge.
  destruct (to_visit st); split; intros [H|H]; auto; congruence.
Qed.

Lemma reachable_budget st : reach st -> pages_crawled st <= max_pages.
Proof.
  induction 1 as [|st _ IH Hc]; cbn; [lia|].
  apply cond_true in Hc as [_ Hc]. pose proof (pages_crawled_body st). lia.
Qed.

Lemma visited_mono st : visited_urls st ⊆ visited_urls (body st).
Proof. destruct (body_cases st); cbn; set_solver. Qed.

Lemma all_links_mono st : all_links st ⊆ all_links (body st).
Proof. destruct (body_cases st); cbn; set_solver. Qed.

(** *** The states of a run *)

#[local] Abbreviation state_after :=
  (after urlparse http_get anchors urljoin set_rank base_url).

Lemma after_S k : state_after (S k) = body (state_after k).
Proof. reflexivity. Qed.

Lemma reachable_after k :
  (forall j, j < k -> cond (state_after j) = true) -> reach (state_after k).
Proof.
  induction k as [|k IH]; intros Hc; [apply reach_init|].
  rewrite after_S. apply reach_step; [apply IH; intros; apply Hc; lia|].
  apply Hc; lia.
Qed.

Lemma all_links_after_mono i j :
  i <= j -> all_links (state_after i) ⊆ all_links (state_after j).
Proof.
  induction 1 as [|j _ IH]; [reflexivity|].
  rewrite after_S. etransitivity; [exact IH | apply all_links_mono].
Qed.

Lemma visited_after_mono i j :
  i <= j -> visited_urls (state_after i) ⊆ visited_urls (state_after j).
Proof.
  induction 1 as [|j _ IH]; [reflexivity|].
  rewrite after_S. etransitivity; [exact IH | apply visited_mono].
Qed.

(** *** Termination *)

Lemma crawl_loop_total b : forall q st,
  max_pages - pages_crawled st <= b -> length (to_visit st) <= q ->
  exists fuel st',
    crawl_loop urlparse http_get anchors urljoin set_rank base_url max_pages
      fuel st = Some st'.
Proof.
  induction b as [|b IHb].
  - intros q st Hb _. exists 0, st. cbn.
    replace (cond st) with false; [reflexivity|].
    symmetry. apply cond_false. right. lia.
  - induction q as [|q IHq]; intros st Hb Hq.
    + exists 0, st. cbn. replace (cond st) with false; [reflexivity|].
      symmetry. apply cond_false. left.
      destruct (to_visit st); [reflexivity | cbn in Hq; lia].
    + destruct (cond st) eqn:Hc;
        [|exists 0, st; cbn; now rewrite Hc].
      apply cond_true in Hc as Hc'. destruct Hc' as [Hne Hlt].
      assert (Hnext : exists fuel st',
                 crawl_loop urlparse http_get anchors urljoin set_rank base_url
                   max_pages fuel (body st) = Some st').
      { destruct (body_cases st) as [Hst|u rest Hst Hin|u rest Hst Hin Hget
                              |u rest Hst Hin Hget|u rest html Hst Hin Hget Hn];
          try congruence;
          try (apply IHq; cbn; [lia | rewrite Hst in Hq; cbn in Hq; lia]).
        apply (IHb (length (enqueue_links set_rank ({[u]} ∪ visited_urls st)
                              (links_of html u) rest))); cbn; lia. }
      destruct Hnext as (fuel & st' & Hrun).
      exists (S fuel), st'. cbn. now rewrite Hc.
Qed.

Lemma crawl_loop_trace fuel : forall st st',
  crawl_loop urlparse http_get anchors urljoin set_rank base_url max_pages
    fuel st = Some st' ->
  exists k, st' = Nat.iter k body st /\
            (forall j, j < k -> cond (Nat.iter j body st) = true) /\
            cond st' = false.
Proof.
  induction fuel as [|fuel IH]; intros st st'; cbn;
    destruct (cond st) eqn:Hc; try discriminate.
  - intros [= <-]. exists 0. repeat split; auto. intros; lia.
  - intros Hrun. apply IH in Hrun as (k & -> & Hbefore & Hstop).
    exists (S k). rewrite Nat.iter_succ_r. repeat split; auto.
    intros [|j] Hj; [exact Hc|]. rewrite Nat.iter_succ_r. apply Hbefore. lia.
  - intros [= <-]. exists 0. repeat split; auto. intros; lia.
Qed.

(** *** The claims about the frontier *)

Lemma body_skip st u rest :
  to_visit st = u :: rest -> u ∈ visited_urls st ->
  body st = mkCrawler (visited_urls st) (all_links st) rest (failed_urls st)
              (pages_crawled st) (requests st).
Proof.
  intros Hst Hin. unfold crawl_body. rewrite Hst. cbn.
  destruct (decide (u ∈ visited_urls st)); [reflexivity | contradiction].
Qed.

Lemma body_error st u rest :
  to_visit st = u :: rest -> u ∉ visited_urls st ->
  http_get (length (requests st)) u = None ->
  body st = mkCrawler (visited_urls st) (all_links st) rest
              (failed_urls st ++ [u]) (pages_crawled st)
              (requests st ++ [(u, false)]).
Proof.
  intros Hst Hin Hget. unfold crawl_body. rewrite Hst. cbn.
  destruct (decide (u ∈ visited_urls st)); [contradiction|].
  unfold get_page_content. cbn. now rewrite Hget.
Qed.

Lemma body_page st u rest html :
  to_visit st = u :: rest -> u ∉ visited_urls st ->
  http_get (length (requests st)) u = Some html -> html <> "" ->
  body st = mkCrawler ({[u]} ∪ visited_urls st)
              (all_links st ∪ links_of html u)
              (enqueue_links set_rank ({[u]} ∪ visited_urls st)
                 (links_of html u) rest)
              (failed_urls st) (S (pages_crawled st))
              (requests st ++ [(u, true)]).
Proof.
  intros Hst Hin Hget Hne. unfold crawl_body. rewrite Hst. cbn.
  destruct (decide (u ∈ visited_urls st)); [contradiction|].
  unfold get_page_content. cbn. rewrite Hget.
  destruct html; [congruence | reflexivity].
Qed.

(** C1 (as the code has it).  When a page is fetched, the links appended
    to the queue are exactly the page links that are not in [visited_urls]
    (the gate is the visited set, not [all_links]: a link that is already
    discovered or already queued is appended again); [all_links] is a set,
    so a URL is in it once; and in every reachable state each URL has
    returned a page at most once, [visited_urls] being exactly those URLs. *)
Theorem enqueue_gate_is_visited st u rest html :
  reach st ->
  to_visit st = u :: rest -> u ∉ visited_urls st ->
  http_get (length (requests st)) u = Some html -> html <> "" ->
  to_visit (body st) =
    rest ++ filter (fun l => l ∉ visited_urls (body st))
              (set_iter set_rank (links_of html u)) /\
  visited_urls (body st) = {[u]} ∪ visited_urls st /\
  all_links (body st) = all_links st ∪ links_of html u /\
  NoDup (elements (all_links (body st))) /\
  NoDup (fetched_ok (body st)) /\
  visited_urls (body st) = list_to_set (fetched_ok (body st)).
Proof.
  intros Hreach Hst Hin Hget Hne.
  destruct (visit_log_body st (reachable_visit_log st Hreach)) as (Hv & Hn & _).
  rewrite (body_page st u rest html Hst Hin Hget Hne) in *. cbn in *.
  rewrite enqueue_links_spec.
  repeat split; auto. apply NoDup_elements.
Qed.

(** C4 (as the code has it).  Along every run [visited_urls] and
    [all_links] only grow, a URL enters [all_links] at one step at most,
    [visited_urls] holds exactly the URLs that returned a page, each once;
    the queue may hold URLs that are already visited, and such an entry is
    dropped when it is popped, without a request. *)
Theorem frontier_invariant k :
  visited_urls (state_after k) ⊆ visited_urls (state_after (S k)) /\
  all_links (state_after k) ⊆ all_links (state_after (S k)) /\
  NoDup (fetched_ok (state_after k)) /\
  visited_urls (state_after k) = list_to_set (fetched_ok (state_after k)) /\
  (forall i j u,
     u ∉ all_links (state_after i) -> u ∈ all_links (state_after (S i)) ->
     u ∉ all_links (state_after j) -> u ∈ all_links (state_after (S j)) ->
     i = j) /\
  (forall u rest,
     to_visit (state_after k) = u :: rest ->
     u ∈ visited_urls (state_after k) ->
     state_after (S k) =
       mkCrawler (visited_urls (state_after k)) (all_links (state_after k))
         rest (failed_urls (state_after k)) (pages_crawled (state_after k))
         (requests (state_after k))).
Proof.
  assert (Hlog : visit_log (state_after k)).
  { induction k as [|n IH]; [apply visit_log_init|].
    rewrite after_S. now apply visit_log_body. }
  destruct Hlog as (Hv & Hn & _).
  rewrite after_S. repeat split; auto using visited_mono, all_links_mono.
  - intros i j u Hi Hi' Hj Hj'.
    destruct (Nat.lt_trichotomy i j) as [Hlt|[Heq|Hlt]]; [|exact Heq|].
    + exfalso. apply Hj. apply (all_links_after_mono (S i) j); [lia|exact Hi'].
    + exfalso. apply Hi. apply (all_links_after_mono (S j) i); [lia|exact Hj'].
  - intros u rest Hst Hin. now apply body_skip with u.
Qed.

(** C5 (as the code has it).  When the request for the popped URL raises,
    the URL is appended to [failed_urls] and logged, the page counter and
    [visited_urls] are left as they were (the URL is not marked visited),
    and the loop goes on with the rest of the queue. *)
Theorem failed_fetch_not_visited st u rest :
  to_visit st = u :: rest -> u ∉ visited_urls st ->
  http_get (length (requests st)) u = None ->
  failed_urls (body st) = failed_urls st ++ [u] /\
  visited_urls (body st) = visited_urls st /\
  (u ∉ visited_urls (body st)) /\
  pages_crawled (body st) = pages_crawled st /\
  to_visit (body st) = rest /\
  all_links (body st) = all_links st /\
  fetched (body st) = fetched st ++ [u].
Proof.
  intros Hst Hin Hget. rewrite (body_error st u rest Hst Hin Hget).
  unfold fetched. cbn. rewrite fmap_app. repeat split; auto.
Qed.

(** C6.  In every reachable state of the crawl, a URL whose host differs
    from the target host is not in the queue, not in [all_links] and has
    never been requested. *)
Theorem out_of_domain_never_enqueued st u :
  reach st ->
  p_netloc (urlparse u) <> domain urlparse base_url ->
  (u ∉ to_visit st) /\ (u ∉ all_links st) /\ (u ∉ fetched st).
Proof.
  intros Hreach Hhost.
  destruct (reachable_in_domain st Hreach) as (Hq & Hl & Hr).
  assert (Hno : valid u <> true).
  { unfold is_valid_url. intros Hv. now apply bool_decide_eq_true in Hv. }
  repeat split; intros Hin; apply Hno; auto.
Qed.


End CrawlerFacts.

(** ** The example site *)

Import Crawler.

Ltac by_evaluation :=
  lazymatch goal with
  | |- @eq _ _ _ => vm_compute; reflexivity
  | |- ?P =>
      let d := constr:(_ : Decision P) in
      refine (@bool_decide_unpack P d _); vm_compute; exact I
  end.

Ltac split_all := repeat match goal with |- _ /\ _ => split end.

Lemma site_reachable dead k :
  (forall j, j < k -> loop_cond 10 (site_after dead j) = true) ->
  reachable py_urlparse (site_get dead) site_anchors urljoin_absolute no_rank
    url_root 10 (site_after dead k).
Proof. apply reachable_after. Qed.

Lemma below_cases (P : nat -> Prop) k :
  Forall P (seq 0 k) -> forall j, j < k -> P j.
Proof.
  intros H j Hj. rewrite Forall_forall in H. apply H.
  apply elem_of_seq. lia.
Qed.

(** A run of the site in which [/c] is dead: the crawl ends after four
    iterations, having requested [/c] twice; and in the run with every page
    alive, [/b] is already in [all_links] (and in the queue) when the page
    [/c] is processed, and it is appended to the queue again. *)
Lemma C1_counterexample :
  crawl py_urlparse (site_get [url_c]) site_anchors urljoin_absolute no_rank
    url_root 10 4 = Some (site_after [url_c] 4) /\
  fetched (site_after [url_c] 4) = [url_root; url_c; url_b; url_c] /\
  url_b ∈ all_links (site_after [] 1) /\
  to_visit (site_after [] 1) = [url_c; url_b] /\
  to_visit (site_after [] 2) = [url_b; url_b].
Proof. split_all; by_evaluation. Qed.

Lemma enqueue_gate_is_visited_witness :
  to_visit (site_after [] 2) =
    [url_b] ++ filter (fun l => l ∉ visited_urls (site_after [] 2))
                 (set_iter no_rank
                    (extract_links py_urlparse site_anchors urljoin_absolute
                       url_root "<c>" url_c)) /\
  visited_urls (site_after [] 2) = {[url_c]} ∪ visited_urls (site_after [] 1) /\
  all_links (site_after [] 2) =
    all_links (site_after [] 1)
    ∪ extract_links py_urlparse site_anchors urljoin_absolute url_root
        "<c>" url_c /\
  NoDup (elements (all_links (site_after [] 2))) /\
  NoDup (fetched_ok (site_after [] 2)) /\
  visited_urls (site_after [] 2) = list_to_set (fetched_ok (site_after [] 2)).
Proof.
  apply (enqueue_gate_is_visited py_urlparse (site_get []) site_anchors
           urljoin_absolute no_rank url_root 10 (site_after [] 1)
           url_c [url_b] "<c>").
  - apply site_reachable. apply below_cases. repeat constructor.
  - by_evaluation.
  - by_evaluation.
  - by_evaluation.
  - discriminate.
Defined.

(** After three iterations on the site, [/b] is in the queue and in
    [visited_urls]. *)
Lemma C4_counterexample :
  reachable py_urlparse (site_get []) site_anchors urljoin_absolute no_rank
    url_root 10 (site_after [] 3) /\
  url_b ∈ to_visit (site_after [] 3) /\
  url_b ∈ visited_urls (site_after [] 3).
Proof.
  split; [|split; by_evaluation].
  apply site_reachable. apply below_cases. repeat constructor.
Qed.

Lemma frontier_invariant_witness :
  visited_urls (site_after [] 3) ⊆ visited_urls (site_after [] 4) /\
  site_after [] 4 =
    mkCrawler (visited_urls (site_after [] 3)) (all_links (site_after [] 3))
      [] (failed_urls (site_after [] 3)) (pages_crawled (site_after [] 3))
      (requests (site_after [] 3)).
Proof.
  destruct (frontier_invariant py_urlparse (site_get []) site_anchors
              urljoin_absolute no_rank url_root 3)
    as (Hv & _ & _ & _ & _ & Hskip).
  split; [exact Hv|].
  apply (Hskip url_b []); by_evaluation.
Defined.

(** On the site with [/c] dead, the failed request leaves [/c] in
    [failed_urls] and out of [visited_urls], and [/c] is requested a second
    time later in the same run. *)
Lemma C5_counterexample :
  reachable py_urlparse (site_get [url_c]) site_anchors urljoin_absolute
    no_rank url_root 10 (site_after [url_c] 2) /\
  failed_urls (site_after [url_c] 2) = [url_c] /\
  (url_c ∉ visited_urls (site_after [url_c] 2)) /\
  fetched (site_after [url_c] 4) = [url_root; url_c; url_b; url_c] /\
  (url_c ∉ visited_urls (site_after [url_c] 4)).
Proof.
  split; [|split_all; by_evaluation].
  apply site_reachable. apply below_cases. repeat constructor.
Qed.

Lemma failed_fetch_not_visited_witness :
  failed_urls (site_after [url_c] 2) = failed_urls (site_after [url_c] 1) ++ [url_c] /\
  visited_urls (site_after [url_c] 2) = visited_urls (site_after [url_c] 1) /\
  (url_c ∉ visited_urls (site_after [url_c] 2)) /\
  pages_crawled (site_after [url_c] 2) = pages_crawled (site_after [url_c] 1) /\
  to_visit (site_after [url_c] 2) = [url_b] /\
  all_links (site_after [url_c] 2) = all_links (site_after [url_c] 1) /\
  fetched (site_after [url_c] 2) = fetched (site_after [url_c] 1) ++ [url_c].
Proof.
  apply (failed_fetch_not_visited py_urlparse (site_get [url_c]) site_anchors
           urljoin_absolute no_rank url_root (site_after [url_c] 1)
           url_c [url_b]); by_evaluation.
Defined.

Lemma out_of_domain_never_enqueued_witness :
  p_netloc (py_urlparse url_ext) <> domain py_urlparse url_root /\
  (url_ext ∉ to_visit (site_after [] 1)) /\
  (url_ext ∉ all_links (site_after [] 1)) /\
  (url_ext ∉ fetched (site_after [] 1)).
Proof.
  assert (H : p_netloc (py_urlparse url_ext) <> domain py_urlparse url_root)
    by by_evaluation.
  split; [exact H|].
  apply (out_of_domain_never_enqueued py_urlparse (site_get []) site_anchors
           urljoin_absolute no_rank url_root 10 (site_after [] 1) url_ext);
    [|exact H].
  apply site_reachable. apply below_cases. repeat constructor.
Defined.

(** With a budget of one page the crawl of the site returns after the first
    page and leaves the two discovered URLs in the queue. *)
Example crawl_budget_one :
  exists st,
    crawl py_urlparse (site_get []) site_anchors urljoin_absolute no_rank
      url_root 1 1 = Some st /\
    to_visit st = [url_c; url_b] /\ elements (visited_urls st) = [url_root].
Proof. eexists. split; [vm_compute; reflexivity|]. split; by_evaluation. Qed.

(** ** Keyword search *)

Section SearchFacts.
Import Search.

Variable ratio : string -> string -> Z.
Variable partial_ratio : string -> string -> Z.
Variable lower : string -> string.

#[local] Abbreviation score_of := (score_item ratio partial_ratio lower).
#[local] Abbreviation spec_score := (weighted_score ratio partial_ratio lower).

Lemma scan_list_score (w : Q) (label : string) q thr xs : forall acc,
  (fst (fold_left
          (fun '(score, matches) x =>
             let similarity := ratio q (lower x) in
             if (similarity >? thr)%Z
             then ((score + inject_Z similarity * w)%Q,
                   matches ++ [label +:+ x])
             else (score, matches)) xs acc)
   == fst acc + sumQ (map (fun x => contribution w thr (ratio q (lower x))) xs))%Q.
Proof.
  induction xs as [|x xs IH]; intros [score ms]; cbn [fold_left map sumQ foldr fst].
  - ring.
  - rewrite IH. unfold sumQ.
    set (rest := foldr Qplus 0%Q _). unfold contribution.
    destruct (ratio q (lower x) >? thr)%Z; cbn [fst]; ring.
Qed.

Lemma scan_keywords_score q thr it acc :
  (fst (scan_keywords ratio lower q thr it acc)
   == fst acc + sumQ (map (fun k => contribution 2 thr (ratio q (lower k)))
                        (get (keywords it) [])))%Q.
Proof. apply (scan_list_score 2 "keyword: "). Qed.

Lemma scan_topics_score q thr it acc :
  (fst (scan_topics ratio lower q thr it acc)
   == fst acc + sumQ (map (fun t => contribution (6 # 5) thr (ratio q (lower t)))
                        (get (main_topics it) [])))%Q.
Proof. apply (scan_list_score (6 # 5) "topic: "). Qed.

Lemma scan_description_score q thr it acc :
  (fst (scan_description partial_ratio lower q thr it acc)
   == fst acc + text_contribution partial_ratio lower 1 q thr
                  (get (description it) ""))%Q.
Proof.
  destruct acc as [score ms].
  unfold scan_description, text_contribution, contribution.
  destruct (get (description it) "") as [|c d]; cbn [fst]; [ring|].
  destruct (partial_ratio q (lower (String c d)) >? thr)%Z; cbn [fst]; ring.
Qed.

Lemma scan_title_score q thr it acc :
  (fst (scan_title partial_ratio lower q thr it acc)
   == fst acc + text_contribution partial_ratio lower (3 # 2) q thr
                  (get (title it) ""))%Q.
Proof.
  destruct acc as [score ms].
  unfold scan_title, text_contribution, contribution.
  destruct (get (title it) "") as [|c d]; cbn [fst]; [ring|].
  destruct (partial_ratio q (lower (String c d)) >? thr)%Z; cbn [fst]; ring.
Qed.

(** The score the loop accumulates is the weighted sum of the
    contributions. *)
Lemma score_item_spec query thr it :
  (fst (score_of (lower query) thr it) == spec_score query thr it)%Q.
Proof.
  unfold score_item, weighted_score.
  rewrite scan_topics_score, scan_title_score, scan_description_score,
    scan_keywords_score.
  cbn [fst]. ring.
Qed.

(** *** The sort *)

Lemma insert_desc_perm x l : insert_desc x l ≡ₚ x :: l.
Proof.
  induction l as [|y l IH]; cbn; [reflexivity|].
  destruct (Qlt_le_dec (search_score x) (search_score y)); [|reflexivity].
  rewrite IH. apply Permutation_swap.
Qed.

Lemma sort_desc_perm l : sort_desc l ≡ₚ l.
Proof.
  induction l as [|x l IH]; cbn; [reflexivity|].
  rewrite insert_desc_perm. now rewrite IH.
Qed.

Lemma insert_desc_sorted x l :
  Sorted score_ge l -> Sorted score_ge (insert_desc x l).
Proof.
  induction 1 as [|y l Hs IH Hhd]; cbn; [repeat constructor|].
  destruct (Qlt_le_dec (search_score x) (search_score y)) as [Hlt|Hle].
  - constructor; [exact IH|].
    destruct l as [|z l]; cbn.
    + constructor. unfold score_ge. now apply Qlt_le_weak.
    + destruct (Qlt_le_dec (search_score x) (search_score z)).
      * constructor. now inversion Hhd.
      * constructor. unfold score_ge. now apply Qlt_le_weak.
  - constructor; [now constructor|]. constructor. exact Hle.
Qed.

Lemma sort_desc_sorted l : Sorted score_ge (sort_desc l).
Proof.
  induction l as [|x l IH]; cbn; [constructor | now apply insert_desc_sorted].
Qed.

#[local] Instance score_ge_trans : Transitive score_ge.
Proof. intros a b c Hab Hbc. unfold score_ge in *. now apply Qle_trans with (search_score b). Qed.

(** *** The scan of the index *)

Lemma elem_of_collect q thr data r :
  r ∈ collect ratio partial_ratio lower q thr data <->
  exists it, it ∈ data /\
    r = mkResult it (fst (score_of q thr it)) (snd (score_of q thr it)) /\
    (0 < fst (score_of q thr it))%Q.
Proof.
  unfold collect.
  assert (G : forall acc,
    r ∈ fold_left
          (fun results it =>
             let '(score, matches) := score_of q thr it in
             if Qlt_le_dec 0 score then results ++ [mkResult it score matches]
             else results) data acc <->
    r ∈ acc \/
    exists it, it ∈ data /\
      r = mkResult it (fst (score_of q thr it)) (snd (score_of q thr it)) /\
      (0 < fst (score_of q thr it))%Q).
  { induction data as [|it data IH]; intros acc; cbn [fold_left].
    - split; [now left|]. intros [H|(it & Hin & _)]; [exact H|].
      now apply elem_of_nil in Hin.
    - rewrite IH. destruct (score_of q thr it) as [sc ms] eqn:E. cbn [fst snd].
      destruct (Qlt_le_dec 0 sc) as [Hpos|Hle].
      + rewrite elem_of_app, list_elem_of_singleton. split.
        * intros [[H | ->]|(it' & Hin & Hr)]; [now left| |].
          -- right. exists it. rewrite E. cbn. split; [apply list_elem_of_here|auto].
          -- right. exists it'. split; [now apply list_elem_of_further|exact Hr].
        * intros [H|(it' & Hin & Hr & Hp)]; [now left; left|].
          apply elem_of_cons in Hin as [->|Hin].
          -- left. right. rewrite E in Hr. exact Hr.
          -- right. exists it'. auto.
      + split.
        * intros [H|(it' & Hin & Hr)]; [now left|].
          right. exists it'. split; [now apply list_elem_of_further|exact Hr].
        * intros [H|(it' & Hin & Hr & Hp)]; [now left|].
          apply elem_of_cons in Hin as [->|Hin].
          -- rewrite E in Hp. cbn in Hp. exfalso.
             now apply (Qlt_not_le _ _ Hp).
          -- right. exists it'. auto. }
  rewrite G. split; [intros [H|H]; [now apply elem_of_nil in H | exact H]|].
  intros H. now right.
Qed.


End SearchFacts.

(** A search of the example index: the second record scores
    [2 * 100 + 100 + 1.2 * 100 = 420], the first [1.5 * 100 = 150], the third
    nothing, and the results come in that order. *)
Example search_demo :
  map (fun r => (Search.url (Search.res_item r), Qred (Search.search_score r)))
    (Search.search_by_keywords Search.exact_ratio Search.exact_ratio
       (fun s => s) Search.demo_index "rocq" 70)
  = [ (Some "https://example.org/b", 420 # 1);
      (Some "https://example.org/a", 150 # 1) ]%Q.
Proof. vm_compute. reflexivity. Qed.

(** ** The content extractors *)

Module HtmlFacts.
Import Html.

Lemma elems_self_or_below n e :
  In e (elems n) -> e = n \/ In e (descendants n).
Proof.
  destruct n as [s|t a cs]; cbn; [tauto|].
  intros [<-|H]; auto.
Qed.

Lemma descendants_elems n e : In e (descendants n) -> In e (elems n).
Proof. destruct n as [s|t a cs]; cbn; auto. Qed.

(** An element below an element of a node is an element of the node. *)
Lemma elems_trans n : forall r e,
  In r (elems n) -> In e (elems r) -> In e (elems n).
Proof.
  induction n as [s|t a cs IH] using node_children_ind; intros r e; cbn;
    [tauto|].
  intros [<-|Hr] He; [exact He|]. right.
  apply in_flat_map in Hr as (c & Hc & Hr). apply in_flat_map.
  exists c. split; [exact Hc|].
  rewrite List.Forall_forall in IH. now apply (IH c Hc r e).
Qed.

Lemma all_elems_trans soup r e :
  In r (all_elems soup) -> In e (elems r) -> In e (all_elems soup).
Proof.
  unfold all_elems. intros Hr He.
  apply in_flat_map in Hr as (n & Hn & Hr). apply in_flat_map.
  exists n. split; [exact Hn | now apply elems_trans with r].
Qed.

(** After [decompose_all] no element carries one of the removed tags. *)
Lemma prune_tags names n : forall e t,
  In e (flat_map elems (prune names n)) -> tag_of e = Some t -> t ∉ names.
Proof.
  induction n as [s|t a cs IH] using node_children_ind; intros e t'; cbn;
    [tauto|].
  destruct (bool_decide (t ∈ names)) eqn:Ht; cbn; [tauto|].
  apply bool_decide_eq_false in Ht.
  rewrite app_nil_r. intros [<-|He] Htag.
  - cbn in Htag. now injection Htag as <-.
  - apply in_flat_map in He as (c' & Hc' & He).
    apply in_flat_map in Hc' as (c & Hc & Hc').
    rewrite List.Forall_forall in IH. apply (IH c Hc e t'); [|exact Htag].
    apply in_flat_map. now exists c'.
Qed.

Lemma decompose_all_tags names soup e t :
  In e (all_elems (decompose_all names soup)) -> tag_of e = Some t ->
  t ∉ names.
Proof.
  unfold all_elems, decompose_all. intros He Htag.
  apply in_flat_map in He as (c' & Hc' & He).
  apply in_flat_map in Hc' as (c & Hc & Hc').
  apply (prune_tags names c e t); [|exact Htag].
  apply in_flat_map. now exists c'.
Qed.

Lemma select_one_elem sel soup e :
  select_one sel soup = Some e -> In e (all_elems soup).
Proof. unfold select_one. intros H. now apply find_some in H. Qed.

Lemma first_selected_elem sels soup e :
  first_selected sels soup = Some e -> In e (all_elems soup).
Proof.
  induction sels as [|sel sels IH]; cbn; [discriminate|].
  destruct (select_one sel soup) as [e'|] eqn:E; [|exact IH].
  intros [= <-]. now apply select_one_elem in E.
Qed.

Lemma first_chars_length n s : String.length (Str.first_chars n s) <= n.
Proof.
  unfold Str.first_chars. revert s.
  induction n as [|n IH]; intros [|c s]; cbn; try lia.
  specialize (IH s). lia.
Qed.

End HtmlFacts.

Section ExtractorFacts.
Import Html HtmlFacts.

Variable md : node -> string.
Variable squeeze_blank_lines : string -> string.
Variable squeeze_spaces : string -> string.
Variable urlparse : string -> parsed_url.
Variable urljoin : string -> string -> string.
Variable now : string.


End ExtractorFacts.



(** ** The analyzer fallback *)

Section AnalyzerFacts.
Import Indexer.

Variable extract_clean_content : string -> option Extractor.content_data.
Variable chat : string -> string -> string -> option string.
Variable json_loads : string -> option (gmap string json).
Variable now : string.

#[local] Abbreviation analyze := (analyze_with_groq chat json_loads).
#[local] Abbreviation process :=
  (process_url extract_clean_content chat json_loads now).
#[local] Abbreviation analyzer_failed :=
  (Indexer.analyzer_failed chat json_loads).

Lemma analyzer_failed_fallback content :
  analyzer_failed content ->
  analyze content = error_analysis \/ analyze content = no_json_analysis.
Proof.
  unfold Indexer.analyzer_failed, analyze_with_groq.
  destruct (chat _ _ _) as [response|]; [|now left].
  destruct (json_match (strip response)) as [json_str|]; [|now right].
  intros ->. now left.
Qed.

(** With a fallback analysis [process_url] returns a record: it carries the
    URL, empty keywords and topics, a relevance of 0 or 0.1, quality "low",
    and the failure text in its description. *)
Lemma fallback_record url content :
  extract_clean_content url = Some content ->
  analyzer_failed content ->
  exists d,
    process url = Indexed d /\
    d !! "url" = Some (JStr url) /\
    d !! "keywords" = Some (JArr []) /\
    d !! "main_topics" = Some (JArr []) /\
    d !! "content_quality" = Some (JStr "low") /\
    ((d !! "description" = Some (JStr "Errore nell'analisi") /\
      d !! "relevance_score" = Some (JNum 0)) \/
     (d !! "description" = Some (JStr "Contenuto non analizzabile") /\
      d !! "relevance_score" = Some (JNum (1 # 10)))).
Proof.
  intros Hex Hfail. unfold process_url. rewrite Hex.
  destruct (analyzer_failed_fallback content Hfail) as [-> | ->].
  - eexists. split; [vm_compute; reflexivity|].
    repeat split; try (vm_compute; reflexivity).
    left. split; vm_compute; reflexivity.
  - eexists. split; [vm_compute; reflexivity|].
    repeat split; try (vm_compute; reflexivity).
    right. split; vm_compute; reflexivity.
Qed.

(** A record returned by [process_url] carries the URL it was called
    with. *)
Lemma process_url_url url d :
  process url = Indexed d -> d !! "url" = Some (JStr url).
Proof.
  unfold process_url. destruct (extract_clean_content url) as [c|]; [|discriminate].
  unfold build_result.
  repeat match goal with
         | |- context [item ?a ?k] => destruct (item a k); cbn [bind]
         end; try discriminate.
  intros [= <-]. apply lookup_insert_eq.
Qed.

End AnalyzerFacts.

(** C3 (the code drops the URL).  The page is fetched and extracted, the
    analyzer answers with the JSON object [{}]: [json.loads] accepts it,
    [analysis["keywords"]] raises [KeyError] in [process_url], and the
    coordinator, which gathers exceptions, appends no record for the URL. *)
Theorem incomplete_analysis_drops_url :
  Indexer.demo_extract [] "https://example.org/p00" <> None /\
  Indexer.process_url (Indexer.demo_extract []) (fun _ _ _ => Some "{}")
    Indexer.demo_json_loads "2025-01-01T00:00:00" "https://example.org/p00"
  = Indexer.Raised "keywords" /\
  Indexer.returned
    (Indexer.session (Indexer.demo_extract []) (fun _ _ _ => Some "{}")
       Indexer.demo_json_loads "2025-01-01T00:00:00" 400 ∅
       (Some [Indexer.CStr "https://example.org/p00"]) "indexed_content.json")
  = [].
Proof.
  split; [vm_compute; discriminate|].
  split; vm_compute; reflexivity.
Qed.

(** ** Resuming from the output file *)

Module StripFacts.
Import Chars.

Lemma lstrip_head p l :
  match lstrip p l with [] => True | c :: _ => p c = false end.
Proof.
  induction l as [|x l IH]; cbn; [exact I|].
  destruct (p x) eqn:E; [exact IH | exact E].
Qed.

Lemma lstrip_fixed p l :
  match l with [] => True | c :: _ => p c = false end -> lstrip p l = l.
Proof. destruct l as [|c l]; cbn; [reflexivity|]. now intros ->. Qed.

Lemma lstrip_idem p l : lstrip p (lstrip p l) = lstrip p l.
Proof. apply lstrip_fixed, lstrip_head. Qed.

Lemma rstrip_prefix p l : exists t, l = rstrip p l ++ t.
Proof.
  unfold rstrip. destruct (UrlFacts.lstrip_suffix p (rev l)) as [t Ht].
  exists (rev t). rewrite <- rev_app_distr, <- Ht. now rewrite rev_involutive.
Qed.

Lemma strip_chars_idem p l :
  rstrip p (lstrip p (rstrip p (lstrip p l))) = rstrip p (lstrip p l).
Proof.
  set (m := lstrip p l).
  assert (Hfix : lstrip p (rstrip p m) = rstrip p m).
  { apply lstrip_fixed. destruct (rstrip_prefix p m) as [t Ht].
    pose proof (lstrip_head p l) as Hh. fold m in Hh.
    destruct (rstrip p m) as [|c r]; [exact I|].
    rewrite Ht in Hh. exact Hh. }
  rewrite Hfix. unfold rstrip. rewrite rev_involutive.
  now rewrite lstrip_idem.
Qed.

Lemma strip_idem s : strip (strip s) = strip s.
Proof.
  unfold strip. rewrite list_ascii_of_string_of_list_ascii.
  now rewrite strip_chars_idem.
Qed.

End StripFacts.

Section CoordinatorFacts.
Import Indexer.

Variable extract_clean_content : string -> option Extractor.content_data.
Variable chat : string -> string -> string -> option string.
Variable json_loads : string -> option (gmap string json).
Variable now : string.

#[local] Abbreviation process :=
  (process_url extract_clean_content chat json_loads now).
#[local] Abbreviation created_by :=
  (created_of extract_clean_content chat json_loads now).
#[local] Abbreviation run_one :=
  (run_batch extract_clean_content chat json_loads now).
#[local] Abbreviation process_csv :=
  (process_csv_file extract_clean_content chat json_loads now).
#[local] Abbreviation one_session :=
  (session extract_clean_content chat json_loads now).

Lemma omap_sublist {A B} (f : A -> option B) l1 l2 :
  l1 `sublist_of` l2 -> omap f l1 `sublist_of` omap f l2.
Proof.
  induction 1 as [|x l1 l2 _ IH|x l1 l2 _ IH]; cbn.
  - constructor.
  - destruct (f x); [now constructor | exact IH].
  - destruct (f x); [now constructor | exact IH].
Qed.

(** *** Loading the output file *)

Lemma add_indexed_readable existing : forall urls,
  urls_readable existing ->
  add_indexed existing urls
  = (list_to_set (strip <$> record_urls existing) ∪ urls, true).
Proof.
  induction existing as [|d existing IH]; intros urls Hr; cbn.
  - f_equal. set_solver.
  - apply Forall_cons in Hr as [Hd Hr]. unfold record_urls in *. cbn.
    destruct (d !! "url") as [[| | |u| |]|]; try contradiction.
    + rewrite (IH _ Hr). cbn. f_equal. set_solver.
    + apply (IH _ Hr).
Qed.

Lemma add_indexed_true existing : forall urls urls',
  add_indexed existing urls = (urls', true) -> urls_readable existing.
Proof.
  induction existing as [|d existing IH]; intros urls urls'; cbn;
    [constructor|].
  destruct (d !! "url") as [[| | |u| |]|] eqn:E; try discriminate.
  - intros H. constructor; [now rewrite E | now apply IH in H].
  - intros H. constructor; [now rewrite E | now apply IH in H].
Qed.

Lemma load_existing_results_spec fs out :
  urls_readable (fst (load_existing_results fs out ∅)) /\
  forall u, u ∈ record_urls (fst (load_existing_results fs out ∅)) ->
            strip u ∈ loaded_urls fs out.
Proof.
  unfold loaded_urls, load_existing_results.
  destruct (fs !! out) as [[existing|]|]; cbn;
    try (split; [constructor | intros u Hu; now apply elem_of_nil in Hu]).
  destruct (add_indexed existing ∅) as [urls' [|]] eqn:E; cbn;
    try (split; [constructor | intros u Hu; now apply elem_of_nil in Hu]).
  pose proof (add_indexed_true _ _ _ E) as Hr.
  rewrite (add_indexed_readable existing ∅ Hr) in E. injection E as <-.
  split; [exact Hr|]. intros u Hu.
  apply elem_of_union. left. apply elem_of_list_to_set.
  now apply list_elem_of_fmap_2.
Qed.

Lemma load_readable_file fs out l :
  fs !! out = Some (JsonList l) -> urls_readable l ->
  load_existing_results fs out ∅
  = (l, list_to_set (strip <$> record_urls l) ∪ ∅).
Proof.
  intros Hfs Hr. unfold load_existing_results. rewrite Hfs.
  now rewrite (add_indexed_readable l ∅ Hr).
Qed.

(** *** The work list *)

Lemma remaining_from_sublist cells : forall i urls,
  (remaining_from i cells urls).*2 `sublist_of` csv_urls cells.
Proof.
  unfold csv_urls.
  induction cells as [|[u|] cells IH]; intros i urls; cbn.
  - constructor.
  - destruct (Str.nonempty u && bool_decide (strip u ∉ urls)); cbn.
    + apply sublist_skip, IH.
    + apply sublist_cons, IH.
  - apply IH.
Qed.

Lemma remaining_from_fresh cells : forall i urls p,
  p ∈ remaining_from i cells urls -> p.2 ∉ urls.
Proof.
  induction cells as [|[u|] cells IH]; intros i urls p; cbn.
  - intros H. now apply elem_of_nil in H.
  - destruct (Str.nonempty u && bool_decide (strip u ∉ urls)) eqn:E.
    + intros [->|H]%elem_of_cons; [|now apply IH in H].
      apply andb_true_iff in E as [_ E]. now apply bool_decide_eq_true in E.
    + apply IH.
  - apply IH.
Qed.

Lemma remaining_urls_spec cells urls limit :
  (remaining_urls cells urls limit).*2
    `sublist_of` csv_urls (drop (start_index cells urls) cells) /\
  (forall u, u ∈ (remaining_urls cells urls limit).*2 -> u ∉ urls) /\
  length (remaining_urls cells urls limit) <= limit.
Proof.
  unfold remaining_urls.
  set (start := start_index cells urls).
  set (rem := remaining_from start (drop start cells) urls).
  assert (Hsub : rem.*2 `sublist_of` csv_urls (drop start cells)).
  { apply remaining_from_sublist. }
  assert (Hfresh : forall u, u ∈ rem.*2 -> u ∉ urls).
  { intros u Hu. apply list_elem_of_fmap in Hu as (p & -> & Hp).
    now apply remaining_from_fresh in Hp. }
  destruct (limit <? length rem) eqn:E.
  - split; [|split].
    + rewrite fmap_take. etransitivity; [apply sublist_take | exact Hsub].
    + intros u Hu. apply Hfresh. rewrite fmap_take in Hu.
      now apply subseteq_take in Hu.
    + rewrite length_take. lia.
  - apply Nat.ltb_ge in E. auto.
Qed.

(** Every indexed cell of the column stands before [start_index]. *)
Lemma last_indexed_fold (urls : gset string) cells : forall last i0,
  let r :=
    fold_left
      (fun '(last_index, i) c =>
         match c with
         | CStr u =>
             if decide (strip u ∈ urls) then (Z.of_nat i, S i)
             else (last_index, S i)
         | COther => (last_index, S i)
         end)
      cells (last, i0) in
  (r.1 = last \/ (Z.of_nat i0 <= r.1)%Z) /\
  forall j c, cells !! j = Some (CStr c) -> strip c ∈ urls ->
              (Z.of_nat (i0 + j) <= r.1)%Z.
Proof.
  induction cells as [|c cells IH]; intros last i0; cbn zeta.
  - split; [now left|]. intros j c H. discriminate.
  - cbn [fold_left]. destruct c as [u|].
    + destruct (decide (strip u ∈ urls)) as [Hin|Hout].
      * destruct (IH (Z.of_nat i0) (S i0)) as [H1 H2]. cbv zeta in H1, H2.
        split; [right; lia|].
        intros [|j] c Hc Hc'; [lia|].
        specialize (H2 j c Hc Hc'). lia.
      * destruct (IH last (S i0)) as [H1 H2]. cbv zeta in H1, H2.
        split; [destruct H1; [now left | right; lia]|].
        intros [|j] c Hc Hc'.
        -- injection Hc as ->. contradiction.
        -- specialize (H2 j c Hc Hc'). lia.
    + destruct (IH last (S i0)) as [H1 H2]. cbv zeta in H1, H2.
      split; [destruct H1; [now left | right; lia]|].
      intros [|j] c Hc Hc'; [discriminate|].
      specialize (H2 j c Hc Hc'). lia.
Qed.

Lemma indexed_before_start cells urls i c :
  cells !! i = Some (CStr c) -> strip c ∈ urls -> i < start_index cells urls.
Proof.
  intros Hc Hin. unfold start_index, find_last_indexed_position.
  destruct (last_indexed_fold urls cells (-1)%Z 0) as [_ H].
  cbv zeta in H. specialize (H i c Hc Hin). cbn [Nat.add] in H. lia.
Qed.

(** *** The batch loop *)

Lemma absorb_fold batch : forall st,
  let st' := fold_left absorb (process <$> batch) st in
  new_results st' = new_results st ++ created_by batch /\
  all_results st' = all_results st ++ created_by batch /\
  disk st' = disk st.
Proof.
  unfold created_of.
  induction batch as [|u batch IH]; intros st; cbn.
  - now rewrite !app_nil_r.
  - destruct (IH (absorb st (process u))) as (H1 & H2 & H3).
    rewrite H1, H2, H3.
    destruct (process u); cbn; rewrite <- ?app_assoc; auto.
Qed.

Lemma run_batch_results out st batch :
  new_results (run_one out st batch) = new_results st ++ created_by batch /\
  all_results (run_one out st batch) = all_results st ++ created_by batch.
Proof.
  unfold run_batch, save_progress_checkpoint.
  destruct (absorb_fold batch st) as (H1 & H2 & _).
  set (st' := fold_left absorb _ st) in *.
  destruct (new_results st') as [|d ds] eqn:E.
  - rewrite <- H1, <- H2. auto.
  - cbn [new_results all_results]. rewrite <- H1, <- H2. auto.
Qed.

(** A batch writes the checkpoint file and no other file. *)
Lemma run_batch_disk out st batch f :
  f <> checkpoint_file out ->
  disk (run_one out st batch) !! f = disk st !! f.
Proof.
  intros Hne. unfold run_batch, save_progress_checkpoint.
  destruct (absorb_fold batch st) as (_ & _ & H).
  set (st' := fold_left absorb _ st) in *.
  destruct (new_results st') as [|d ds]; [now rewrite H|].
  cbn [disk]. rewrite lookup_insert_ne by congruence. now rewrite H.
Qed.

Lemma run_batches_disk out bs f : forall st,
  f <> checkpoint_file out ->
  disk (fold_left (run_one out) bs st) !! f = disk st !! f.
Proof.
  induction bs as [|b bs IH]; intros st Hne; cbn; [reflexivity|].
  rewrite IH by exact Hne. now apply run_batch_disk.
Qed.

Lemma run_batches_results out bs : forall st,
  new_results (fold_left (run_one out) bs st)
  = new_results st ++ created_by (concat bs) /\
  all_results (fold_left (run_one out) bs st)
  = all_results st ++ created_by (concat bs).
Proof.
  unfold created_of.
  induction bs as [|b bs IH]; intros st; cbn.
  - now rewrite !app_nil_r.
  - destruct (IH (run_one out st b)) as [H1 H2].
    destruct (run_batch_results out st b) as [H3 H4].
    rewrite H1, H2, H3, H4, omap_app, <- !app_assoc. auto.
Qed.

Lemma batches_of_concat n : forall fuel tasks,
  0 < n -> length tasks <= fuel -> concat (batches_of fuel n tasks) = tasks.
Proof.
  induction fuel as [|fuel IH]; intros [|t tasks] Hn Hlen; cbn in *;
    try reflexivity; try lia.
  destruct n as [|n]; [lia|].
  change (t :: take n tasks ++
            concat (batches_of fuel (S n) (drop n tasks)) = t :: tasks).
  f_equal. rewrite IH; [apply take_drop | lia | rewrite length_drop; lia].
Qed.

Lemma batches_concat tasks : concat (batches tasks) = tasks.
Proof.
  unfold batches. destruct tasks as [|t tasks]; [reflexivity|].
  apply batches_of_concat; cbn; lia.
Qed.

(** The URLs of the records created for a work list come from the work
    list, in its order. *)
Lemma record_urls_created tasks :
  record_urls (created_by tasks) `sublist_of` tasks.
Proof.
  unfold record_urls, created_of.
  induction tasks as [|u tasks IH]; cbn; [constructor|].
  destruct (process u) as [| |d] eqn:E; cbn; try (now apply sublist_cons).
  apply (process_url_url extract_clean_content chat json_loads now) in E.
  rewrite E. now apply sublist_skip.
Qed.

Lemma created_readable tasks : urls_readable (created_by tasks).
Proof.
  unfold urls_readable, created_of.
  induction tasks as [|u tasks IH]; cbn; [constructor|].
  destruct (process u) as [| |d] eqn:E; cbn; auto.
  constructor; [|exact IH].
  apply (process_url_url extract_clean_content chat json_loads now) in E.
  now rewrite E.
Qed.

Lemma column_after_start (f : list cell -> nat) csv l :
  l `sublist_of` column_urls ((fun cells => drop (f cells) cells) <$> csv) ->
  l `sublist_of` column_urls csv.
Proof.
  destruct csv as [cells|]; cbn; [|auto].
  intros H. etransitivity; [exact H|]. apply omap_sublist, sublist_drop.
Qed.

(** *** One call of [process_csv_file] by a fresh bot *)

Lemma process_csv_file_spec n fs csv out :
  let r := process_csv (mkBot n [] ∅) fs csv out in
  let ex := fst (load_existing_results fs out ∅) in
  (forall u, u ∈ scheduled r -> u ∉ loaded_urls fs out) /\
  scheduled r `sublist_of`
    column_urls
      ((fun cells => drop (start_index cells (loaded_urls fs out)) cells)
         <$> csv) /\
  created r = created_by (scheduled r) /\
  (results (bot_after r) = [] /\ created r = [] \/
   results (bot_after r) = ex ++ created r) /\
  returned r = ex ++ created r /\
  length (scheduled r) <= n.
Proof.
  cbv zeta. unfold process_csv_file, process_csv_file_upto, loaded_urls.
  cbn [indexed_urls max_links results].
  destruct (load_existing_results fs out ∅) as [ex urls]. cbn [fst snd].
  destruct csv as [cells|]; cbn [column_urls].
  2:{ cbn. rewrite app_nil_r.
      repeat split; auto using sublist_nil_l with lia;
        try (intros u Hu; now apply elem_of_nil in Hu). }
  destruct (remaining_urls_spec cells urls n) as (Hsub & Hfresh & Hlen).
  destruct (remaining_urls cells urls n) as [|p rem] eqn:Hrem.
  { cbn. rewrite app_nil_r.
    repeat split; auto using sublist_nil_l with lia;
      try (intros u Hu; now apply elem_of_nil in Hu). }
  cbn [scheduled created returned bot_after results].
  destruct (run_batches_results out (batches ((p :: rem).*2))
              (mkProgress [] ex urls fs)) as [H1 H2].
  rewrite batches_concat in H1, H2. cbn [new_results all_results] in H1, H2.
  rewrite H1, H2. cbn [app].
  repeat split; auto.
  now rewrite length_fmap.
Qed.

Lemma save_to_json_output b fs out :
  checkpoint_file out <> out ->
  save_to_json b fs out !! out = Some (JsonList (results b)).
Proof.
  intros Hne. unfold save_to_json.
  destruct (<[out:=JsonList (results b)]> fs !! checkpoint_file out).
  - rewrite lookup_delete_ne by exact Hne. apply lookup_insert_eq.
  - apply lookup_insert_eq.
Qed.

Lemma scheduled_depends_on_output n fs fs' csv out :
  fs' !! out = fs !! out ->
  scheduled (one_session n fs' csv out) = scheduled (one_session n fs csv out).
Proof.
  intros Hfs. unfold session, process_csv_file, process_csv_file_upto.
  cbn [scheduled indexed_urls max_links results].
  unfold load_existing_results. rewrite Hfs.
  destruct (fs !! out) as [[existing|]|]; cbn;
    [destruct (add_indexed existing ∅) as [urls [|]]|..];
    destruct csv as [cells|]; cbn; try reflexivity;
    match goal with
    | |- context [remaining_urls ?c ?u ?n] =>
        destruct (remaining_urls c u n); reflexivity
    end.
Qed.

(** A killed run leaves every file but the checkpoint file as it found
    it. *)
Lemma killed_session_files k n fs csv out f :
  f <> checkpoint_file out ->
  killed_session extract_clean_content chat json_loads now k n fs csv out !! f
  = fs !! f.
Proof.
  intros Hne. unfold killed_session, process_csv_file_upto.
  cbn [indexed_urls max_links results].
  destruct (load_existing_results fs out ∅) as [ex urls].
  destruct csv as [cells|]; [|reflexivity].
  destruct (remaining_urls cells urls n) as [|p rem]; [reflexivity|].
  cbn [disk_after]. now rewrite run_batches_disk.
Qed.


End CoordinatorFacts.



(** Two sessions with [max_links = 3] index the first six URLs, three
    each. *)
Example two_sessions_demo :
  let s1 :=
    Indexer.session (Indexer.demo_extract []) (fun _ _ _ => None)
      Indexer.demo_json_loads "2025-01-01T00:00:00" 3 ∅
      (Some Indexer.demo_csv) "indexed_content.json" in
  let s2 :=
    Indexer.session (Indexer.demo_extract []) (fun _ _ _ => None)
      Indexer.demo_json_loads "2025-01-01T00:00:00" 3
      (Indexer.disk_after s1) (Some Indexer.demo_csv) "indexed_content.json" in
  Indexer.record_urls (Indexer.created s1)
  = take 3 (Indexer.csv_urls Indexer.demo_csv) /\
  Indexer.record_urls (Indexer.created s2)
  = take 3 (drop 3 (Indexer.csv_urls Indexer.demo_csv)) /\
  Indexer.record_urls (Indexer.returned s2)
  = take 6 (Indexer.csv_urls Indexer.demo_csv).
Proof. cbv zeta. split_all; vm_compute; reflexivity. Qed.

(** A session that finds nothing left to do returns before [self.results]
    is set, and [save_to_json] then writes the empty list: the second of
    three sessions over two URLs empties the output file, and the third
    indexes both URLs again. *)
Example idle_session_empties_output :
  let run fs :=
    Indexer.session (Indexer.demo_extract []) (fun _ _ _ => None)
      Indexer.demo_json_loads "2025-01-01T00:00:00" 400 fs
      (Some (take 2 Indexer.demo_csv)) "indexed_content.json" in
  let s1 := run ∅ in
  let s2 := run (Indexer.disk_after s1) in
  let s3 := run (Indexer.disk_after s2) in
  Indexer.record_urls (Indexer.created s1)
  = ["https://example.org/p00"; "https://example.org/p01"] /\
  Indexer.scheduled s2 = [] /\
  Indexer.disk_after s2 !! "indexed_content.json" = Some (Indexer.JsonList []) /\
  Indexer.record_urls (Indexer.created s3)
  = ["https://example.org/p00"; "https://example.org/p01"].
Proof. cbv zeta. split_all; vm_compute; reflexivity. Qed.

(** * Properties of the code beside the specification *)

(** ** The crawler's CSV *)

Module StrOrder.
Import CrawlerOutput.

Lemma ascii_compare_trans_lt a b c :
  Ascii.compare a b = Lt -> Ascii.compare b c = Lt -> Ascii.compare a c = Lt.
Proof.
  unfold Ascii.compare. rewrite !N.compare_lt_iff. lia.
Qed.

Lemma compare_trans_lt s1 : forall s2 s3,
  String.compare s1 s2 = Lt -> String.compare s2 s3 = Lt ->
  String.compare s1 s3 = Lt.
Proof.
  induction s1 as [|c1 s1 IH]; intros [|c2 s2] [|c3 s3]; cbn; try congruence.
  destruct (Ascii.compare c1 c2) eqn:E12; try discriminate;
    destruct (Ascii.compare c2 c3) eqn:E23; try discriminate; intros H12 H23.
  - apply Ascii.compare_eq_iff in E12 as ->. rewrite E23. now apply IH with s2.
  - apply Ascii.compare_eq_iff in E12 as ->. now rewrite E23.
  - apply Ascii.compare_eq_iff in E23 as <-. now rewrite E12.
  - now rewrite (ascii_compare_trans_lt _ _ _ E12 E23).
Qed.

Lemma leb_spec a b : String.leb a b = true <-> String.compare a b <> Gt.
Proof. unfold String.leb. destruct (String.compare a b); split; congruence. Qed.

#[local] Instance str_le_total : Total str_le.
Proof. intros a b. apply String.leb_total. Qed.

#[local] Instance str_le_trans : Transitive str_le.
Proof.
  unfold str_le. intros a b c. rewrite !leb_spec. intros Hab Hbc.
  destruct (String.compare a b) eqn:E1; [| |congruence].
  - apply String.compare_eq_iff in E1 as ->. exact Hbc.
  - destruct (String.compare b c) eqn:E2; [| |congruence].
    + apply String.compare_eq_iff in E2 as <-. now rewrite E1.
    + now rewrite (compare_trans_lt _ _ _ E1 E2).
Qed.

Lemma sorted_Sorted (s : gset string) : Sorted str_le (sorted s).
Proof. apply Sorted_merge_sort. apply _. Qed.

Lemma NoDup_sorted (s : gset string) : NoDup (sorted s).
Proof. unfold sorted. rewrite merge_sort_Permutation. apply NoDup_elements. Qed.

Lemma elem_of_sorted (s : gset string) u : u ∈ sorted s <-> u ∈ s.
Proof. unfold sorted. rewrite merge_sort_Permutation. apply elem_of_elements. Qed.

Lemma length_sorted (s : gset string) : length (sorted s) = size s.
Proof. unfold sorted. now rewrite merge_sort_Permutation. Qed.

Lemma sorted_empty : sorted ∅ = [].
Proof.
  apply Permutation_nil_r. unfold sorted.
  now rewrite merge_sort_Permutation, elements_empty.
Qed.

Lemma row_urls_save_results st : row_urls (save_results st) = sorted (all_links st).
Proof.
  unfold row_urls, save_results. cbn [tail].
  induction (sorted (all_links st)) as [|u l IH]; cbn; [reflexivity|].
  now rewrite IH.
Qed.

Lemma elem_of_data_rows st u status :
  [u; status] ∈ tail (save_results st) <->
  u ∈ all_links st /\
  status = (if bool_decide (u ∈ visited_urls st) then "Visited"
            else "Discovered").
Proof.
  unfold save_results. cbn [tail]. rewrite list_elem_of_fmap. split.
  - intros (v & H & Hv). injection H as -> ->. now apply elem_of_sorted in Hv.
  - intros [Hu ->]. exists u. split; [reflexivity|]. now apply elem_of_sorted.
Qed.

End StrOrder.

Section CrawlerOutputFacts.
Import CrawlerOutput StrOrder.

Variable urlparse : string -> parsed_url.
Variable http_get : nat -> string -> option string.
Variable anchors : string -> list string.
Variable urljoin : string -> string -> string.
Variable set_rank : gset string -> string -> nat.
Variable base_url : string.
Variable max_pages : nat.

#[local] Abbreviation body :=
  (crawl_body urlparse http_get anchors urljoin set_rank base_url).
#[local] Abbreviation state_after :=
  (after urlparse http_get anchors urljoin set_rank base_url).
#[local] Abbreviation valid := (is_valid_url urlparse base_url).

Lemma body_empty st u rest :
  to_visit st = u :: rest -> u ∉ visited_urls st ->
  http_get (length (requests st)) u = Some "" ->
  body st = mkCrawler (visited_urls st) (all_links st) rest
              (failed_urls st) (pages_crawled st)
              (requests st ++ [(u, false)]).
Proof.
  intros Hst Hin Hget. unfold crawl_body. rewrite Hst. cbn.
  destruct (decide (u ∈ visited_urls st)); [contradiction|].
  unfold get_page_content. cbn. now rewrite Hget.
Qed.

(** X1.  A response with an empty body is dropped without a trace in the
    crawler's sets: [if not html_content: continue] is taken, but
    [get_page_content] has not appended the URL to [failed_urls].  The URL
    is not visited and not counted, the CSV is the one of the state before,
    and only the request was spent. *)
Theorem empty_page_not_recorded st u rest :
  to_visit st = u :: rest -> u ∉ visited_urls st ->
  http_get (length (requests st)) u = Some "" ->
  failed_urls (body st) = failed_urls st /\
  visited_urls (body st) = visited_urls st /\
  all_links (body st) = all_links st /\
  pages_crawled (body st) = pages_crawled st /\
  to_visit (body st) = rest /\
  fetched (body st) = fetched st ++ [u] /\
  save_results (body st) = save_results st.
Proof.
  intros Hst Hin Hget. rewrite (body_empty st u rest Hst Hin Hget).
  unfold fetched, save_results. cbn. rewrite fmap_app. repeat split; auto.
Qed.

(** X2.  The seed cannot be fetched (the request raises, or the body is empty):
    with a positive page budget the crawl makes this one request and stops
    with nothing visited and nothing discovered, and [save_results] writes
    the header row only. *)
Theorem dead_seed_crawl fuel :
  0 < max_pages ->
  http_get 0 base_url = None \/ http_get 0 base_url = Some "" ->
  exists st',
    crawl urlparse http_get anchors urljoin set_rank base_url max_pages (S fuel)
      = Some st' /\
    visited_urls st' = ∅ /\ all_links st' = ∅ /\ to_visit st' = [] /\
    pages_crawled st' = 0 /\ fetched st' = [base_url] /\
    save_results st' = [["URL"; "Status"]].
Proof.
  intros Hmax Hget.
  assert (Hnotin : base_url ∉ visited_urls (init base_url))
    by (cbn; apply not_elem_of_empty).
  assert (Hcond : loop_cond max_pages (init base_url) = true).
  { unfold loop_cond. cbn. destruct max_pages; [lia | reflexivity]. }
  assert (Hstop : forall st, to_visit st = [] ->
            crawl_loop urlparse http_get anchors urljoin set_rank base_url
              max_pages fuel st = Some st).
  { intros st Hq. destruct fuel; cbn; unfold loop_cond; now rewrite Hq. }
  unfold crawl. cbn [crawl_loop]. rewrite Hcond.
  destruct Hget as [Hget|Hget].
  - rewrite (body_error urlparse http_get anchors urljoin set_rank base_url
               (init base_url) base_url [] eq_refl Hnotin Hget).
    eexists. split; [apply Hstop; reflexivity|].
    unfold save_results, fetched. cbn. rewrite sorted_empty. repeat split.
  - rewrite (body_empty (init base_url) base_url [] eq_refl Hnotin Hget).
    eexists. split; [apply Hstop; reflexivity|].
    unfold save_results, fetched. cbn. rewrite sorted_empty. repeat split.
Qed.

(** *** Discovered before requested *)

#[local] Abbreviation discovered := (CrawlerOutput.discovered base_url).

Lemma discovered_init : discovered (init base_url).
Proof.
  unfold CrawlerOutput.discovered, fetched. cbn. repeat split; intros u Hu.
  - apply list_elem_of_singleton in Hu. now left.
  - now apply elem_of_nil in Hu.
  - now apply not_elem_of_empty in Hu.
  - now apply elem_of_nil in Hu.
Qed.

Lemma discovered_body st : discovered st -> discovered (body st).
Proof.
  intros (Hq & Hr & Hv & Hf).
  destruct (body_cases urlparse http_get anchors urljoin set_rank base_url st)
    as [Hst|u rest Hst Hin|u rest Hst Hin Hget
       |u rest Hst Hin Hget|u rest html Hst Hin Hget Hne];
    [now repeat split|..];
    rewrite Hst in Hq;
    pose proof (Hq u (list_elem_of_here _ _)) as Hhead;
    assert (Hrest : forall v, v ∈ rest -> v = base_url \/ v ∈ all_links st)
      by (intros v Hin'; apply Hq; now apply list_elem_of_further);
    unfold CrawlerOutput.discovered, fetched in *; cbn;
    repeat split; intros v;
    rewrite ?fmap_app, ?elem_of_app, ?elem_of_enqueue_links, ?elem_of_union,
      ?elem_of_singleton; cbn; rewrite ?list_elem_of_singleton;
    naive_solver.
Qed.

Lemma discovered_after k : discovered (state_after k).
Proof.
  induction k as [|k IH]; [apply discovered_init|].
  change (state_after (S k)) with (body (state_after k)).
  now apply discovered_body.
Qed.

Lemma in_domain_after k : in_domain urlparse base_url (state_after k).
Proof.
  induction k as [|k IH]; [apply in_domain_init|].
  change (state_after (S k)) with (body (state_after k)).
  now apply in_domain_body.
Qed.

Lemma visit_log_after k : visit_log (state_after k).
Proof.
  induction k as [|k IH]; [apply visit_log_init|].
  change (state_after (S k)) with (body (state_after k)).
  now apply visit_log_body.
Qed.

(** X3.  At every point of a crawl, no URL is queued, requested, visited or
    failed before it is known: it is the seed or it has been discovered as
    a link of a fetched page; a visited or failed URL has been requested. *)
Theorem discovered_before_requested k :
  let st := state_after k in
  (forall u, u ∈ to_visit st -> u = base_url \/ u ∈ all_links st) /\
  (forall u, u ∈ fetched st -> u = base_url \/ u ∈ all_links st) /\
  (forall u, u ∈ visited_urls st -> u ∈ fetched st) /\
  (forall u, u ∈ failed_urls st -> u ∈ fetched st) /\
  (forall u, u ∈ visited_urls st -> u = base_url \/ u ∈ all_links st).
Proof.
  cbv zeta. destruct (discovered_after k) as (Hq & Hr & Hv & Hf).
  repeat split; auto.
Qed.

(** X4.  The CSV written after any number of loop iterations: a header, then
    one row for each member of [all_links] and no other, in ascending
    order without repetition; the status is [Visited] exactly for the
    members of [visited_urls]; every row is a URL of the target domain.  A
    visited URL that no page links to has no row: this can only be the
    seed. *)
Theorem save_results_rows k :
  let st := state_after k in
  let rows := save_results st in
  head rows = Some ["URL"; "Status"] /\
  length rows = S (size (all_links st)) /\
  Sorted str_le (row_urls rows) /\
  NoDup (row_urls rows) /\
  (forall u status,
     [u; status] ∈ tail rows <->
     u ∈ all_links st /\
     status = (if bool_decide (u ∈ visited_urls st) then "Visited"
               else "Discovered")) /\
  (forall u, u ∈ row_urls rows -> valid u = true) /\
  (forall u, u ∈ visited_urls st ->
             u = base_url \/ [u; "Visited"] ∈ tail rows) /\
  length (filter (fun row => row !! 1 = Some "Visited") (tail rows))
  <= pages_crawled st.
Proof.
  cbv zeta. rewrite row_urls_save_results.
  split; [reflexivity|].
  split; [unfold save_results; cbn; now rewrite length_map, length_sorted|].
  split; [apply sorted_Sorted|]. split; [apply NoDup_sorted|].
  split; [intros u status; apply elem_of_data_rows|].
  split.
  { intros u Hu%elem_of_sorted.
    destruct (in_domain_after k) as (_ & Hl & _). now apply Hl. }
  split.
  { intros u Hu. destruct (discovered_after k) as (_ & Hr & Hv & _).
    destruct (Hr u (Hv u Hu)) as [->|Hl]; [now left|right].
    apply elem_of_data_rows. split; [exact Hl|].
    now rewrite bool_decide_eq_true_2. }
  destruct (visit_log_after k) as (Hvis & Hnd & Hcount).
  rewrite <- (visit_log_size _ (visit_log_after k)).
  unfold save_results. cbn [tail].
  set (st := state_after k).
  assert (Hlen : forall l : list string, NoDup l ->
            length (filter (fun row : list string => row !! 1 = Some "Visited")
                      (map (fun url =>
                              [url; if bool_decide (url ∈ visited_urls st)
                                    then "Visited" else "Discovered"]) l))
            <= size (visited_urls st ∩ list_to_set l)).
  { induction l as [|u l IH]; intros Hl; cbn [map]; [cbn; lia|].
    apply NoDup_cons in Hl as [Hu Hl]. specialize (IH Hl).
    destruct (decide (u ∈ visited_urls st)) as [Hin|Hout].
    - rewrite filter_cons_True
        by (cbn; now rewrite bool_decide_eq_true_2).
      cbn [length].
      replace (visited_urls st ∩ list_to_set (u :: l))
        with ({[u]} ∪ visited_urls st ∩ list_to_set l)
        by (cbn; apply set_eq; set_solver).
      rewrite size_union by set_solver. rewrite size_singleton. lia.
    - rewrite filter_cons_False
        by (cbn; rewrite bool_decide_eq_false_2 by exact Hout; discriminate).
      etransitivity; [exact IH|]. apply subseteq_size. cbn. set_solver. }
  etransitivity; [apply Hlen, NoDup_sorted|].
  apply subseteq_size. set_solver.
Qed.

End CrawlerOutputFacts.

(** ** The links of a page *)

Section ExtractLinksFacts.

Variable urlparse : string -> parsed_url.
Variable anchors : string -> list string.
Variable urljoin : string -> string -> string.
Variable base_url : string.

#[local] Abbreviation valid := (is_valid_url urlparse base_url).
#[local] Abbreviation normalize := (normalize_url urlparse).
#[local] Abbreviation links_of :=
  (extract_links urlparse anchors urljoin base_url).

Lemma extract_links_fold page hrefs : forall (acc : gset string) u,
  u ∈ fold_left
        (fun links href =>
           let full_url := urljoin page href in
           let normalized_url := normalize full_url in
           if valid normalized_url then {[normalized_url]} ∪ links
           else links)
        hrefs acc <->
  u ∈ acc \/
  exists href, href ∈ hrefs /\ u = normalize (urljoin page href) /\
               valid u = true.
Proof.
  induction hrefs as [|h hrefs IH]; intros acc u; cbn [fold_left].
  - split; [now left|]. intros [H|(h & Hh & _)]; [exact H|].
    now apply elem_of_nil in Hh.
  - rewrite IH. cbv zeta.
    destruct (valid (normalize (urljoin page h))) eqn:E.
    + rewrite elem_of_union, elem_of_singleton. split.
      * intros [[->|H]|(h' & Hh & Hu)]; [|now left|].
        -- right. exists h. split; [apply list_elem_of_here|]. now split.
        -- right. exists h'. split; [now apply list_elem_of_further|exact Hu].
      * intros [H|(h' & Hh & Hu & Hv)]; [now left; right|].
        apply elem_of_cons in Hh as [->|Hh]; [now left; left|].
        right. exists h'. auto.
    + split.
      * intros [H|(h' & Hh & Hu)]; [now left|].
        right. exists h'. split; [now apply list_elem_of_further|exact Hu].
      * intros [H|(h' & Hh & Hu & Hv)]; [now left|].
        apply elem_of_cons in Hh as [->|Hh]; [congruence|].
        right. exists h'. auto.
Qed.


End ExtractLinksFacts.

(** ** The sequential indexer *)

Module StrFacts.

Lemma prefix_app p s : String.prefix p (p +:+ s) = true.
Proof.
  induction p as [|c p IH]; cbn; [now destruct s|].
  change (String c p +:+ s) with (String c (p +:+ s)). cbn.
  destruct (ascii_dec c c); [exact IH | congruence].
Qed.

Lemma contains_app a p b : Str.contains p (a +:+ p +:+ b) = true.
Proof.
  induction a as [|c a IH].
  - change ("" +:+ p +:+ b) with (p +:+ b).
    pose proof (prefix_app p b) as H.
    destruct (p +:+ b); cbn [Str.contains]; rewrite H; reflexivity.
  - change (String c a +:+ p +:+ b) with (String c (a +:+ p +:+ b)).
    cbn [Str.contains]. rewrite IH. apply orb_true_r.
Qed.

Lemma lower_app a b :
  SeqIndexer.lower (a +:+ b) = SeqIndexer.lower a +:+ SeqIndexer.lower b.
Proof.
  unfold SeqIndexer.lower, Chars.lower.
  rewrite UrlFacts.list_ascii_of_string_app, map_app.
  apply UrlFacts.string_of_list_ascii_app.
Qed.

Lemma omap_length_le {A B} (f : A -> option B) l :
  length (omap f l) <= length l.
Proof. induction l as [|x l IH]; cbn; [lia|]. destruct (f x); cbn; lia. Qed.

Lemma prefix_nonempty p s :
  String.prefix p s = true -> Str.nonempty p = true -> Str.nonempty s = true.
Proof. destruct p, s; cbn; congruence. Qed.

End StrFacts.

Section SeqIndexerFacts.
Import Indexer SeqExtractor SeqIndexer StrFacts.


Variable extract_webpage_content : string -> page_content.
Variable chat : string -> string -> string -> string -> string + string.
Variable json_loads : string -> loaded.
Variable py_lower : string -> string.
Variable find_words : string -> list string.
Variable now : string.
Variable writable : string -> bool.

#[local] Abbreviation fallback :=
  (create_fallback_result py_lower find_words now).
#[local] Abbreviation keywords_of := (fallback_keywords py_lower find_words).
#[local] Abbreviation analyze :=
  (analyze_with_groq chat json_loads py_lower find_words now).
#[local] Abbreviation loop :=
  (process_loop extract_webpage_content chat json_loads py_lower find_words now).

(** X6.  [is_valid_url] rejects every URL in which one of the skip patterns
    occurs anywhere, in any letter case: a URL with a fragment, or one
    whose host or path merely contains [tel:] or [mailto:], is dropped.
    What it accepts starts with [http://] or [https://] in lower case. *)
Theorem skip_patterns_reject_everywhere :
  Forall
    (fun pattern =>
       forall a p b, lower p = pattern -> is_valid_url (a +:+ p +:+ b) = false)
    skip_patterns /\
  (forall url, is_valid_url url = true ->
     Str.starts_with "http://" url || Str.starts_with "https://" url = true) /\
  is_valid_url "HTTP://EXAMPLE.ORG/" = false /\
  is_valid_url "https://grandhotel:8080/rooms" = false.
Proof.
  split; [|split; [|split; reflexivity]].
  - apply Forall_forall. intros pattern Hin a p b Hp.
    unfold is_valid_url.
    replace (existsb _ skip_patterns) with true; [reflexivity|].
    symmetry. apply existsb_exists. exists pattern.
    split; [now apply list_elem_of_In|].
    rewrite !lower_app, Hp. apply contains_app.
  - intros url. unfold is_valid_url.
    destruct (existsb _ skip_patterns); [discriminate | auto].
Qed.

Lemma is_valid_url_nonempty url :
  is_valid_url url = true -> Str.nonempty url = true.
Proof.
  unfold is_valid_url. destruct (existsb _ skip_patterns); [discriminate|].
  intros [H|H]%orb_true_iff; now apply prefix_nonempty in H.
Qed.

Lemma load_urls_fold rows : forall acc,
  fold_left
    (fun urls row =>
       match row with
       | cell :: _ =>
           if Str.nonempty (strip cell) then
             let url := strip cell in
             if is_valid_url url then urls ++ [url] else urls
           else urls
       | [] => urls
       end)
    rows acc
  = acc ++ List.filter is_valid_url (strip <$> omap head rows).
Proof.
  induction rows as [|row rows IH]; intros acc; cbn [fold_left].
  - cbn. now rewrite app_nil_r.
  - rewrite IH. destruct row as [|cell row]; cbn; [reflexivity|].
    destruct (is_valid_url (strip cell)) eqn:E.
    + rewrite (is_valid_url_nonempty _ E). now rewrite <- app_assoc.
    + now destruct (Str.nonempty (strip cell)).
Qed.

Lemma load_urls_filter rows :
  load_urls_from_csv rows
  = List.filter is_valid_url (strip <$> omap head rows).
Proof. apply (load_urls_fold rows []). Qed.

Lemma load_urls_length rows : length (load_urls_from_csv rows) <= length rows.
Proof.
  rewrite load_urls_filter.
  etransitivity; [apply List.filter_length_le|].
  rewrite length_fmap. apply omap_length_le.
Qed.


(** *** The analysis of one page *)

Lemma fallback_lookup url content msg :
  let r := fallback url content msg in
  r !! "url" = Some (JStr url) /\
  r !! "title" = Some (JStr (pc_title content)) /\
  r !! "description" = Some (JStr (pc_description content)) /\
  r !! "keywords" = Some (JArr (JStr <$> keywords_of content)) /\
  r !! "valuable_content" = Some (JArr [JStr ("Basic extraction - " +:+ msg)]) /\
  r !! "content_type" = Some (JStr "unknown") /\
  r !! "main_topics" = Some (JArr (JStr <$> take 3 (keywords_of content))) /\
  r !! "target_audience" = Some (JStr "unknown") /\
  r !! "error" = Some (JStr msg).
Proof. cbv zeta. repeat split; reflexivity. Qed.

Lemma fallback_metadata url content msg :
  let r := fallback url content msg in
  r !! "indexed_at" = Some (JStr now) /\
  r !! "content_length" = Some (json_nat (String.length (main_content content))) /\
  r !! "has_meta_description"
  = Some (JBool (Str.nonempty (pc_description content))) /\
  r !! "internal_links_count" = Some (json_nat (length (links content))).
Proof. cbv zeta. repeat split; reflexivity. Qed.

Lemma add_metadata_lookup content d :
  let r := add_metadata now content d in
  r !! "indexed_at" = Some (JStr now) /\
  r !! "content_length" = Some (json_nat (String.length (main_content content))) /\
  r !! "has_meta_description"
  = Some (JBool (Str.nonempty (pc_description content))) /\
  r !! "internal_links_count" = Some (json_nat (length (links content))).
Proof.
  cbv zeta. unfold add_metadata.
  repeat split;
    repeat (rewrite lookup_insert_ne by discriminate);
    apply lookup_insert_eq.
Qed.

Lemma add_metadata_other content d key :
  key ∉ metadata_keys -> add_metadata now content d !! key = d !! key.
Proof.
  unfold metadata_keys, add_metadata. intros Hk.
  rewrite !lookup_insert_ne; [reflexivity|..]; intros <-; apply Hk; set_solver.
Qed.

Lemma keywords_of_spec content :
  length (keywords_of content) <= 5 /\
  Forall (fun w => 3 < String.length w /\ (w ∉ common_words) /\
                   w ∈ find_words (py_lower (pc_title content +:+ " "
                                               +:+ pc_description content)))
    (keywords_of content).
Proof.
  unfold fallback_keywords. split; [rewrite length_take; lia|].
  apply Forall_forall. intros w Hw. apply subseteq_take in Hw.
  apply list_elem_of_In, List.filter_In in Hw as [Hin Hw].
  apply andb_true_iff in Hw as [Hlen Hc].
  apply Nat.ltb_lt in Hlen. apply negb_true_iff, bool_decide_eq_false in Hc.
  repeat split; auto. now apply list_elem_of_In.
Qed.

Lemma fallback_has_metadata url content msg :
  Forall (fun key => is_Some (fallback url content msg !! key)) metadata_keys.
Proof.
  destruct (fallback_metadata url content msg) as (H1 & H2 & H3 & H4).
  cbv zeta in *. unfold metadata_keys. repeat constructor; eauto.
Qed.

Lemma analyze_metadata url content :
  Forall (fun key => is_Some (analyze url content !! key)) metadata_keys.
Proof.
  unfold analyze_with_groq.
  destruct (String.length (main_content content) <? 50);
    [apply fallback_has_metadata|].
  destruct (chat url _ _ _) as [e|message]; [apply fallback_has_metadata|].
  destruct (json_loads _) as [|e|d]; try apply fallback_has_metadata.
  destruct (add_metadata_lookup content d) as (H1 & H2 & H3 & H4).
  cbv zeta in *. unfold metadata_keys. repeat constructor; eauto.
Qed.



(** *** The loop over the URLs *)

Lemma process_loop_fold urls : forall acc,
  fold_left
    (fun results url =>
       let content := extract_webpage_content url in
       if Str.nonempty (main_content content)
       then results ++ [analyze url content]
       else results)
    urls acc
  = acc ++ ((fun url => analyze url (extract_webpage_content url))
              <$> List.filter
                    (fun url => Str.nonempty
                                  (main_content (extract_webpage_content url)))
                    urls).
Proof.
  induction urls as [|u urls IH]; intros acc; cbn [fold_left].
  - cbn. now rewrite app_nil_r.
  - rewrite IH. cbn.
    destruct (Str.nonempty (main_content (extract_webpage_content u)));
      [now rewrite <- app_assoc | reflexivity].
Qed.

Lemma process_loop_spec urls :
  loop urls
  = (fun url => analyze url (extract_webpage_content url))
      <$> List.filter
            (fun url => Str.nonempty (main_content (extract_webpage_content url)))
            urls.
Proof. apply (process_loop_fold urls []). Qed.

(** X11.  [process_urls] produces exactly one result for each URL whose page
    gave some text, in the order of the list, and none for the others: no
    failure of the model call or of the parsing of its reply loses a page.
    Each result carries the page's four metadata fields.  If the output
    file can be written it holds the returned list; no other file is
    touched. *)
Theorem process_urls_one_result_per_page urls output_file fs :
  let '(results, fs') :=
    process_urls extract_webpage_content chat json_loads py_lower find_words
      now writable urls output_file fs in
  results
  = (fun url => analyze url (extract_webpage_content url))
      <$> List.filter
            (fun url => Str.nonempty (main_content (extract_webpage_content url)))
            urls /\
  length results <= length urls /\
  Forall (fun r => Forall (fun key => is_Some (r !! key)) metadata_keys) results /\
  (writable output_file = true -> fs' !! output_file = Some (JsonList results)) /\
  (writable output_file = false -> fs' = fs) /\
  (forall f, f <> output_file -> fs' !! f = fs !! f).
Proof.
  unfold process_urls. rewrite process_loop_spec. split_all.
  - reflexivity.
  - rewrite length_fmap. apply List.filter_length_le.
  - apply Forall_fmap, Forall_forall. intros u _. cbn.
    apply analyze_metadata.
  - intros ->. apply lookup_insert_eq.
  - now intros ->.
  - intros f Hf. destruct (writable output_file); [|reflexivity].
    now apply lookup_insert_ne.
Qed.

(** X12.  [run_indexer] processes the first [max_urls] valid URLs of the CSV and
    no more.  When the CSV holds no valid URL it returns before anything
    is written, and an existing output file stays as it is; otherwise the
    output file is rewritten, with an empty list when [max_urls] is 0. *)
Theorem run_indexer_bounds rows output_file max_urls fs :
  let '(outcome, fs') :=
    run_indexer extract_webpage_content chat json_loads py_lower find_words
      now writable rows output_file max_urls fs in
  (forall f, f <> output_file -> fs' !! f = fs !! f) /\
  match outcome with
  | None => load_urls_from_csv rows = [] /\ fs' = fs
  | Some results =>
      load_urls_from_csv rows <> [] /\
      results = loop (take max_urls (load_urls_from_csv rows)) /\
      length results <= max_urls /\
      length results <= length rows /\
      (writable output_file = true ->
       fs' !! output_file = Some (JsonList results))
  end.
Proof.
  unfold run_indexer.
  pose proof (load_urls_length rows) as Hrows.
  destruct (load_urls_from_csv rows) as [|u urls] eqn:Hload; [auto|].
  set (all := u :: urls) in *.
  assert (Hcut : (if max_urls <? length all then take max_urls all else all)
                 = take max_urls all).
  { destruct (max_urls <? length all) eqn:E; [reflexivity|].
    apply Nat.ltb_ge in E. now rewrite take_ge. }
  rewrite Hcut. unfold process_urls.
  assert (Hlen : length (loop (take max_urls all)) <= length (take max_urls all)).
  { rewrite process_loop_spec, length_fmap. apply List.filter_length_le. }
  rewrite length_take in Hlen.
  split.
  { intros f Hf. destruct (writable output_file); [|reflexivity].
    now apply lookup_insert_ne. }
  split; [discriminate|]. split; [reflexivity|].
  split; [lia|]. split; [lia|].
  intros ->. apply lookup_insert_eq.
Qed.

End SeqIndexerFacts.


(** ** The statistics of the indexer *)

Module CounterFacts.
Import Indexer Stats.

Lemma as_number_same a b x :
  as_number a = Some x ->
  same_key a b = match as_number b with
                 | Some y => Qeq_bool x y
                 | None => false
                 end.
Proof.
  destruct a as [|[]|q|s|l|f]; cbn; intros [= <-]; destruct b as [|[]|q'|s'|l'|f'];
    reflexivity.
Qed.

Lemma same_key_trans a b c :
  same_key a b = true -> same_key a c = same_key b c.
Proof.
  destruct (as_number a) as [x|] eqn:Ha.
  - rewrite (as_number_same a b x Ha).
    destruct (as_number b) as [y|] eqn:Hb; [|discriminate].
    intros Hxy%Qeq_bool_iff.
    rewrite (as_number_same a c x Ha), (as_number_same b c y Hb).
    destruct (as_number c) as [z|]; [|reflexivity].
    apply eq_true_iff_eq. rewrite !Qeq_bool_iff. now rewrite Hxy.
  - destruct a as [|?|?|s|?|?]; try discriminate;
      destruct b as [|?|?|s'|?|?]; cbn; try discriminate; intros H;
      try reflexivity.
    apply String.eqb_eq in H as ->. reflexivity.
Qed.

Lemma same_key_refl a : hashable a = true -> same_key a a = true.
Proof.
  destruct a as [|[]|q|s|l|f]; cbn; try discriminate; auto.
  - intros _. apply Qeq_bool_iff. reflexivity.
  - intros _. apply String.eqb_refl.
Qed.

Lemma same_key_sym a b : same_key a b = true -> same_key b a = true.
Proof.
  intros H. assert (Hh : hashable a = true) by (now destruct a, b).
  rewrite <- (same_key_trans a b a H). now apply same_key_refl.
Qed.

Lemma same_key_trans_r a b c :
  same_key a b = true -> same_key c a = same_key c b.
Proof.
  intros H. destruct (same_key c a) eqn:Hca.
  - symmetry. now rewrite (same_key_trans c a b Hca).
  - destruct (same_key c b) eqn:Hcb; [|reflexivity].
    rewrite (same_key_trans c b a Hcb) in Hca.
    apply same_key_sym in H. congruence.
Qed.

Lemma count_of_same a b d :
  same_key a b = true -> count_of a d = count_of b d.
Proof.
  intros H. unfold count_of. induction d as [|[k m] d IH]; cbn; [reflexivity|].
  rewrite (same_key_trans_r a b k H). now destruct (same_key k b).
Qed.

Lemma count_of_set_count key n d key' :
  count_of key' (set_count key n d)
  = if same_key key key' then n else count_of key' d.
Proof.
  unfold count_of. induction d as [|[k m] d IH]; cbn.
  - now destruct (same_key key key').
  - destruct (same_key k key) eqn:Hk; cbn.
    + rewrite (same_key_trans k key key' Hk).
      now destruct (same_key key key').
    + destruct (same_key k key') eqn:Hk'; cbn; [|exact IH].
      destruct (same_key key key') eqn:Hkk; [|reflexivity].
      apply same_key_sym in Hkk.
      pose proof (same_key_trans key' key k Hkk) as Ht.
      apply same_key_sym in Hk'. rewrite Hk' in Ht. symmetry in Ht.
      apply same_key_sym in Ht. congruence.
Qed.

Lemma total_set_count_gen key n d :
  total (set_count key n d) + count_of key d = total d + n.
Proof.
  unfold count_of, total. induction d as [|[k m] d IH]; cbn; [lia|].
  destruct (same_key k key); cbn; lia.
Qed.

Lemma total_set_count key d :
  total (set_count key (count_of key d + 1) d) = total d + 1.
Proof. pose proof (total_set_count_gen key (count_of key d + 1) d). lia. Qed.

Lemma bump_spec key d d' :
  bump key d = Some d' ->
  hashable key = true /\
  total d' = total d + 1 /\
  forall key', count_of key' d'
               = count_of key' d + (if same_key key key' then 1 else 0).
Proof.
  unfold bump. destruct (hashable key); [|discriminate]. intros [= <-].
  split; [reflexivity|]. split; [apply total_set_count|].
  intros key'. rewrite count_of_set_count.
  destruct (same_key key key') eqn:E; [|lia].
  now rewrite (count_of_same key key' d E).
Qed.

Lemma bump_None key d : bump key d = None -> hashable key = false.
Proof. unfold bump. now destruct (hashable key). Qed.

End CounterFacts.

Section StatsFacts.
Import Indexer Stats CounterFacts.

Variable num_add : Q -> Q -> Q.
Variable num_div : Q -> nat -> Q.
Variable round2 : Q -> Q.
Variable now : string.

#[local] Abbreviation unknown := (JStr "unknown").

Lemma tally_result_spec t r t' :
  tally_result num_add t r = Some t' ->
  tallies r = true /\
  (total (t_content_types t') = total (t_content_types t) + 1 /\
   forall key, count_of key (t_content_types t')
               = count_of key (t_content_types t)
                 + (if same_key (get r "content_type" unknown) key then 1 else 0)) /\
  (total (t_languages t') = total (t_languages t) + 1 /\
   forall key, count_of key (t_languages t')
               = count_of key (t_languages t)
                 + (if same_key (get r "language" unknown) key then 1 else 0)) /\
  (total (t_quality t') = total (t_quality t) + 1 /\
   forall key, count_of key (t_quality t')
               = count_of key (t_quality t)
                 + (if same_key (get r "content_quality" unknown) key
                    then 1 else 0)).
Proof.
  unfold tally_result, tallies.
  destruct (bump (get r "content_type" unknown) _) as [c|] eqn:Hc;
    [|discriminate]; cbn.
  destruct (bump (get r "language" unknown) _) as [l|] eqn:Hl;
    [|discriminate]; cbn.
  destruct (as_number (get r "relevance_score" (JNum 0))) as [x|] eqn:Hx;
    [|discriminate]; cbn.
  destruct (bump (get r "content_quality" unknown) _) as [q|] eqn:Hq;
    [|discriminate]; cbn.
  intros [= <-]. cbn.
  apply bump_spec in Hc as (-> & Hc), Hl as (-> & Hl), Hq as (-> & Hq).
  repeat split; try tauto; try apply Hc; try apply Hl; try apply Hq.
Qed.

Lemma tally_result_None t r :
  tally_result num_add t r = None -> tallies r = false.
Proof.
  unfold tally_result, tallies.
  destruct (bump (get r "content_type" unknown) _) as [c|] eqn:Hc; cbn;
    [|apply bump_None in Hc as ->; reflexivity].
  destruct (bump (get r "language" unknown) _) as [l|] eqn:Hl; cbn;
    [|apply bump_None in Hl as ->; intros _; now rewrite andb_false_r].
  destruct (as_number (get r "relevance_score" (JNum 0))) as [x|] eqn:Hx; cbn.
  2:{ intros _. destruct (hashable _), (hashable _), (hashable _);
        reflexivity. }
  destruct (bump (get r "content_quality" unknown) _) as [q|] eqn:Hq; cbn;
    [discriminate|].
  apply bump_None in Hq as ->. intros _. apply andb_false_r.
Qed.

Lemma counted_cons field key r rs :
  length (counted field key (r :: rs))
  = (if same_key (get r field unknown) key then 1 else 0)
    + length (counted field key rs).
Proof. unfold counted. cbn. now destruct (same_key _ key). Qed.

Lemma tally_all_spec rs : forall t t',
  tally_all num_add t rs = Some t' ->
  Forall (fun r => tallies r = true) rs /\
  (total (t_content_types t') = total (t_content_types t) + length rs /\
   forall key, count_of key (t_content_types t')
               = count_of key (t_content_types t)
                 + length (counted "content_type" key rs)) /\
  (total (t_languages t') = total (t_languages t) + length rs /\
   forall key, count_of key (t_languages t')
               = count_of key (t_languages t)
                 + length (counted "language" key rs)) /\
  (total (t_quality t') = total (t_quality t) + length rs /\
   forall key, count_of key (t_quality t')
               = count_of key (t_quality t)
                 + length (counted "content_quality" key rs)).
Proof.
  induction rs as [|r rs IH]; intros t t'; cbn [tally_all].
  - intros [= <-]. cbn. repeat split; auto; lia.
  - destruct (tally_result num_add t r) as [t1|] eqn:Hr; [|discriminate].
    intros Hrest. apply tally_result_spec in Hr
      as (Hok & (Hc1 & Hc2) & (Hl1 & Hl2) & (Hq1 & Hq2)).
    apply IH in Hrest as (Hall & (Ic1 & Ic2) & (Il1 & Il2) & (Iq1 & Iq2)).
    split; [now constructor|].
    repeat split; cbn [length]; try lia; intros key;
      rewrite counted_cons, ?Ic2, ?Il2, ?Iq2, ?Hc2, ?Hl2, ?Hq2; lia.
Qed.

Lemma tally_all_None rs : forall t,
  tally_all num_add t rs = None -> Exists (fun r => tallies r = false) rs.
Proof.
  induction rs as [|r rs IH]; intros t; cbn [tally_all]; [discriminate|].
  destruct (tally_result num_add t r) as [t1|] eqn:Hr.
  - intros H. apply Exists_cons_tl. now apply IH in H.
  - intros _. apply Exists_cons_hd. now apply tally_result_None in Hr.
Qed.


End StatsFacts.

(** ** More on the coordinator's files *)

Module ReplaceFacts.

Lemma replace_absent old new s :
  Str.contains old s = false -> Str.replace_from old new 0 s = s.
Proof.
  induction s as [|c s IH]; [reflexivity|].
  cbn [Str.contains Str.replace_from].
  intros [Hp Hc]%orb_false_iff. rewrite Hp. now rewrite IH.
Qed.

Lemma replace_present old new s a b :
  a <> b ->
  String.prefix (String a "") old = true ->
  String.prefix (String b "") new = true ->
  Str.contains old s = true -> Str.replace_from old new 0 s <> s.
Proof.
  intros Hab Ha Hb.
  assert (Hold : forall t, String.prefix old t = true ->
                           exists t', t = String a t').
  { intros t Ht. destruct old as [|x old]; [discriminate|].
    cbn in Ha. destruct (ascii_dec a x) as [<-|]; [|discriminate].
    destruct t as [|y t]; [discriminate|]. cbn in Ht.
    destruct (ascii_dec a y) as [<-|]; [|discriminate]. now exists t. }
  assert (Hnew : exists n', new = String b n').
  { destruct new as [|x new]; [discriminate|]. cbn in Hb.
    destruct (ascii_dec b x) as [<-|]; [|discriminate]. now exists new. }
  destruct Hnew as [n' ->].
  induction s as [|c s IH].
  - cbn. destruct old; discriminate.
  - cbn [Str.contains Str.replace_from].
    destruct (String.prefix old (String c s)) eqn:Hp.
    + intros _. destruct (Hold _ Hp) as [t' [= -> ->]].
      change (String b n' +:+ ?r) with (String b (n' +:+ r)).
      intros [= H _]. congruence.
    + cbn [orb]. intros Hc [= H]. now apply IH.
Qed.

End ReplaceFacts.

Section CoordinatorExtras.
Import Indexer ReplaceFacts.

Variable extract_clean_content : string -> option Extractor.content_data.
Variable chat : string -> string -> string -> option string.
Variable json_loads : string -> option (gmap string json).
Variable now : string.

#[local] Abbreviation one_session :=
  (session extract_clean_content chat json_loads now).
#[local] Abbreviation process_csv :=
  (process_csv_file extract_clean_content chat json_loads now).

(** The checkpoint file is the output file itself exactly when the output
    file name holds no [.json]: [str.replace] then finds nothing to
    replace. *)
Lemma checkpoint_file_same out :
  checkpoint_file out = out <-> Str.contains ".json" out = false.
Proof.
  unfold checkpoint_file, Str.replace. split.
  - intros H. destruct (Str.contains ".json" out) eqn:E; [|reflexivity].
    exfalso. revert H.
    now apply (replace_present ".json" "_checkpoint.json" out "." "_").
  - apply replace_absent.
Qed.

(** X14.  With an output file name without [.json] the final save deletes what
    it has just written: the checkpoint name it removes is the output name.
    After a session the output file does not exist, so the next session
    starts from nothing. *)
Theorem output_name_without_json n b fs csv out :
  Str.contains ".json" out = false ->
  checkpoint_file out = out /\
  save_to_json b fs out !! out = None /\
  (forall f, f <> out -> save_to_json b fs out !! f = fs !! f) /\
  disk_after (one_session n fs csv out) !! out = None.
Proof.
  intros Hc. apply checkpoint_file_same in Hc.
  assert (Hsave : forall b' fs', save_to_json b' fs' out !! out = None).
  { intros b' fs'. unfold save_to_json. rewrite Hc, lookup_insert_eq.
    apply lookup_delete_eq. }
  split_all; auto.
  - intros f Hf. unfold save_to_json. rewrite Hc, lookup_insert_eq.
    rewrite lookup_delete_ne by congruence. now apply lookup_insert_ne.
  - unfold session. cbn [disk_after]. apply Hsave.
Qed.

(** X15.  Saving and loading again: with an output file name that holds [.json]
    and results whose [url] is a string where present, a fresh bot that
    loads the file written by [save_to_json] gets the saved list back and
    marks exactly the stripped URLs of its records as indexed.  The save
    leaves no checkpoint file and touches no other file. *)
Theorem save_load_round_trip b fs out :
  checkpoint_file out <> out ->
  urls_readable (results b) ->
  let fs' := save_to_json b fs out in
  load_existing_results fs' out ∅
  = (results b, list_to_set (strip <$> record_urls (results b))) /\
  fs' !! checkpoint_file out = None /\
  (forall f, f <> out -> f <> checkpoint_file out -> fs' !! f = fs !! f).
Proof.
  intros Hne Hr. cbv zeta. split_all.
  - rewrite (load_readable_file extract_clean_content chat json_loads _ out
               (results b));
      [now rewrite union_empty_r_L | now apply save_to_json_output | exact Hr].
  - unfold save_to_json.
    destruct (<[out:=JsonList (results b)]> fs !! checkpoint_file out) eqn:E;
      [apply lookup_delete_eq | exact E].
  - intros f Hf Hf'. unfold save_to_json.
    destruct (<[out:=JsonList (results b)]> fs !! checkpoint_file out);
      rewrite ?lookup_delete_ne by congruence; now apply lookup_insert_ne.
Qed.

Lemma add_indexed_app l1 : forall l urls,
  urls_readable l1 ->
  add_indexed (l1 ++ l) urls
  = add_indexed l (list_to_set (strip <$> record_urls l1) ∪ urls).
Proof.
  induction l1 as [|d l1 IH]; intros l urls Hr; cbn [app].
  - cbn. f_equal. set_solver.
  - apply Forall_cons in Hr as [Hd Hr]. unfold record_urls in *. cbn.
    destruct (d !! "url") as [[| | |u| |]|]; try contradiction.
    + rewrite (IH l _ Hr). cbn. f_equal. set_solver.
    + apply (IH l _ Hr).
Qed.

(** X16.  One record whose [url] is not a string makes [load_existing_results]
    give up the whole file: it returns the empty list, so the records that
    were in the file are not carried over to the next save.  The URLs of
    the records before the bad one have already been added to
    [indexed_urls] and stay there, so these pages are skipped although
    their records are dropped. *)
Theorem malformed_record_discards_loaded fs out l1 bad l2 v urls :
  fs !! out = Some (JsonList (l1 ++ bad :: l2)) ->
  urls_readable l1 ->
  bad !! "url" = Some v -> (forall s, v <> JStr s) ->
  load_existing_results fs out urls
  = ([], list_to_set (strip <$> record_urls l1) ∪ urls).
Proof.
  intros Hfs Hr Hbad Hv. unfold load_existing_results. rewrite Hfs.
  rewrite (add_indexed_app l1 (bad :: l2) urls Hr). cbn. rewrite Hbad.
  destruct v; try reflexivity. now destruct (Hv s).
Qed.

Lemma remaining_from_indexed cells : forall i (urls : gset string),
  Forall (fun c => match c with
                   | CStr u => strip u ∈ urls
                   | COther => True
                   end) cells ->
  remaining_from i cells urls = [].
Proof.
  induction cells as [|[u|] cells IH]; intros i urls Hall; cbn;
    [reflexivity| |]; apply Forall_cons in Hall as [Hc Hall]; auto.
  rewrite (bool_decide_eq_false_2 (strip u ∉ urls)) by tauto.
  rewrite andb_false_r. auto.
Qed.

Lemma idle_session n fs csv out :
  checkpoint_file out <> out ->
  scheduled (one_session n fs csv out) = [] ->
  disk_after (one_session n fs csv out) !! out = Some (JsonList []) /\
  created (one_session n fs csv out) = [] /\
  results (bot_after (one_session n fs csv out)) = [] /\
  returned (one_session n fs csv out) = fst (load_existing_results fs out ∅).
Proof.
  intros Hne. unfold session, process_csv_file, process_csv_file_upto.
  cbn [indexed_urls max_links results scheduled disk_after created
       bot_after returned].
  destruct (load_existing_results fs out ∅) as [ex urls]. cbn [fst].
  assert (Hsave : forall fs', save_to_json (mkBot n [] urls) fs' out !! out
                              = Some (JsonList [])).
  { intros fs'. now apply (save_to_json_output (mkBot n [] urls)). }
  destruct csv as [cells|]; [|cbn; auto].
  destruct (remaining_urls cells urls n) as [|p rem]; [cbn; auto|].
  cbn. discriminate.
Qed.

(** X17.  Running the indexer once more when every URL of the column is already
    indexed erases the index: nothing is scheduled, [process_csv_file]
    returns before it sets [self.results], and [main] saves the bot's empty
    result list over the output file; the statistics are empty too.  The
    records that were in the file are only in the list returned to
    [main]. *)
Theorem finished_index_is_erased n fs cells out num_add num_div round2 debug :
  checkpoint_file out <> out ->
  Forall (fun c => match c with
                   | CStr u => strip u ∈ loaded_urls fs out
                   | COther => True
                   end) cells ->
  let s := one_session n fs (Some cells) out in
  scheduled s = [] /\
  disk_after s !! out = Some (JsonList []) /\
  created s = [] /\
  returned s = fst (load_existing_results fs out ∅) /\
  Stats.get_statistics num_add num_div round2 now (bot_after s) debug
  = Stats.NoStatistics.
Proof.
  intros Hne Hall. cbv zeta.
  assert (Hs : scheduled (one_session n fs (Some cells) out) = []).
  { unfold session, process_csv_file, process_csv_file_upto, loaded_urls in *.
    cbn [indexed_urls max_links results scheduled].
    destruct (load_existing_results fs out ∅) as [ex urls]. cbn [snd] in Hall.
    assert (Hrem : remaining_urls cells urls n = []).
    { unfold remaining_urls.
      rewrite remaining_from_indexed;
        [destruct (n <? _); [apply take_nil | reflexivity]|].
      apply Forall_drop, Hall. }
    now rewrite Hrem. }
  destruct (idle_session n fs (Some cells) out Hne Hs) as (H1 & H2 & H3 & H4).
  split_all; auto. unfold Stats.get_statistics. now rewrite H3.
Qed.

(** *** Batches *)

Lemma batches_of_bounded size : forall fuel tasks,
  0 < size ->
  Forall (fun batch => 0 < length batch <= size) (batches_of fuel size tasks).
Proof.
  induction fuel as [|fuel IH]; intros tasks Hsize; cbn; [constructor|].
  destruct tasks as [|t tasks]; [constructor|].
  constructor; [|now apply IH].
  rewrite length_take. cbn [length]. lia.
Qed.

Lemma batches_of_count size : forall fuel tasks,
  0 < size -> length tasks <= fuel ->
  length (batches_of fuel size tasks) * size < length tasks + size /\
  length tasks <= length (batches_of fuel size tasks) * size.
Proof.
  induction fuel as [|fuel IH]; intros tasks Hsize Hlen.
  - destruct tasks; cbn in *; lia.
  - destruct tasks as [|t tasks]; [cbn; lia|].
    cbn [batches_of]. set (rest := drop size (t :: tasks)).
    assert (Hrest : length rest = S (length tasks) - size)
      by (unfold rest; now rewrite length_drop).
    destruct (IH rest Hsize) as [H1 H2]; [cbn in Hlen; lia|].
    rewrite Hrest in H1, H2.
    set (k := length (batches_of fuel size rest)) in *.
    change (length (take size (t :: tasks) :: batches_of fuel size rest))
      with (S k).
    change (length (t :: tasks)) with (S (length tasks)).
    rewrite Nat.mul_succ_l. clearbody k.
    destruct (le_lt_dec size (S (length tasks))) as [Hle|Hgt].
    + revert H1 H2. generalize (k * size). intros m H1 H2. lia.
    + destruct k as [|k]; [lia|]. rewrite Nat.mul_succ_l in H1. lia.
Qed.

(** X18.  The tasks are gathered in consecutive batches of at most ten URLs, no
    batch is empty, and together the batches are the scheduled list in its
    order; there are as many batches as tens of URLs, rounded up: a
    checkpoint is due after every ten URLs and after the last ones. *)
Theorem batches_bounded tasks :
  Forall (fun batch => 0 < length batch <= 10) (batches tasks) /\
  concat (batches tasks) = tasks /\
  length (batches tasks) * 10 < length tasks + 10 /\
  length tasks <= length (batches tasks) * 10.
Proof.
  assert (Hb : Forall (fun batch => 0 < length batch <= 10) (batches tasks)).
  { unfold batches. destruct tasks as [|t tasks]; [constructor|].
    eapply Forall_impl; [apply batches_of_bounded; cbn; lia|].
    cbn beta. intros batch. lia. }
  split; [exact Hb|]. split; [apply batches_concat|].
  unfold batches. destruct tasks as [|t tasks]; [cbn; lia|].
  set (all := t :: tasks).
  assert (Hpos : 0 < length all) by (cbn; lia).
  destruct (batches_of_count (Nat.min 10 (length all)) (length all) all)
    as [H1 H2]; [lia | lia |].
  revert H1 H2.
  generalize (length (batches_of (length all) (Nat.min 10 (length all)) all)).
  intros k.
  destruct (Nat.min_spec 10 (length all)) as [[Hlt ->]|[Hle ->]]; [lia|].
  intros H1 H2. destruct k as [|[|k]]; [lia|lia|].
  rewrite !Nat.mul_succ_l in H1. lia.
Qed.

End CoordinatorExtras.

(** ** The outcomes of [process_url] *)

Section ProcessUrlFacts.
Import Indexer Record.

Variable extract_clean_content : string -> option Extractor.content_data.
Variable chat : string -> string -> string -> option string.
Variable json_loads : string -> option (gmap string json).
Variable now : string.

#[local] Abbreviation analyze := (analyze_with_groq chat json_loads).
#[local] Abbreviation process :=
  (process_url extract_clean_content chat json_loads now).

Ltac missing_key content i :=
  exists content, (take i analysis_keys), (drop (S i) analysis_keys);
  split_all; [reflexivity | reflexivity | assumption
             | repeat constructor; eauto].

(** X19.  [process_url] returns nothing when the page cannot be extracted.  With
    a page, it raises [KeyError] exactly when the analysis lacks one of the
    nine keys it reads, for the first such key in the order of the dict
    display.  Otherwise the result has the fourteen keys of the dict; its
    URL is the one asked for, title, links and word count come from the
    page, and the nine analysis values are copied as they are, whatever
    their type. *)
Theorem process_url_outcomes url :
  match process url with
  | Skipped => extract_clean_content url = None
  | Raised key =>
      exists content before after,
        extract_clean_content url = Some content /\
        analysis_keys = before ++ key :: after /\
        analyze content !! key = None /\
        Forall (fun k => is_Some (analyze content !! k)) before
  | Indexed d =>
      exists content,
        extract_clean_content url = Some content /\
        dom d = list_to_set result_keys /\
        d !! "url" = Some (JStr url) /\
        d !! "title" = Some (JStr (Extractor.c_title content)) /\
        d !! "internal_links"
        = Some (JArr (map link_json (Extractor.internal_links content))) /\
        d !! "indexed_at" = Some (JStr now) /\
        d !! "word_count"
        = Some (JNum (inject_Z (Z.of_nat
                   (length (Str.split (Extractor.markdown_content content)))))) /\
        Forall (fun k => is_Some (d !! k) /\ d !! k = analyze content !! k)
          analysis_keys
  end.
Proof.
  unfold process_url.
  destruct (extract_clean_content url) as [content|]; [|reflexivity].
  set (a := analyze content). unfold build_result, item.
  destruct (a !! "keywords") as [v1|] eqn:H1; cbn [bind];
    [|missing_key content 0].
  destruct (a !! "description") as [v2|] eqn:H2; cbn [bind];
    [|missing_key content 1].
  destruct (a !! "relevance_score") as [v3|] eqn:H3; cbn [bind];
    [|missing_key content 2].
  destruct (a !! "content_type") as [v4|] eqn:H4; cbn [bind];
    [|missing_key content 3].
  destruct (a !! "main_topics") as [v5|] eqn:H5; cbn [bind];
    [|missing_key content 4].
  destruct (a !! "language") as [v6|] eqn:H6; cbn [bind];
    [|missing_key content 5].
  destruct (a !! "sentiment") as [v7|] eqn:H7; cbn [bind];
    [|missing_key content 6].
  destruct (a !! "target_audience") as [v8|] eqn:H8; cbn [bind];
    [|missing_key content 7].
  destruct (a !! "content_quality") as [v9|] eqn:H9; cbn [bind];
    [|missing_key content 8].
  exists content. split; [reflexivity|].
  split; [now rewrite dom_list_to_map_L|].
  split_all; try reflexivity.
  unfold analysis_keys.
  repeat (constructor; [split; [eexists; reflexivity|]; symmetry; assumption|]).
  constructor.
Qed.

End ProcessUrlFacts.

(** ** The search bot besides [search_by_keywords] *)

Section FilterFacts.
Import Search Searcher.

Lemma filter_by_criteria_filter data c :
  filter_by_criteria data c = List.filter (matches_criteria c) data.
Proof.
  unfold filter_by_criteria.
  assert (G : forall acc,
            fold_left
              (fun filtered e => if matches_criteria c e then filtered ++ [e]
                                 else filtered) data acc
            = acc ++ List.filter (matches_criteria c) data).
  { induction data as [|e data IH]; intros acc; cbn [fold_left List.filter].
    - now rewrite app_nil_r.
    - rewrite IH. destruct (matches_criteria c e); [|reflexivity].
      now rewrite <- app_assoc. }
  apply (G []).
Qed.

Lemma list_filter_sublist {A} (f : A -> bool) l :
  List.filter f l `sublist_of` l.
Proof.
  induction l as [|x l IH]; cbn; [constructor|].
  destruct (f x); [now apply sublist_skip | now apply sublist_cons].
Qed.

Lemma differs_false wanted actual :
  differs wanted actual = false <->
  (forall s, wanted = Some s -> s <> "" -> actual = Some s).
Proof.
  unfold differs. destruct wanted as [[|c w]|].
  - split; [|reflexivity]. intros _ s [= <-] H. congruence.
  - rewrite negb_false_iff, bool_decide_eq_true. split.
    + intros -> s [= <-] _. reflexivity.
    + intros H. now apply H.
  - split; [|reflexivity]. intros _ s [=].
Qed.

Lemma below_minimum_false wanted actual :
  below_minimum wanted actual = false <->
  (forall m, wanted = Some m -> ~ (m == 0)%Q -> (m <= get actual 0)%Q).
Proof.
  unfold below_minimum. destruct wanted as [m|].
  - destruct (Qeq_bool m 0) eqn:E.
    + apply Qeq_bool_iff in E. split; [|reflexivity].
      intros _ m' [= <-] H. contradiction.
    + apply Qeq_bool_neq in E.
      destruct (Qlt_le_dec (get actual 0%Q) m) as [Hlt|Hle].
      * split; [discriminate|]. intros H. exfalso.
        apply (Qlt_not_le _ _ Hlt). now apply H.
      * split; [|reflexivity]. intros _ m' [= <-] _. exact Hle.
  - split; [|reflexivity]. intros _ m [=].
Qed.

Lemma matches_criteria_true c e :
  matches_criteria c e = true <->
  differs (c_content_type c) (content_type e) = false /\
  differs (c_language c) (language e) = false /\
  differs (c_content_quality c) (content_quality e) = false /\
  differs (c_target_audience c) (target_audience e) = false /\
  differs (c_sentiment c) (sentiment e) = false /\
  below_minimum (c_min_relevance_score c) (relevance_score e) = false.
Proof.
  unfold matches_criteria.
  destruct (differs (c_content_type c) _), (differs (c_language c) _),
    (differs (c_content_quality c) _), (differs (c_target_audience c) _),
    (differs (c_sentiment c) _), (below_minimum _ _); cbn;
    intuition congruence.
Qed.

(** X20.  [filter_by_criteria] returns, in the order of the index, exactly the
    items that meet every criterion in force: a string criterion is in
    force when it is a non-empty string, and then the item must hold this
    very string (an item without the key fails); the minimum relevance is
    in force when it is not 0, and then the item's score (0 when missing)
    must not be below it.  A criterion that is missing, empty or 0 filters
    nothing, and filtering the result again changes nothing. *)
Theorem filter_by_criteria_spec data c :
  let r := filter_by_criteria data c in
  r `sublist_of` data /\
  (forall e, e ∈ r <->
     e ∈ data /\
     (forall s, c_content_type c = Some s -> s <> "" -> content_type e = Some s) /\
     (forall s, c_language c = Some s -> s <> "" -> language e = Some s) /\
     (forall s, c_content_quality c = Some s -> s <> "" ->
                content_quality e = Some s) /\
     (forall s, c_target_audience c = Some s -> s <> "" ->
                target_audience e = Some s) /\
     (forall s, c_sentiment c = Some s -> s <> "" -> sentiment e = Some s) /\
     (forall m, c_min_relevance_score c = Some m -> ~ (m == 0)%Q ->
                (m <= get (relevance_score e) 0)%Q)) /\
  filter_by_criteria r c = r /\
  filter_by_criteria data (mkCriteria None (Some "") None None (Some "") (Some 0%Q))
  = data.
Proof.
  cbv zeta. rewrite !filter_by_criteria_filter. split_all.
  - apply list_filter_sublist.
  - intros e. rewrite list_elem_of_In, List.filter_In, <- list_elem_of_In.
    rewrite matches_criteria_true, !differs_false, below_minimum_false.
    reflexivity.
  - induction data as [|e data IH]; cbn; [reflexivity|].
    destruct (matches_criteria c e) eqn:E; cbn; [|exact IH].
    now rewrite E, IH.
  - induction data as [|e data IH]; cbn; [reflexivity|]. now rewrite IH.
Qed.

End FilterFacts.

Section AnswerFacts.
Import Search Searcher.

Variable ratio : string -> string -> Z.
Variable partial_ratio : string -> string -> Z.
Variable lower : string -> string.
Variable analyze_query_with_ai : string -> list result -> string.
Variable now : string.

#[local] Abbreviation ranked data query :=
  (search_by_keywords ratio partial_ratio lower data query 70).
#[local] Abbreviation answer_of :=
  (search_and_answer ratio partial_ratio lower analyze_query_with_ai now).

Lemma score_ge_transitive : Transitive score_ge.
Proof.
  intros a b c Hab Hbc. unfold score_ge in *.
  now apply Qle_trans with (search_score b).
Qed.

Lemma ranked_strongly_sorted data query :
  StronglySorted score_ge (ranked data query).
Proof.
  apply Sorted_StronglySorted; [apply score_ge_transitive|].
  apply sort_desc_sorted.
Qed.

Lemma elem_of_ranked data query r :
  r ∈ ranked data query ->
  res_item r ∈ data /\ (0 < search_score r)%Q.
Proof.
  unfold search_by_keywords. rewrite sort_desc_perm.
  intros (it & Hin & -> & Hpos)%elem_of_collect. now split.
Qed.



End AnswerFacts.

(** *** Counters with string keys *)

Module StrCounterFacts.
Import Search Searcher.

Lemma count_in_count_up key d key' :
  count_in key' (count_up key d)
  = count_in key' d + (if String.eqb key key' then 1 else 0).
Proof.
  unfold count_in. induction d as [|[k n] d IH]; cbn.
  - destruct (String.eqb key key'); reflexivity.
  - destruct (String.eqb k key) eqn:Hk; cbn.
    + apply String.eqb_eq in Hk as ->.
      destruct (String.eqb key key'); cbn; lia.
    + destruct (String.eqb k key') eqn:Hk'; cbn; [|exact IH].
      apply String.eqb_eq in Hk' as ->.
      rewrite String.eqb_sym, Hk. lia.
Qed.

Lemma total_count_count_up key d :
  total_count (count_up key d) = S (total_count d).
Proof.
  unfold total_count. induction d as [|[k n] d IH]; cbn; [reflexivity|].
  destruct (String.eqb k key); cbn; lia.
Qed.

Lemma keys_count_up key d :
  (count_up key d).*1 = d.*1 \/
  ((key ∉ d.*1) /\ (count_up key d).*1 = d.*1 ++ [key]).
Proof.
  induction d as [|[k n] d IH]; cbn.
  - right. split; [apply not_elem_of_nil | reflexivity].
  - destruct (String.eqb k key) eqn:Hk; cbn; [now left|].
    apply String.eqb_neq in Hk.
    destruct IH as [->|[Hnot ->]]; [now left|right].
    split; [|reflexivity]. rewrite not_elem_of_cons. split; congruence.
Qed.

Lemma NoDup_count_up key d : NoDup d.*1 -> NoDup (count_up key d).*1.
Proof.
  intros Hd. destruct (keys_count_up key d) as [->|[Hnot ->]]; [exact Hd|].
  apply NoDup_app. split; [exact Hd|]. split; [|apply NoDup_singleton].
  intros x Hx ->%list_elem_of_singleton. contradiction.
Qed.

Lemma positive_count_up key d :
  Forall (fun kv => 0 < snd kv) d -> Forall (fun kv => 0 < snd kv) (count_up key d).
Proof.
  induction 1 as [|[k n] d Hn Hd IH]; cbn; [repeat constructor|].
  destruct (String.eqb k key); constructor; auto. cbn. lia.
Qed.

Lemma count_in_elem k n d : NoDup d.*1 -> (k, n) ∈ d -> count_in k d = n.
Proof.
  unfold count_in. induction d as [|[k' n'] d IH]; cbn; intros Hd Hin.
  - now apply elem_of_nil in Hin.
  - apply NoDup_cons in Hd as [Hk Hd].
    apply elem_of_cons in Hin as [[= -> ->]|Hin].
    + now rewrite String.eqb_refl.
    + destruct (String.eqb k' k) eqn:E; [|now apply IH].
      apply String.eqb_eq in E as ->. exfalso. apply Hk.
      apply list_elem_of_fmap. now exists (k, n).
Qed.

Lemma count_in_positive key d :
  0 < count_in key d -> exists n, (key, n) ∈ d.
Proof.
  unfold count_in. destruct (List.find _ d) as [[k n]|] eqn:E; [|cbn; lia].
  intros _. apply List.find_some in E as [Hin Hk]. cbn in Hk.
  apply String.eqb_eq in Hk as ->. exists n. now apply list_elem_of_In.
Qed.

(** The sort by count. *)
Lemma insert_by_count_perm x l : insert_by_count x l ≡ₚ x :: l.
Proof.
  induction l as [|y l IH]; cbn [insert_by_count]; [reflexivity|].
  destruct (snd x <? snd y); [|reflexivity].
  rewrite IH. apply Permutation_swap.
Qed.

Lemma sort_by_count_perm d : sort_by_count d ≡ₚ d.
Proof.
  induction d as [|x d IH]; cbn [sort_by_count foldr]; [reflexivity|].
  change (foldr insert_by_count [] d) with (sort_by_count d).
  now rewrite insert_by_count_perm, IH.
Qed.

Lemma insert_by_count_sorted x l :
  Sorted (fun a b : string * nat => snd b <= snd a) l ->
  Sorted (fun a b : string * nat => snd b <= snd a) (insert_by_count x l).
Proof.
  induction 1 as [|y l Hs IH Hhd]; cbn [insert_by_count];
    [repeat constructor|].
  destruct (snd x <? snd y) eqn:E.
  - apply Nat.ltb_lt in E. constructor; [exact IH|].
    destruct l as [|z l]; cbn [insert_by_count].
    + constructor. lia.
    + destruct (snd x <? snd z); constructor; [now inversion Hhd | lia].
  - apply Nat.ltb_ge in E. constructor; [now constructor|]. now constructor.
Qed.

Lemma sort_by_count_sorted d :
  StronglySorted (fun a b : string * nat => snd b <= snd a) (sort_by_count d).
Proof.
  apply Sorted_StronglySorted; [intros a b c; lia|].
  induction d as [|x d IH]; cbn [sort_by_count foldr]; [constructor|].
  now apply insert_by_count_sorted.
Qed.

(** What [top10] keeps of a counter that counts [words]. *)
Lemma top10_top_of words d :
  NoDup d.*1 ->
  Forall (fun kv => 0 < snd kv) d ->
  (forall key, count_in key d = occurrences key words) ->
  top_of words (top10 d).
Proof.
  intros Hnd Hpos Hcount. unfold top10.
  pose proof (sort_by_count_perm d) as Hperm.
  pose proof (sort_by_count_sorted d) as Hsorted.
  revert Hperm Hsorted. generalize (sort_by_count d). intros l Hperm Hsorted.
  assert (Hl : NoDup l.*1) by now rewrite Hperm.
  rewrite <- (take_drop 10 l) in Hsorted, Hl, Hperm.
  rewrite fmap_app in Hl. apply NoDup_app in Hl as (Hl1 & Hdisj & _).
  assert (Hsub : forall kv, kv ∈ take 10 l -> kv ∈ d).
  { intros kv Hkv. rewrite <- Hperm. apply elem_of_app. now left. }
  unfold top_of. split_all.
  - rewrite length_take. lia.
  - now apply StronglySorted_app_1_l in Hsorted.
  - exact Hl1.
  - intros k n Hin. apply Hsub in Hin as Hd. split.
    + rewrite <- Hcount. symmetry. now apply count_in_elem.
    + rewrite Forall_forall in Hpos. apply (Hpos _ Hd).
  - intros key k n Hin Hkey.
    destruct (occurrences key words) as [|m] eqn:Hocc; [lia|].
    destruct (count_in_positive key d) as [n' Hn']; [rewrite Hcount; lia|].
    assert (Hm : n' = S m).
    { rewrite <- Hocc, <- Hcount. symmetry. now apply count_in_elem. }
    rewrite <- Hperm in Hn'. apply elem_of_app in Hn' as [Hn'|Hn'].
    + exfalso. apply Hkey. apply list_elem_of_fmap. now exists (key, n').
    + pose proof (StronglySorted_app_1_elem_of _ _ _ _ _ Hsorted Hin Hn') as H.
      cbn in H. lia.
  - intros key Hocc.
    destruct (count_in_positive key d) as [n' Hn']; [rewrite Hcount; lia|].
    rewrite <- Hperm in Hn'. apply elem_of_app in Hn' as [Hn'|Hn'].
    + left. apply list_elem_of_fmap. now exists (key, n').
    + right. rewrite length_take.
      assert (10 < length l); [|lia].
      destruct (le_lt_dec (length l) 10) as [Hle|]; [|lia].
      rewrite drop_ge in Hn' by exact Hle. now apply elem_of_nil in Hn'.
Qed.

End StrCounterFacts.

Section SummaryFacts.
Import Search Searcher StrCounterFacts.

Variable lower : string -> string.
Variable num_add : Q -> Q -> Q.
Variable num_div : Q -> nat -> Q.

#[local] Abbreviation field_fold f :=
  (fold_left (fun d e => count_up (get (f e) "unknown") d)).
#[local] Abbreviation words_fold g :=
  (fold_left (fun d e => count_words lower (get (g (e_item e)) []) d)).

(** A counter that is well formed: keys without repetition, counts
    positive. *)
#[local] Abbreviation well_formed d :=
  (NoDup (fmap (M:=list) fst d%list)
   /\ Forall (fun kv : string * nat => 0 < snd kv) d%list).

Lemma field_fold_spec (f : entry -> option string) data : forall d,
  well_formed d ->
  well_formed (field_fold f data d) /\
  total_count (field_fold f data d) = total_count d + length data /\
  forall key,
    count_in key (field_fold f data d)
    = count_in key d
      + length (List.filter (fun e => String.eqb (get (f e) "unknown") key) data).
Proof.
  induction data as [|e data IH]; intros d [Hnd Hpos]; cbn [fold_left].
  - cbn. split_all; auto; intros; lia.
  - destruct (IH (count_up (get (f e) "unknown") d)) as ([H1 H2] & H3 & H4).
    { split; [now apply NoDup_count_up | now apply positive_count_up]. }
    split_all; auto.
    + rewrite H3, total_count_count_up. cbn. lia.
    + intros key. rewrite H4, count_in_count_up. cbn.
      destruct (String.eqb (get (f e) "unknown") key); cbn; lia.
Qed.

Lemma count_words_spec words : forall d,
  well_formed d ->
  well_formed (count_words lower words d) /\
  forall key,
    count_in key (count_words lower words d)
    = count_in key d + occurrences key (lower <$> words).
Proof.
  unfold count_words, occurrences.
  induction words as [|w words IH]; intros d [Hnd Hpos]; cbn [fold_left].
  - cbn. split_all; auto; intros; lia.
  - destruct (IH (count_up (lower w) d)) as ([H1 H2] & H3).
    { split; [now apply NoDup_count_up | now apply positive_count_up]. }
    split_all; auto.
    intros key. rewrite H3, count_in_count_up. cbn.
    rewrite (String.eqb_sym key). destruct (String.eqb (lower w) key); cbn; lia.
Qed.

Lemma words_fold_spec (g : item -> option (list string)) data : forall d,
  well_formed d ->
  well_formed (words_fold g data d) /\
  forall key,
    count_in key (words_fold g data d)
    = count_in key d + occurrences key (all_words lower g data).
Proof.
  unfold all_words.
  induction data as [|e data IH]; intros d Hd; cbn [fold_left].
  - cbn. split_all; try tauto; intros; unfold occurrences; cbn; lia.
  - destruct (count_words_spec (get (g (e_item e)) []) d Hd) as (Hd' & Hc).
    destruct (IH _ Hd') as (Hd'' & Hc'). split; [exact Hd''|].
    intros key. rewrite Hc', Hc. unfold occurrences. cbn [flat_map].
    rewrite List.filter_app, length_app. lia.
Qed.

Lemma summarize_fold data : forall st t,
  let r := fold_left (summarize_entry lower num_add) data (st, t) in
  total_pages (fst r) = total_pages st /\
  content_types (fst r) = field_fold content_type data (content_types st) /\
  languages (fst r) = field_fold language data (languages st) /\
  quality_distribution (fst r)
  = field_fold content_quality data (quality_distribution st) /\
  sentiment_distribution (fst r)
  = field_fold sentiment data (sentiment_distribution st) /\
  target_audiences (fst r)
  = field_fold target_audience data (target_audiences st) /\
  top_keywords (fst r) = words_fold keywords data (top_keywords st) /\
  top_topics (fst r) = words_fold main_topics data (top_topics st).
Proof.
  induction data as [|e data IH]; intros st t; cbn [fold_left].
  - cbn. split_all; reflexivity.
  - cbn [summarize_entry].
    match goal with
    | |- context [fold_left _ data (?st', ?t')] =>
        destruct (IH st' t') as (H1 & H2 & H3 & H4 & H5 & H6 & H7 & H8)
    end.
    cbv zeta in *. cbn in *. split_all; assumption.
Qed.

Lemma summarize_short_fold data : forall st,
  let r := fold_left (summarize_entry_short lower) data st in
  s_total_pages r = s_total_pages st /\
  s_content_types r = field_fold content_type data (s_content_types st) /\
  s_languages r = field_fold language data (s_languages st) /\
  s_top_keywords r = words_fold keywords data (s_top_keywords st) /\
  s_top_topics r = words_fold main_topics data (s_top_topics st).
Proof.
  induction data as [|e data IH]; intros st; cbn [fold_left].
  - cbn. split_all; reflexivity.
  - destruct (IH (summarize_entry_short lower st e)) as (H1 & H2 & H3 & H4 & H5).
    cbv zeta in *. cbn in *. split_all; assumption.
Qed.

Lemma empty_well_formed : well_formed ([] : str_counter).
Proof. split; constructor. Qed.

Lemma field_distribution (f : entry -> option string) data :
  distribution_of f data (field_fold f data []).
Proof.
  destruct (field_fold_spec f data [] empty_well_formed) as ([H1 _] & H2 & H3).
  unfold distribution_of. split_all; auto.
Qed.

Lemma words_top (g : item -> option (list string)) data :
  top_of (all_words lower g data) (top10 (words_fold g data [])).
Proof.
  destruct (words_fold_spec g data [] empty_well_formed) as ([H1 H2] & H3).
  apply top10_top_of; auto.
Qed.


End SummaryFacts.

(** ** What a run of the coordinator returns and leaves on disk *)

Section CoordinatorResults.
Import Indexer.

Variable extract_clean_content : string -> option Extractor.content_data.
Variable chat : string -> string -> string -> option string.
Variable json_loads : string -> option (gmap string json).
Variable now : string.

#[local] Abbreviation created_by :=
  (created_of extract_clean_content chat json_loads now).
#[local] Abbreviation run_one :=
  (run_batch extract_clean_content chat json_loads now).

(** After any number of batches the checkpoint file is untouched as long
    as no result has been created, and holds all results so far
    afterwards. *)
Lemma run_batches_checkpoint out bs : forall st old,
  (new_results st = [] /\ disk st !! checkpoint_file out = old \/
   new_results st <> [] /\
   disk st !! checkpoint_file out = Some (JsonList (all_results st))) ->
  let st' := fold_left (run_one out) bs st in
  new_results st' = [] /\ disk st' !! checkpoint_file out = old \/
  new_results st' <> [] /\
  disk st' !! checkpoint_file out = Some (JsonList (all_results st')).
Proof.
  induction bs as [|b bs IH]; intros st old Hinv; cbn [fold_left];
    [exact Hinv|].
  apply IH. unfold run_batch, save_progress_checkpoint.
  destruct (absorb_fold extract_clean_content chat json_loads now b st)
    as (Hn & Ha & Hd).
  cbv zeta in Hn, Ha, Hd.
  set (st1 := fold_left absorb _ st) in *.
  destruct (new_results st1) as [|d ds] eqn:E.
  - left. split; [exact E|]. rewrite Hd.
    destruct Hinv as [[_ H]|[Hne _]]; [exact H|].
    destruct (new_results st); [congruence | discriminate].
  - right. cbn [new_results disk all_results]. split; [discriminate|].
    apply lookup_insert_eq.
Qed.

(** X24.  The checkpoint file an interrupted run leaves: killed after [k]
    batches, the run has written to the checkpoint file the records loaded
    from the output file followed by the records created so far, provided
    one has been created; otherwise the checkpoint file is as it was.  The
    output file itself is never written before the final save. *)
Theorem checkpoint_holds_progress k n fs cells out :
  checkpoint_file out <> out ->
  let disk' :=
    killed_session extract_clean_content chat json_loads now k n fs
      (Some cells) out in
  let loaded := fst (load_existing_results fs out ∅) in
  let tasks :=
    scheduled (process_csv_file extract_clean_content chat json_loads now
                 (mkBot n [] ∅) fs (Some cells) out) in
  let done := created_by (concat (take k (batches tasks))) in
  disk' !! out = fs !! out /\
  (done = [] -> disk' !! checkpoint_file out = fs !! checkpoint_file out) /\
  (done <> [] ->
   disk' !! checkpoint_file out = Some (JsonList (loaded ++ done))).
Proof.
  intros Hne. cbv zeta.
  split; [apply killed_session_files; congruence|].
  unfold killed_session, process_csv_file, process_csv_file_upto.
  cbn [indexed_urls max_links results].
  destruct (load_existing_results fs out ∅) as [ex urls]. cbn [fst].
  destruct (remaining_urls cells urls n) as [|p rem] eqn:Hrem.
  { cbn [scheduled disk_after]. unfold batches. cbn [length batches_of].
    rewrite take_nil. cbn. split; [reflexivity|]. intros H. now destruct H. }
  cbn [scheduled disk_after].
  set (tasks := (p :: rem).*2).
  set (st0 := mkProgress [] ex urls fs).
  destruct (run_batches_results extract_clean_content chat json_loads now out
              (take k (batches tasks)) st0) as [Hn Ha].
  destruct (run_batches_checkpoint out (take k (batches tasks)) st0
              (fs !! checkpoint_file out)) as [[H1 H2]|[H1 H2]];
    [left; split; reflexivity|..]; cbv zeta in *; subst st0;
    cbn [new_results all_results app] in Hn, Ha; rewrite Hn in H1.
  - split; [intros _; exact H2 | intros H; now destruct H].
  - split; [intros H; now destruct H1|]. intros _. rewrite H2. now rewrite Ha.
Qed.

(** X25.  What [process_csv_file] gives to a fresh bot: the returned list is the
    list loaded from the output file followed by the new records; the new
    records are the results of [process_url] for the scheduled URLs, in
    order, one at most per URL; [self.results] is the returned list unless
    nothing was scheduled, in which case it stays empty; and the output
    file is not written by this method. *)
Theorem process_csv_file_result n fs csv out :
  checkpoint_file out <> out ->
  let r :=
    process_csv_file extract_clean_content chat json_loads now
      (mkBot n [] ∅) fs csv out in
  returned r = fst (load_existing_results fs out ∅) ++ created r /\
  created r = created_by (scheduled r) /\
  record_urls (created r) `sublist_of` scheduled r /\
  length (created r) <= length (scheduled r) /\
  length (scheduled r) <= n /\
  (scheduled r <> [] -> results (bot_after r) = returned r) /\
  (scheduled r = [] -> results (bot_after r) = [] /\ created r = []) /\
  disk_after r !! out = fs !! out.
Proof.
  intros Hne. cbv zeta.
  destruct (process_csv_file_spec extract_clean_content chat json_loads now
              n fs csv out) as (_ & _ & Hc & _ & Hret & Hn).
  cbv zeta in *.
  assert (Hsub : record_urls
                   (created_by
                      (scheduled
                         (process_csv_file extract_clean_content chat
                            json_loads now (mkBot n [] ∅) fs csv out)))
                 `sublist_of`
                 scheduled
                   (process_csv_file extract_clean_content chat json_loads
                      now (mkBot n [] ∅) fs csv out))
    by apply record_urls_created.
  split; [exact Hret|]. split; [exact Hc|].
  split; [now rewrite Hc|].
  split.
  { rewrite Hc. unfold created_of.
    clear. generalize (scheduled
                        (process_csv_file extract_clean_content chat json_loads
                           now (mkBot n [] ∅) fs csv out)).
    intros l. induction l as [|u l IH]; cbn; [lia|].
    destruct (process_url _ _ _ _ u); cbn; lia. }
  split; [exact Hn|].
  unfold process_csv_file, process_csv_file_upto in *.
  cbn [indexed_urls max_links results] in *.
  destruct (load_existing_results fs out ∅) as [ex urls]. cbn [fst] in *.
  destruct csv as [cells|];
    [|cbn; split_all; auto; intros H; now destruct H].
  destruct (remaining_urls cells urls n) as [|p rem];
    [cbn; split_all; auto; intros H; now destruct H|].
  cbn [scheduled bot_after results returned created disk_after] in *.
  split; [reflexivity|]. split; [discriminate|].
  rewrite run_batches_disk; [reflexivity | congruence].
Qed.

End CoordinatorResults.

(** ** What the extractor of [indexer.py] returns *)

Section ExtractorOutcomes.
Import Html HtmlFacts Extractor.

Variable http : string -> option (nat * string).
Variable parse_html : string -> list node.
Variable md : node -> string.
Variable squeeze_blank_lines : string -> string.
Variable squeeze_spaces : string -> string.
Variable urlparse : string -> parsed_url.
Variable urljoin : string -> string -> string.
Variable now : string.

Lemma anchor_link_spec url base_domain link l :
  anchor_link urljoin url base_domain link = Some l ->
  snd l <> "" /\ strip (snd l) = snd l /\
  (Str.contains base_domain (fst l) = true \/
   Str.starts_with "/" (fst l) = true).
Proof.
  unfold anchor_link. destruct (get_attr "href" link) as [href|]; [|discriminate].
  destruct (Str.nonempty href && Str.nonempty (strip (get_text link))) eqn:E;
    [|discriminate].
  apply andb_true_iff in E as [_ Ht].
  destruct (Str.contains base_domain _ || Str.starts_with "/" _) eqn:Hi;
    [|discriminate].
  intros [= <-]. cbn [fst snd]. split_all.
  - intros H. rewrite H in Ht. discriminate.
  - apply StripFacts.strip_idem.
  - now apply orb_true_iff in Hi.
Qed.


End ExtractorOutcomes.

(** ** Instances of the properties above *)

(** A seed that answers with an empty body. *)
Lemma empty_page_not_recorded_witness :
  to_visit (init url_root) = [url_root] /\
  (url_root ∉ visited_urls (init url_root)) /\
  failed_urls
    (crawl_body py_urlparse (fun _ _ => Some "") site_anchors urljoin_absolute
       no_rank url_root (init url_root)) = [] /\
  visited_urls
    (crawl_body py_urlparse (fun _ _ => Some "") site_anchors urljoin_absolute
       no_rank url_root (init url_root)) = ∅.
Proof.
  assert (H1 : to_visit (init url_root) = [url_root]) by reflexivity.
  assert (H2 : url_root ∉ visited_urls (init url_root)) by by_evaluation.
  split; [exact H1|]. split; [exact H2|].
  destruct (empty_page_not_recorded py_urlparse (fun _ _ => Some "")
              site_anchors urljoin_absolute no_rank url_root (init url_root)
              url_root [] H1 H2 eq_refl) as (Hf & Hv & _).
  split; [exact Hf | exact Hv].
Defined.

(** A seed whose request raises. *)
Lemma dead_seed_crawl_witness :
  0 < 5 /\
  exists st',
    crawl py_urlparse (fun _ _ => None) site_anchors urljoin_absolute no_rank
      url_root 5 1 = Some st' /\
    visited_urls st' = ∅ /\ all_links st' = ∅ /\ to_visit st' = [] /\
    pages_crawled st' = 0 /\ fetched st' = [url_root] /\
    CrawlerOutput.save_results st' = [["URL"; "Status"]].
Proof.
  assert (H1 : 0 < 5) by lia.
  split; [exact H1|].
  apply (dead_seed_crawl py_urlparse (fun _ _ => None) site_anchors
           urljoin_absolute no_rank url_root 5 0 H1).
  left. reflexivity.
Defined.

Lemma output_name_without_json_witness :
  Str.contains ".json" "index.txt" = false /\
  Indexer.checkpoint_file "index.txt" = "index.txt" /\
  Indexer.disk_after
    (Indexer.session (Indexer.demo_extract []) (fun _ _ _ => None)
       Indexer.demo_json_loads "2025-01-01T00:00:00" 400 ∅
       (Some Indexer.demo_csv) "index.txt") !! "index.txt" = None.
Proof.
  assert (H1 : Str.contains ".json" "index.txt" = false) by reflexivity.
  split; [exact H1|].
  destruct (output_name_without_json (Indexer.demo_extract [])
              (fun _ _ _ => None) Indexer.demo_json_loads
              "2025-01-01T00:00:00" 400 (Indexer.mkBot 400 [] ∅) ∅
              (Some Indexer.demo_csv) "index.txt" H1) as (Hc & _ & _ & Hd).
  split; [exact Hc | exact Hd].
Defined.

Lemma save_load_round_trip_witness :
  Indexer.checkpoint_file "indexed_content.json" <> "indexed_content.json" /\
  Indexer.load_existing_results
    (Indexer.save_to_json
       (Indexer.mkBot 400
          [{["url" := Indexer.JStr "https://example.org/p00"]};
           {["title" := Indexer.JStr "no url"]}] ∅)
       ∅ "indexed_content.json")
    "indexed_content.json" ∅
  = ([{["url" := Indexer.JStr "https://example.org/p00"]};
      {["title" := Indexer.JStr "no url"]}],
     {["https://example.org/p00"]}).
Proof.
  assert (H1 : Indexer.checkpoint_file "indexed_content.json"
               <> "indexed_content.json") by (vm_compute; discriminate).
  split; [exact H1|].
  assert (H2 : Indexer.urls_readable
                 (Indexer.results
                    (Indexer.mkBot 400
                       [{["url" := Indexer.JStr "https://example.org/p00"]};
                        {["title" := Indexer.JStr "no url"]}] ∅)))
    by (repeat constructor).
  destruct (save_load_round_trip (Indexer.demo_extract []) (fun _ _ _ => None)
              Indexer.demo_json_loads _ ∅ "indexed_content.json" H1 H2)
    as (Hl & _).
  rewrite Hl. f_equal.
Defined.

Lemma malformed_record_discards_loaded_witness :
  Indexer.urls_readable [{["url" := Indexer.JStr " https://example.org/p00 "]}] /\
  Indexer.load_existing_results
    {["indexed_content.json" :=
        Indexer.JsonList
          [{["url" := Indexer.JStr " https://example.org/p00 "]};
           {["url" := Indexer.JNull]};
           {["url" := Indexer.JStr "https://example.org/p02"]}]]}
    "indexed_content.json" ∅
  = ([], list_to_set
           (strip <$> Indexer.record_urls
              [{["url" := Indexer.JStr " https://example.org/p00 "]}]) ∪ ∅).
Proof.
  assert (H1 : Indexer.urls_readable
                 [{["url" := Indexer.JStr " https://example.org/p00 "]}])
    by (repeat constructor).
  split; [exact H1|].
  apply (malformed_record_discards_loaded (Indexer.demo_extract [])
           (fun _ _ _ => None) Indexer.demo_json_loads _ "indexed_content.json"
           [{["url" := Indexer.JStr " https://example.org/p00 "]}]
           {["url" := Indexer.JNull]}
           [{["url" := Indexer.JStr "https://example.org/p02"]}]
           Indexer.JNull ∅);
    [reflexivity | exact H1 | reflexivity | discriminate].
Defined.

Lemma finished_index_is_erased_witness :
  Indexer.checkpoint_file "indexed_content.json" <> "indexed_content.json" /\
  Indexer.disk_after
    (Indexer.session (Indexer.demo_extract []) (fun _ _ _ => None)
       Indexer.demo_json_loads "2025-01-01T00:00:00" 400
       {["indexed_content.json" :=
           Indexer.JsonList
             [{["url" := Indexer.JStr "https://example.org/p00"]};
              {["url" := Indexer.JStr "https://example.org/p01"]}]]}
       (Some (take 2 Indexer.demo_csv)) "indexed_content.json")
    !! "indexed_content.json"
  = Some (Indexer.JsonList []).
Proof.
  assert (H1 : Indexer.checkpoint_file "indexed_content.json"
               <> "indexed_content.json") by (vm_compute; discriminate).
  split; [exact H1|].
  refine (proj1 (proj2
    (finished_index_is_erased (Indexer.demo_extract []) (fun _ _ _ => None)
       Indexer.demo_json_loads "2025-01-01T00:00:00" 400 _
       (take 2 Indexer.demo_csv) "indexed_content.json" Qplus (fun q _ => q)
       (fun q => q) None H1 _))).
  repeat constructor; by_evaluation.
Defined.

Lemma checkpoint_holds_progress_witness :
  Indexer.checkpoint_file "indexed_content.json" <> "indexed_content.json" /\
  Indexer.killed_session (Indexer.demo_extract []) (fun _ _ _ => None)
    Indexer.demo_json_loads "2025-01-01T00:00:00" 1 400 ∅
    (Some Indexer.demo_csv) "indexed_content.json" !! "indexed_content.json"
  = (∅ : gmap string Indexer.file) !! "indexed_content.json".
Proof.
  assert (H1 : Indexer.checkpoint_file "indexed_content.json"
               <> "indexed_content.json") by (vm_compute; discriminate).
  split; [exact H1|].
  apply (checkpoint_holds_progress (Indexer.demo_extract []) (fun _ _ _ => None)
           Indexer.demo_json_loads "2025-01-01T00:00:00" 1 400 ∅
           Indexer.demo_csv "indexed_content.json" H1).
Defined.

Lemma process_csv_file_result_witness :
  Indexer.checkpoint_file "indexed_content.json" <> "indexed_content.json" /\
  length
    (Indexer.scheduled
       (Indexer.process_csv_file (Indexer.demo_extract []) (fun _ _ _ => None)
          Indexer.demo_json_loads "2025-01-01T00:00:00" (Indexer.mkBot 3 [] ∅)
          ∅ (Some Indexer.demo_csv) "indexed_content.json")) <= 3.
Proof.
  assert (H1 : Indexer.checkpoint_file "indexed_content.json"
               <> "indexed_content.json") by (vm_compute; discriminate).
  split; [exact H1|].
  apply (process_csv_file_result (Indexer.demo_extract []) (fun _ _ _ => None)
           Indexer.demo_json_loads "2025-01-01T00:00:00" 3 ∅
           (Some Indexer.demo_csv) "indexed_content.json" H1).
Defined.
